(** * Slack Connect Manager (main.go): command handlers and user-info refresh

    A shallow embedding of the command handlers of [main.go] and of the
    per-channel refresh [updateUserInfoForChannel], over the three JSON
    files the program keeps ([teams.json], [users.json], [channels.json]).

    Conventions of the embedding.
    - A Go [map[string]V] is [option (gmap string V)]: [None] is the nil map
      (reads behave as on an empty map, a store panics), [Some m] an
      allocated one.  A slice is a list; nil and empty slices are not told
      apart, as the code never does.
    - A file is described by what [ioutil.ReadFile] followed by
      [json.Unmarshal] makes of it: no file, an unreadable file, bytes that
      do not parse, or bytes that parse to a value.  A successful write of
      [v] leaves the bytes [json.MarshalIndent] makes of [v], written
      [Json v].  They parse back to [v] when every string of [v] is valid
      UTF-8, as the strings read from a file or decoded from an answer of
      Slack are.  The words of a command are arbitrary bytes: JSON text
      holds U+FFFD for every byte of them that is not part of a well-formed
      sequence, and [as_read] gives what a later read makes of the files.
    - The Slack client, the outcome of [ioutil.WriteFile], the order in
      which [range] walks a map and the clock are inputs of a handler
      invocation, gathered in [Env].
    - Handlers run in a small state monad over the files and the list of
      outbound calls, with an early exit carrying the response written by
      [responseSuccess] / [responseError], and a crash outcome for a Go
      panic.  Log lines are not modelled.
    - An invocation runs on its own: the interleaving of concurrent
      requests and of the background loop is outside this development.
      The pass that add-channel starts with [go] is recorded by the handler
      as a call; [command_and_started] runs it once the handler has done
      its last file operation. *)

From Stdlib Require Import ZArith Ascii.
From stdpp Require Import gmap strings list fin_maps sorting.

Local Open Scope Z_scope.
Local Open Scope string_scope.
Local Open Scope list_scope.
Local Open Scope stdpp_scope.

(** ** Data model (the structs of main.go) *)

Abbreviation GoMap V := (option (gmap string V)).

Module Member.
Record t := mk {
  MemberID : string;
  Name : string;
  Channels : GoMap string
}.
End Member.

Module Team.
Record t := mk { Members : list Member.t }.
End Team.

Module Teams.
Record t := mk { Teams : GoMap Team.t }.
End Teams.

Module User.
Record t := mk {
  MemberID : string;
  Name : string;
  UpdatedAt : Z;
  Channels : GoMap string
}.
End User.

Abbreviation Users := (GoMap User.t).

Module Channel.
Record t := mk { ID : string; Name : string }.
End Channel.

Abbreviation Channels := (GoMap Channel.t).

(** ** Go maps *)

Section go_map.
Context {V : Type}.

(** [make(map[string]V)] *)
Definition make_map : GoMap V := Some ∅.

(** [v, exists := m[k]]; a nil map has no entries. *)
Definition map_get (m : GoMap V) (k : string) : option V :=
  match m with
  | Some g => g !! k
  | None => None
  end.

(** [m[k] = v]; [None] is the panic of an assignment into a nil map. *)
Definition map_set (m : GoMap V) (k : string) (v : V) : option (GoMap V) :=
  match m with
  | Some g => Some (Some (<[k := v]> g))
  | None => None
  end.

(** [delete(m, k)]; a no-op on a nil map. *)
Definition map_delete (m : GoMap V) (k : string) : GoMap V :=
  match m with
  | Some g => Some (delete k g)
  | None => None
  end.

(** The entries of a map, in the canonical order of [gmap]. *)
Definition map_entries (m : GoMap V) : list (string * V) :=
  match m with
  | Some g => map_to_list g
  | None => []
  end.
End go_map.

(** ** Errors, files and the environment of an invocation *)

Inductive error :=
  | ErrNotExist
  | ErrOther (msg : string).

Definition os_IsNotExist (err : error) : bool :=
  match err with
  | ErrNotExist => true
  | ErrOther _ => false
  end.

(** [err.Error()], as printed by [%v]. *)
Definition Error_text (err : error) : string :=
  match err with
  | ErrNotExist => "no such file or directory"
  | ErrOther msg => msg
  end.

Inductive Content (T : Type) :=
  | Malformed (msg : string)
  | Json (v : T).
Arguments Malformed {T} msg.
Arguments Json {T} v.

Inductive File (T : Type) :=
  | NoFile
  | Unreadable (msg : string)
  | Bytes (data : Content T).
Arguments NoFile {T}.
Arguments Unreadable {T} msg.
Arguments Bytes {T} data.

Definition ioutil_ReadFile {T} (f : File T) : Content T + error :=
  match f with
  | NoFile => inr ErrNotExist
  | Unreadable msg => inr (ErrOther msg)
  | Bytes data => inl data
  end.

Definition json_Unmarshal {T} (data : Content T) : T + error :=
  match data with
  | Malformed msg => inr (ErrOther msg)
  | Json v => inl v
  end.

Inductive FileName := TeamsFile | UsersFile | ChannelsFile.

Record World := mkWorld {
  teams_json : File Teams.t;
  users_json : File Users;
  channels_json : File Channels
}.

(** Outcome of [ioutil.WriteFile], which opens with O_TRUNC: a failure
    leaves either the old bytes (the open failed) or a truncated file.  A
    success leaves the bytes [json.MarshalIndent] made of the value,
    [Json v]; [as_read] below gives what a later read makes of them. *)
Inductive WriteResult :=
  | WriteOK
  | WriteFailed (err : error) (truncated : bool).

Definition written {T} (r : WriteResult) (v : T) (old : File T) : File T :=
  match r with
  | WriteOK => Bytes (Json v)
  | WriteFailed _ true => Bytes (Malformed "unexpected end of JSON input")
  | WriteFailed _ false => old
  end.

Definition write_error (r : WriteResult) : option error :=
  match r with
  | WriteOK => None
  | WriteFailed err _ => Some err
  end.

(** The fields of [slack.User] the program reads: [Name],
    [Profile.DisplayName] and [IsBot]. *)
Module UserInfo.
Record t := mk {
  Name : string;
  Profile_DisplayName : string;
  IsBot : bool
}.
End UserInfo.

Record Env := mkEnv {
  GetUserInfo : string → UserInfo.t + error;
  GetUsersInConversation : string → list string + error;
  JoinConversation : string → option error;
  PostMessage : string → string → option error;
  WriteFile : FileName → WriteResult;
  (** the order in which [range] walks the channels and the teams map *)
  range_channels : gmap string Channel.t → list (string * Channel.t);
  range_teams : gmap string Team.t → list (string * Team.t);
  (** [time.Now()] at the n-th reading of the clock *)
  Now : nat → Z
}.

(** Outbound calls to the Slack client, and the goroutine started by
    add-channel. *)
Inductive Call :=
  | CallGetUserInfo (memberID : string)
  | CallGetUsersInConversation (channelID : string)
  | CallJoinConversation (channelID : string)
  | CallPostMessage (channelID text : string)
  | GoUpdateUserInfoForChannel (channelID : string).

Inductive Response :=
  | Success (message : string)
  | Error (message : string).

(** ** The handler monad *)

Record St := mkSt { world : World; calls : list Call }.

Inductive Res (R A : Type) :=
  | Val (a : A)
  | Exit (r : R)
  | Crash.
Arguments Val {R A} a.
Arguments Exit {R A} r.
Arguments Crash {R A}.

Definition M (R A : Type) : Type := St → Res R A * St.

Definition ret {R A} (a : A) : M R A := λ s, (Val a, s).

Definition bind {R A B} (k : A → M R B) (m : M R A) : M R B :=
  λ s, match m s with
       | (Val a, s') => k a s'
       | (Exit r, s') => (Exit r, s')
       | (Crash, s') => (Crash, s')
       end.

(** [x ← m; k] and [m;; k] are stdpp's notations for [bind]. *)
#[global] Instance M_ret {R} : MRet (M R) := λ A, @ret R A.
#[global] Instance M_bind {R} : MBind (M R) := λ A B, @bind R A B.

Definition exit {R A} (r : R) : M R A := λ s, (Exit r, s).
Definition panic {R A} : M R A := λ s, (Crash, s).

(** Run an operation that panics when it yields [None]. *)
Definition or_panic {R A} (o : option A) : M R A :=
  match o with
  | Some a => ret a
  | None => panic
  end.

Definition get_world {R} : M R World := λ s, (Val (world s), s).
Definition put_world {R} (w : World) : M R unit :=
  λ s, (Val tt, mkSt w (calls s)).
Definition call {R} (c : Call) : M R unit :=
  λ s, (Val tt, mkSt (world s) (calls s ++ [c])).

(** Run a handler on a world, with no call made yet. *)
Definition run {R A} (m : M R A) (w : World) : Res R A * St := m (mkSt w []).

(** [responseSuccess(w, message)] as the last statement, and
    [responseError(w, message); return]. *)
Definition responseSuccess {A} (message : string) : M Response A :=
  exit (Success message).
Definition responseError {A} (message : string) : M Response A :=
  exit (Error message).

(** ** The store: readX / writeX *)

Definition readTeams {R} : M R (Teams.t + error) :=
  w ← get_world;
  match ioutil_ReadFile (teams_json w) with
  | inr err =>
      if os_IsNotExist err then mret (inl (Teams.mk make_map))
      else mret (inr err)
  | inl data => mret (json_Unmarshal data)
  end.

(** [json.MarshalIndent] cannot fail on these types; the error returned is
    that of [ioutil.WriteFile]. *)
Definition writeTeams {R} (env : Env) (teams : Teams.t) : M R (option error) :=
  w ← get_world;
  let r := WriteFile env TeamsFile in
  put_world (mkWorld (written r teams (teams_json w)) (users_json w)
               (channels_json w));;
  mret (write_error r).

Definition readUsers {R} : M R (Users + error) :=
  w ← get_world;
  match ioutil_ReadFile (users_json w) with
  | inr err =>
      if os_IsNotExist err then mret (inl make_map)
      else mret (inr err)
  | inl data => mret (json_Unmarshal data)
  end.

Definition writeUsers {R} (env : Env) (users : Users) : M R (option error) :=
  w ← get_world;
  let r := WriteFile env UsersFile in
  put_world (mkWorld (teams_json w) (written r users (users_json w))
               (channels_json w));;
  mret (write_error r).

Definition readChannels {R} : M R (Channels + error) :=
  w ← get_world;
  match ioutil_ReadFile (channels_json w) with
  | inr err =>
      if os_IsNotExist err then mret (inl make_map)
      else mret (inr err)
  | inl data => mret (json_Unmarshal data)
  end.

Definition writeChannels {R} (env : Env) (channels : Channels)
  : M R (option error) :=
  w ← get_world;
  let r := WriteFile env ChannelsFile in
  put_world (mkWorld (teams_json w) (users_json w)
               (written r channels (channels_json w)));;
  mret (write_error r).

(** ** JSON text

    [json.MarshalIndent] writes a Go string as JSON text, which is UTF-8:
    a byte that is not part of a well-formed UTF-8 sequence is written as
    U+FFFD, and [json.Unmarshal] gives the text back.  The keys of a map
    are written in byte order, each as such a string, and an object read
    with a key twice keeps the later entry.

    So the value read is not always the value written: [json_Teams],
    [json_Users] and [json_Channels] give the one from the other, and
    [as_read] what the next invocation finds in the files.  A value is
    read as it was written when all its strings are valid UTF-8
    ([json_string s = s]); a store that was read from its files is one
    with [as_read w = w]. *)

Definition between (lo hi : N) (c : Ascii.ascii) : bool :=
  ((lo <=? Ascii.N_of_ascii c) && (Ascii.N_of_ascii c <=? hi))%N.

(** [utf8.DecodeRuneInString] on the head of [s]: the number of bytes of the
    well-formed sequence that starts there, and 0 when none does (the
    [RuneError] of width 1). *)
Definition rune_width (s : string) : nat :=
  match s with
  | EmptyString => 0%nat
  | String c0 rest =>
      let b0 := Ascii.N_of_ascii c0 in
      if (b0 <? 128)%N then 1%nat
      else if (b0 <? 194)%N then 0%nat
      else if (b0 <? 224)%N then
        match rest with
        | String c1 _ => if between 128 191 c1 then 2%nat else 0%nat
        | _ => 0%nat
        end
      else if (b0 <? 240)%N then
        match rest with
        | String c1 (String c2 _) =>
            if between (if (b0 =? 224)%N then 160 else 128)
                 (if (b0 =? 237)%N then 159 else 191) c1
               && between 128 191 c2
            then 3%nat else 0%nat
        | _ => 0%nat
        end
      else if (b0 <? 245)%N then
        match rest with
        | String c1 (String c2 (String c3 _)) =>
            if between (if (b0 =? 240)%N then 144 else 128)
                 (if (b0 =? 244)%N then 143 else 191) c1
               && between 128 191 c2 && between 128 191 c3
            then 4%nat else 0%nat
        | _ => 0%nat
        end
      else 0%nat
  end.

(** U+FFFD, the replacement character, in UTF-8. *)
Definition replacement : string :=
  String "239"%char (String "191"%char (String "189"%char "")).

(** The string as JSON text holds it; [pending] bytes of the sequence under
    way are still to be copied. *)
Fixpoint json_string_from (pending : nat) (s : string) : string :=
  match s with
  | EmptyString => EmptyString
  | String c rest =>
      match pending with
      | S n => String c (json_string_from n rest)
      | O =>
          match rune_width (String c rest) with
          | O => replacement +:+ json_string_from 0 rest
          | S n => String c (json_string_from n rest)
          end
      end
  end.

Definition json_string (s : string) : string := json_string_from 0 s.

(** Map entries by key, in byte order. *)
Definition key_le {V} (e1 e2 : string * V) : Prop :=
  String.leb e1.1 e2.1 = true.

#[global] Instance key_le_dec {V} (e1 e2 : string * V) :
  Decision (key_le e1 e2).
Proof. unfold key_le. apply _. Defined.

Definition json_entry {V} (f : V → V) (e : string * V) : string * V :=
  (json_string e.1, f e.2).

(** A map written and read back: the entries are written in the byte order
    of their keys and stored in that order when read. *)
Definition json_map {V} (f : V → V) (g : gmap string V) : gmap string V :=
  foldl (λ acc e, <[(json_entry f e).1 := (json_entry f e).2]> acc) ∅
    (merge_sort key_le (map_to_list g)).

Definition json_gomap {V} (f : V → V) (m : GoMap V) : GoMap V :=
  match m with
  | Some g => Some (json_map f g)
  | None => None
  end.

Definition json_Member (member : Member.t) : Member.t :=
  Member.mk (json_string (Member.MemberID member))
    (json_string (Member.Name member))
    (json_gomap json_string (Member.Channels member)).

Definition json_Team (team : Team.t) : Team.t :=
  Team.mk (json_Member <$> Team.Members team).

Definition json_Teams (teams : Teams.t) : Teams.t :=
  Teams.mk (json_gomap json_Team (Teams.Teams teams)).

Definition json_User (user : User.t) : User.t :=
  User.mk (json_string (User.MemberID user)) (json_string (User.Name user))
    (User.UpdatedAt user) (json_gomap json_string (User.Channels user)).

Definition json_Users (users : Users) : Users := json_gomap json_User users.

Definition json_Channel (channel : Channel.t) : Channel.t :=
  Channel.mk (json_string (Channel.ID channel))
    (json_string (Channel.Name channel)).

Definition json_Channels (channels : Channels) : Channels :=
  json_gomap json_Channel channels.

Definition json_file {T} (f : T → T) (file : File T) : File T :=
  match file with
  | Bytes (Json v) => Bytes (Json (f v))
  | _ => file
  end.

(** The files as the next invocation reads them. *)
Definition as_read (w : World) : World :=
  mkWorld (json_file json_Teams (teams_json w))
    (json_file json_Users (users_json w))
    (json_file json_Channels (channels_json w)).

(** ** Helpers shared by the handlers *)

(** [strings.Join(elems, sep)] *)
Definition strings_Join (elems : list string) (sep : string) : string :=
  String.concat sep elems.

(** [for k, v := range m] in the order the environment picks. *)
Definition range_over {V} (order : gmap string V → list (string * V))
    (m : GoMap V) : list (string * V) :=
  match m with
  | Some g => order g
  | None => []
  end.

(** [teams.Teams[team] = t] *)
Definition teams_set (teams : Teams.t) (team : string) (t : Team.t)
  : option Teams.t :=
  Teams.mk <$> map_set (Teams.Teams teams) team t.

(** [displayName := userInfo.Profile.DisplayName], falling back on
    [userInfo.Name] when empty. *)
Definition displayNameOf (userInfo : UserInfo.t) : string :=
  if decide (UserInfo.Profile_DisplayName userInfo = "")
  then UserInfo.Name userInfo
  else UserInfo.Profile_DisplayName userInfo.

(** Index and element of the first member with the given id. *)
Definition find_member (memberID : string) (members : list Member.t)
  : option (nat * Member.t) :=
  list_find (λ member, Member.MemberID member = memberID) members.

(** The scan of handlePing and handleRemoveChannel:
    [for id, channel := range channels] stopping at the first entry whose
    name is [channelName]; the empty id stands for "not found". *)
Fixpoint find_channel (channelName : string)
    (entries : list (string * Channel.t)) : string :=
  match entries with
  | [] => ""
  | (id, channel) :: rest =>
      if decide (Channel.Name channel = channelName) then id
      else find_channel channelName rest
  end.

Definition resolveChannel (env : Env) (channels : Channels)
    (channelName : string) : string :=
  find_channel channelName (range_over (range_channels env) channels).

(** ** Command handlers *)

Definition helpText : string :=
"Available commands:
- /connect create-team <team>
- /connect remove-team <team>
- /connect add <team> <member_id>
- /connect remove <team> <member_id>
- /connect print teams
- /connect print channels
- /connect print members <team>
- /connect invite <team>
- /connect ping <team> <channel>
- /connect add-channel
- /connect remove-channel <channel>
- /connect help or /connect -h (shows this help message)".

Definition showHelp : M Response unit := responseSuccess helpText.

Definition handleCreateTeam (env : Env) (args : list string)
  : M Response unit :=
  match args with
  | [] => responseError "Please provide a team name to create."
  | team :: _ =>
      r ← readTeams;
      match r with
      | inr _ => responseError "Error reading teams."
      | inl teams =>
          match map_get (Teams.Teams teams) team with
          | Some _ => responseError ("Team '" +:+ team +:+ "' already exists.")
          | None =>
              teams ← or_panic (teams_set teams team (Team.mk []));
              err ← writeTeams env teams;
              match err with
              | Some _ => responseError "Error writing to teams."
              | None =>
                  responseSuccess ("Team '" +:+ team +:+ "' has been created.")
              end
          end
      end
  end.

Definition handleRemoveTeam (env : Env) (args : list string)
  : M Response unit :=
  match args with
  | [] => responseError "Please provide a team name to remove."
  | team :: _ =>
      r ← readTeams;
      match r with
      | inr _ => responseError "Error reading teams."
      | inl teams =>
          match map_get (Teams.Teams teams) team with
          | None => responseError ("Team '" +:+ team +:+ "' does not exist.")
          | Some _ =>
              let teams := Teams.mk (map_delete (Teams.Teams teams) team) in
              err ← writeTeams env teams;
              match err with
              | Some _ => responseError "Error writing to teams."
              | None =>
                  responseSuccess ("Team '" +:+ team +:+ "' has been removed.")
              end
          end
      end
  end.

Definition handleAdd (env : Env) (args : list string) : M Response unit :=
  match args with
  | team :: memberID :: _ =>
      r ← readTeams;
      match r with
      | inr _ => responseError "Error reading teams."
      | inl teams =>
          match map_get (Teams.Teams teams) team with
          | None => responseError ("Team '" +:+ team +:+ "' does not exist.")
          | Some t =>
              match find_member memberID (Team.Members t) with
              | Some _ =>
                  responseError ("User " +:+ memberID +:+ " is already in team '"
                                 +:+ team +:+ "'.")
              | None =>
                  call (CallGetUserInfo memberID);;
                  match GetUserInfo env memberID with
                  | inr err =>
                      responseError ("Error getting user info: "
                                     +:+ Error_text err)
                  | inl userInfo =>
                      let displayName := displayNameOf userInfo in
                      let newMember :=
                        Member.mk memberID displayName make_map in
                      let updatedTeam :=
                        Team.mk (Team.Members t ++ [newMember]) in
                      teams ← or_panic (teams_set teams team updatedTeam);
                      err ← writeTeams env teams;
                      match err with
                      | Some _ => responseError "Error writing to teams."
                      | None =>
                          r ← readUsers;
                          match r with
                          | inr _ => mret tt
                          | inl users =>
                              users ← or_panic
                                (map_set users memberID
                                   (User.mk memberID displayName (Now env 0)
                                      make_map));
                              _ ← writeUsers env users;
                              mret tt
                          end;;
                          responseSuccess
                            ("Added user " +:+ displayName +:+ " (" +:+ memberID
                             +:+ ") to team '" +:+ team +:+ "'.")
                      end
                  end
              end
          end
      end
  | _ => responseError "Please provide a team name and a member ID to add."
  end.

Definition handleRemove (env : Env) (args : list string) : M Response unit :=
  match args with
  | team :: memberID :: _ =>
      r ← readTeams;
      match r with
      | inr _ => responseError "Error reading teams."
      | inl teams =>
          match map_get (Teams.Teams teams) team with
          | None => responseError ("Team '" +:+ team +:+ "' does not exist.")
          | Some t =>
              match find_member memberID (Team.Members t) with
              | None =>
                  responseError ("User " +:+ memberID +:+ " is not in team '"
                                 +:+ team +:+ "'.")
              | Some (i, _) =>
                  let updatedTeam :=
                    Team.mk (take i (Team.Members t)
                             ++ drop (S i) (Team.Members t)) in
                  teams ← or_panic (teams_set teams team updatedTeam);
                  err ← writeTeams env teams;
                  match err with
                  | Some _ => responseError "Error writing to teams."
                  | None =>
                      responseSuccess ("Removed user " +:+ memberID
                                       +:+ " from team '" +:+ team +:+ "'.")
                  end
              end
          end
      end
  | _ => responseError "Please provide a team name and a member ID to remove."
  end.

Definition printTeams (env : Env) : M Response unit :=
  r ← readTeams;
  match r with
  | inr _ => responseError "Error reading teams."
  | inl teams =>
      let teamNames := (range_over (range_teams env) (Teams.Teams teams)).*1 in
      match teamNames with
      | [] => responseSuccess "No teams found."
      | _ => responseSuccess ("Teams: " +:+ strings_Join teamNames ", ")
      end
  end.

Definition printChannels (env : Env) : M Response unit :=
  r ← readChannels;
  match r with
  | inr _ => responseError "Error reading channels."
  | inl channels =>
      let channelNames :=
        (λ e, Channel.Name e.2) <$> range_over (range_channels env) channels in
      match channelNames with
      | [] => responseSuccess "No channels found."
      | _ => responseSuccess ("Channels: " +:+ strings_Join channelNames ", ")
      end
  end.

(** One entry of the listing of print members. *)
Definition memberEntry (member : Member.t) : string :=
  if decide (Member.Name member ≠ "") then
    Member.Name member +:+ " (" +:+ Member.MemberID member +:+ ")"
  else Member.MemberID member.

Definition printMembers (team : string) : M Response unit :=
  r ← readTeams;
  match r with
  | inr _ => responseError "Error reading teams."
  | inl teams =>
      match map_get (Teams.Teams teams) team with
      | None => responseError ("Team '" +:+ team +:+ "' does not exist.")
      | Some t =>
          let members := memberEntry <$> Team.Members t in
          match members with
          | [] =>
              responseSuccess ("No members found in team '" +:+ team +:+ "'.")
          | _ =>
              responseSuccess ("Members of team '" +:+ team +:+ "': "
                               +:+ strings_Join members ", ")
          end
      end
  end.

Definition handlePrint (env : Env) (args : list string) : M Response unit :=
  match args with
  | [] =>
      responseError
        "Please specify what to print: teams, channels, or members <team>."
  | option :: rest =>
      if decide (option = "teams") then printTeams env
      else if decide (option = "channels") then printChannels env
      else if decide (option = "members") then
        match rest with
        | [] => responseError "Please provide a team name to print members."
        | team :: _ => printMembers team
        end
      else
        responseError
          "Invalid print option. Use 'teams', 'channels', or 'members <team>'."
  end.

Definition handleInvite (args : list string) : M Response unit :=
  match args with
  | [] => responseError "Please provide a team name for invitation."
  | team :: _ =>
      r ← readTeams;
      match r with
      | inr _ => responseError "Error reading teams."
      | inl teams =>
          match map_get (Teams.Teams teams) team with
          | None => responseError ("Team '" +:+ team +:+ "' does not exist.")
          | Some t =>
              let memberIDs := Member.MemberID <$> Team.Members t in
              responseSuccess ("To invite team '" +:+ team
                               +:+ "', use these member IDs: "
                               +:+ strings_Join memberIDs ", ")
          end
      end
  end.

(** The mention list of handlePing: one token per member with a non-empty
    id. *)
Definition mentionsOf (members : list Member.t) : list string :=
  (λ member, "<@" +:+ Member.MemberID member +:+ ">")
    <$> filter (λ member, Member.MemberID member ≠ "") members.

Definition handlePing (env : Env) (args : list string) : M Response unit :=
  match args with
  | team :: channelName :: _ =>
      r ← readTeams;
      match r with
      | inr _ => responseError "Error reading teams."
      | inl teams =>
          match map_get (Teams.Teams teams) team with
          | None => responseError ("Team '" +:+ team +:+ "' does not exist.")
          | Some t =>
              r ← readChannels;
              match r with
              | inr _ => responseError "Error reading channels."
              | inl channels =>
                  let channelID := resolveChannel env channels channelName in
                  if decide (channelID = "") then
                    responseError ("Channel '" +:+ channelName
                                   +:+ "' not found.")
                  else
                    let mentions := mentionsOf (Team.Members t) in
                    match mentions with
                    | [] =>
                        responseError ("No members of team '" +:+ team
                                       +:+ "' found.")
                    | _ =>
                        let text := strings_Join mentions " " in
                        call (CallPostMessage channelID text);;
                        match PostMessage env channelID text with
                        | Some err =>
                            responseError ("Error pinging team: "
                                           +:+ Error_text err)
                        | None =>
                            responseSuccess
                              ("Successfully pinged team '" +:+ team
                               +:+ "' in #" +:+ channelName +:+ ".")
                        end
                    end
              end
          end
      end
  | _ => responseError "Please provide a team name and a channel name to ping."
  end.

Definition notInChannelText : string :=
  "You need to run the command inside the channel you want to add. If you are trying to add a private channel please run /invite @connect-management.".

Definition handleAddChannel (env : Env) (args : list string)
    (channelID channelName : string) : M Response unit :=
  if decide (channelID = "" ∨ channelName = "") then
    responseError notInChannelText
  else
    r ← readChannels;
    match r with
    | inr _ => responseError notInChannelText
    | inl channels =>
        match map_get channels channelID with
        | Some _ =>
            responseError ("Channel #" +:+ channelName
                           +:+ " is already being tracked.")
        | None =>
            call (CallJoinConversation channelID);;
            match JoinConversation env channelID with
            | Some _ => responseError notInChannelText
            | None =>
                channels ← or_panic
                  (map_set channels channelID
                     (Channel.mk channelID channelName));
                err ← writeChannels env channels;
                match err with
                | Some _ => responseError "Error writing to channels file."
                | None =>
                    call (GoUpdateUserInfoForChannel channelID);;
                    responseSuccess ("Channel #" +:+ channelName
                                     +:+ " has been added to the tracking list.")
                end
            end
        end
    end.

Definition handleRemoveChannel (env : Env) (args : list string)
  : M Response unit :=
  match args with
  | [] => responseError "Please provide a channel name to remove."
  | channelName :: _ =>
      r ← readChannels;
      match r with
      | inr _ => responseError "Error reading channels."
      | inl channels =>
          let channelID := resolveChannel env channels channelName in
          if decide (channelID = "") then
            responseError ("Channel #" +:+ channelName
                           +:+ " is not being tracked.")
          else
            let channels := map_delete channels channelID in
            err ← writeChannels env channels;
            match err with
            | Some _ => responseError "Error writing to channels file."
            | None =>
                responseSuccess ("Channel #" +:+ channelName
                                 +:+ " has been removed from the tracking list.")
            end
      end
  end.

(** The router of handleSlackCommand, from [args := strings.Fields(s.Text)]
    on; [channelID] and [channelName] are those of the slash command. *)
Definition handleSlackCommand (env : Env) (args : list string)
    (channelID channelName : string) : M Response unit :=
  match args with
  | [] => showHelp
  | action :: rest =>
      if decide (action = "help" ∨ action = "-h") then showHelp
      else if decide (action = "create-team") then handleCreateTeam env rest
      else if decide (action = "remove-team") then handleRemoveTeam env rest
      else if decide (action = "add") then handleAdd env rest
      else if decide (action = "remove") then handleRemove env rest
      else if decide (action = "print") then handlePrint env rest
      else if decide (action = "invite") then handleInvite rest
      else if decide (action = "ping") then handlePing env rest
      else if decide (action = "add-channel") then
        handleAddChannel env rest channelID channelName
      else if decide (action = "remove-channel") then
        handleRemoveChannel env rest
      else showHelp
  end.

(** ** The refresh of user information *)

(** The Users part of one iteration of the member loop: create or rename
    the entry, stamp it, record the channel.  [None] is a panic: a stored
    entry whose [channels] is null, or a null Users map. *)
Definition refreshUser (channelID memberID displayName : string) (now : Z)
    (users : Users) : option Users :=
  let user :=
    match map_get users memberID with
    | None => User.mk memberID displayName 0 make_map
    | Some user =>
        User.mk (User.MemberID user) displayName (User.UpdatedAt user)
          (User.Channels user)
    end in
  channels ← map_set (User.Channels user) channelID memberID;
  map_set users memberID
    (User.mk (User.MemberID user) (User.Name user) now channels).

(** The body of the inner loop over [team.Members]. *)
Definition refreshMember (channelID memberID displayName : string)
    (member : Member.t) : Member.t :=
  if decide (Member.MemberID member = memberID) then
    Member.mk (Member.MemberID member) displayName
      (Some (<[channelID := memberID]> (default ∅ (Member.Channels member))))
  else member.

Definition refreshTeam (channelID memberID displayName : string)
    (team : Team.t) : Team.t :=
  Team.mk (refreshMember channelID memberID displayName <$> Team.Members team).

(** The loop over [teams.Teams]: every team is rewritten on its own, through
    its slice, so the order of the walk does not matter (see
    [refreshTeams_any_walk]) and a null map is walked zero times. *)
Definition refreshTeams (channelID memberID displayName : string)
    (teams : Teams.t) : Teams.t :=
  Teams.mk
    match Teams.Teams teams with
    | Some g => Some (refreshTeam channelID memberID displayName <$> g)
    | None => None
    end.

(** The loop over the members of the channel; [i] counts the iterations. *)
Fixpoint refreshMembers (env : Env) (channelID : string)
    (members : list string) (i : nat) (users : Users) (teams : Teams.t)
  : M error (Users * Teams.t) :=
  match members with
  | [] => mret (users, teams)
  | memberID :: rest =>
      call (CallGetUserInfo memberID);;
      match GetUserInfo env memberID with
      | inr _ => refreshMembers env channelID rest (S i) users teams
      | inl userInfo =>
          if UserInfo.IsBot userInfo then
            refreshMembers env channelID rest (S i) users teams
          else
            let displayName := displayNameOf userInfo in
            users ← or_panic
              (refreshUser channelID memberID displayName (Now env i) users);
            refreshMembers env channelID rest (S i) users
              (refreshTeams channelID memberID displayName teams)
      end
  end.

(** An early [return] exits with the error that was logged; reaching the
    end yields [Val tt], whatever the two writes returned. *)
Definition updateUserInfoForChannel (env : Env) (channelID : string)
  : M error unit :=
  r ← readUsers;
  match r with
  | inr err => exit err
  | inl users =>
      r ← readTeams;
      match r with
      | inr err => exit err
      | inl teams =>
          call (CallGetUsersInConversation channelID);;
          match GetUsersInConversation env channelID with
          | inr err => exit err
          | inl members =>
              st ← refreshMembers env channelID members 0 users teams;
              _ ← writeUsers env st.1;
              _ ← writeTeams env st.2;
              mret tt
          end
      end
  end.

(** A call of a function that may return early: the caller goes on after
    the return, a panic goes up. *)
Definition returned {R R'} (m : M R unit) : M R' unit :=
  λ s, match m s with
       | (Val _, s') => (Val tt, s')
       | (Exit _, s') => (Val tt, s')
       | (Crash, s') => (Crash, s')
       end.

(** [for channelID := range channels { updateUserInfoForChannel(channelID) }]
    over the ids in the order of the walk; [passEnv channelID] is the
    environment during the pass over [channelID]. *)
Fixpoint updateChannels (passEnv : string → Env) (channelIDs : list string)
  : M error unit :=
  match channelIDs with
  | [] => mret tt
  | channelID :: rest =>
      returned (updateUserInfoForChannel (passEnv channelID) channelID);;
      updateChannels passEnv rest
  end.

(** The passes a run has started with [go], in the order of their start. *)
Definition started (cs : list Call) : list string :=
  omap (λ c, match c with
             | GoUpdateUserInfoForChannel channelID => Some channelID
             | _ => None
             end) cs.

(** A command together with the pass it starts.  [go] comes after the last
    file operation of the handler, which has only its answer left to write:
    the pass runs on the files the handler leaves, in the environment
    [passEnv] gives it, and a panic in it ends the process. *)
Definition command_and_started (env : Env) (passEnv : string → Env)
    (args : list string) (channelID channelName : string) (w : World)
  : Res Response unit * St :=
  let r := run (handleSlackCommand env args channelID channelName) w in
  match updateChannels passEnv (started (calls r.2)) r.2 with
  | (Crash, s) => (Crash, s)
  | (_, s) => (r.1, s)
  end.

(** * Properties *)

(** ** Running handlers *)

Ltac unfold_m :=
  unfold run, mbind, M_bind, bind, mret, M_ret, ret, exit, panic, or_panic,
    get_world, put_world, call, responseError, responseSuccess in *.

Ltac run_m := repeat (progress (unfold_m; cbn in *)).

(** What a read returns, as a function of the file. *)
Definition load {T} (empty : T) (file : File T) : T + error :=
  match file with
  | NoFile => inl empty
  | Unreadable msg => inr (ErrOther msg)
  | Bytes (Malformed msg) => inr (ErrOther msg)
  | Bytes (Json v) => inl v
  end.

Lemma readTeams_load R (s : St) :
  @readTeams R s = (Val (load (Teams.mk make_map) (teams_json (world s))), s).
Proof.
  unfold readTeams. run_m.
  by destruct (teams_json (world s)) as [| |[]].
Qed.

Lemma readUsers_load R (s : St) :
  @readUsers R s = (Val (load make_map (users_json (world s))), s).
Proof.
  unfold readUsers. run_m.
  by destruct (users_json (world s)) as [| |[]].
Qed.

Lemma readChannels_load R (s : St) :
  @readChannels R s = (Val (load make_map (channels_json (world s))), s).
Proof.
  unfold readChannels. run_m.
  by destruct (channels_json (world s)) as [| |[]].
Qed.

(** ** The store *)

(** The contract of a read against its file: an absent file yields the
    empty value, and an error is returned exactly for a file that is there
    but cannot be read or parsed. *)
Definition load_contract {T} (empty : T) (file : File T) (r : T + error)
  : Prop :=
  (file = NoFile → r = inl empty)
  ∧ (∀ v, file = Bytes (Json v) → r = inl v)
  ∧ (∀ err, r = inr err ↔
       ∃ msg, err = ErrOther msg
              ∧ (file = Unreadable msg ∨ file = Bytes (Malformed msg))).

Lemma load_meets_contract {T} (empty : T) (file : File T) :
  load_contract empty file (load empty file).
Proof.
  unfold load_contract. destruct file as [|msg|[msg|v]]; cbn.
  all: split_and!; try done; try (intros; simplify_eq; done).
  all: intros err; split; [intros ?; simplify_eq; eauto|].
  all: intros (msg' & -> & [?|?]); simplify_eq; done.
Qed.

(** C7. For each of the three collections the read returns, without error
    and without touching the files, the empty allocated mapping when the
    file is absent; it returns an error only when the file is there but
    cannot be read or its contents do not parse. *)
Theorem read_contract (R : Type) (s : St) :
  (∃ r, @readTeams R s = (Val r, s)
        ∧ load_contract (Teams.mk (Some ∅)) (teams_json (world s)) r)
  ∧ (∃ r, @readUsers R s = (Val r, s)
          ∧ load_contract (Some ∅) (users_json (world s)) r)
  ∧ (∃ r, @readChannels R s = (Val r, s)
          ∧ load_contract (Some ∅) (channels_json (world s)) r).
Proof.
  rewrite readTeams_load, readUsers_load, readChannels_load.
  split_and!; eexists; (split; [reflexivity|apply load_meets_contract]).
Qed.

Lemma writeTeams_run R env teams (s : St) :
  @writeTeams R env teams s =
  (Val (write_error (WriteFile env TeamsFile)),
   mkSt (mkWorld (written (WriteFile env TeamsFile) teams
                    (teams_json (world s)))
           (users_json (world s)) (channels_json (world s)))
     (calls s)).
Proof. reflexivity. Qed.

Lemma writeUsers_run R env users (s : St) :
  @writeUsers R env users s =
  (Val (write_error (WriteFile env UsersFile)),
   mkSt (mkWorld (teams_json (world s))
           (written (WriteFile env UsersFile) users (users_json (world s)))
           (channels_json (world s)))
     (calls s)).
Proof. reflexivity. Qed.

Lemma writeChannels_run R env channels (s : St) :
  @writeChannels R env channels s =
  (Val (write_error (WriteFile env ChannelsFile)),
   mkSt (mkWorld (teams_json (world s)) (users_json (world s))
           (written (WriteFile env ChannelsFile) channels
              (channels_json (world s))))
     (calls s)).
Proof. reflexivity. Qed.

#[local] Arguments readTeams : simpl never.
#[local] Arguments readUsers : simpl never.
#[local] Arguments readChannels : simpl never.
#[local] Arguments writeTeams : simpl never.
#[local] Arguments writeUsers : simpl never.
#[local] Arguments writeChannels : simpl never.
#[local] Arguments find_member : simpl never.
#[local] Arguments resolveChannel : simpl never.
#[local] Arguments displayNameOf : simpl never.
#[local] Arguments strings_Join : simpl never.

(** One step of a run: unfold the monad, replace reads and writes by what
    they return. *)
Ltac run_io :=
  repeat (progress
    (unfold_m; cbn in *;
     rewrite ?readTeams_load, ?readUsers_load, ?readChannels_load,
       ?writeTeams_run, ?writeUsers_run, ?writeChannels_run in * )).

(** ** JSON text: what is read back *)

Lemma rune_width_cases (s : string) :
  rune_width s = 0%nat
  ∨ (∃ c0 t, s = String c0 t ∧ ∀ t', rune_width (String c0 t') = 1%nat)
  ∨ (∃ c0 c1 t, s = String c0 (String c1 t)
       ∧ ∀ t', rune_width (String c0 (String c1 t')) = 2%nat)
  ∨ (∃ c0 c1 c2 t, s = String c0 (String c1 (String c2 t))
       ∧ ∀ t', rune_width (String c0 (String c1 (String c2 t'))) = 3%nat)
  ∨ (∃ c0 c1 c2 c3 t, s = String c0 (String c1 (String c2 (String c3 t)))
       ∧ ∀ t',
           rune_width (String c0 (String c1 (String c2 (String c3 t'))))
           = 4%nat).
Proof.
  destruct s as [|c0 s]; [by left|].
  destruct (Ascii.N_of_ascii c0 <? 128)%N eqn:H1.
  { right. left. eexists _, _. split; [done|]. intros t'.
    unfold rune_width. cbv zeta. by rewrite H1. }
  destruct (Ascii.N_of_ascii c0 <? 194)%N eqn:H2.
  { left. unfold rune_width. cbv zeta. by rewrite H1, H2. }
  destruct (Ascii.N_of_ascii c0 <? 224)%N eqn:H3.
  { destruct s as [|c1 s].
    { left. unfold rune_width. cbv zeta. by rewrite H1, H2, H3. }
    destruct (between 128 191 c1) eqn:B1.
    - right. right. left. eexists _, _, _. split; [done|]. intros t'.
      unfold rune_width. cbv zeta. by rewrite H1, H2, H3, B1.
    - left. unfold rune_width. cbv zeta. by rewrite H1, H2, H3, B1. }
  destruct (Ascii.N_of_ascii c0 <? 240)%N eqn:H4.
  { destruct s as [|c1 [|c2 s]];
      [left; unfold rune_width; cbv zeta; by rewrite H1, H2, H3, H4..|].
    destruct (between (if (Ascii.N_of_ascii c0 =? 224)%N then 160 else 128)
                (if (Ascii.N_of_ascii c0 =? 237)%N then 159 else 191) c1
              && between 128 191 c2) eqn:B.
    - do 3 right. left. eexists _, _, _, _. split; [done|]. intros t'.
      unfold rune_width. cbv zeta. by rewrite H1, H2, H3, H4, B.
    - left. unfold rune_width. cbv zeta. by rewrite H1, H2, H3, H4, B. }
  destruct (Ascii.N_of_ascii c0 <? 245)%N eqn:H5.
  2:{ left. unfold rune_width. cbv zeta. by rewrite H1, H2, H3, H4, H5. }
  destruct s as [|c1 [|c2 [|c3 s]]];
    [left; unfold rune_width; cbv zeta; by rewrite H1, H2, H3, H4, H5..|].
  destruct (between (if (Ascii.N_of_ascii c0 =? 240)%N then 144 else 128)
              (if (Ascii.N_of_ascii c0 =? 244)%N then 143 else 191) c1
            && between 128 191 c2 && between 128 191 c3) eqn:B.
  - do 4 right. eexists _, _, _, _, _. split; [done|]. intros t'.
    unfold rune_width. cbv zeta. by rewrite H1, H2, H3, H4, H5, B.
  - left. unfold rune_width. cbv zeta. by rewrite H1, H2, H3, H4, H5, B.
Qed.

Lemma json_string_from_idem (n : nat) (s : string) :
  (String.length s ≤ n)%nat →
  json_string_from 0 (json_string_from 0 s) = json_string_from 0 s.
Proof.
  revert s. induction n as [|n IH]; intros s Hlen.
  { destruct s; [done|cbn in Hlen; lia]. }
  destruct (rune_width_cases s)
    as [H0|[(c0 & t & -> & H1)|[(c0 & c1 & t & -> & H2)
       |[(c0 & c1 & c2 & t & -> & H3)|(c0 & c1 & c2 & c3 & t & -> & H4)]]]].
  - destruct s as [|c0 t]; [done|]. cbn [json_string_from]. rewrite H0.
    change (json_string_from 0 (replacement +:+ json_string_from 0 t))
      with (replacement +:+ json_string_from 0 (json_string_from 0 t)).
    f_equal. apply IH. cbn in Hlen. lia.
  - cbn [json_string_from]. rewrite !H1. cbn [json_string_from]. rewrite H1.
    f_equal. apply IH. cbn in Hlen. lia.
  - cbn [json_string_from]. rewrite !H2. cbn [json_string_from]. rewrite H2.
    do 2 f_equal. apply IH. cbn in Hlen. lia.
  - cbn [json_string_from]. rewrite !H3. cbn [json_string_from]. rewrite H3.
    do 3 f_equal. apply IH. cbn in Hlen. lia.
  - cbn [json_string_from]. rewrite !H4. cbn [json_string_from]. rewrite H4.
    do 4 f_equal. apply IH. cbn in Hlen. lia.
Qed.

(** What JSON text holds, it holds as it is. *)
Lemma json_string_idem (s : string) :
  json_string (json_string s) = json_string s.
Proof. by apply (json_string_from_idem (String.length s)). Qed.

Lemma foldl_insert_list_to_map {V} (l : list (string * V))
    (acc : gmap string V) :
  foldl (λ acc e, <[e.1 := e.2]> acc) acc l = list_to_map (reverse l) ∪ acc.
Proof.
  revert acc. induction l as [|[k v] l IH]; intros acc; cbn [foldl].
  - rewrite reverse_nil. cbn. by rewrite (left_id_L ∅ (∪)).
  - rewrite IH, reverse_cons, list_to_map_app. cbn.
    rewrite insert_empty, <- (assoc_L (∪)).
    by rewrite <- insert_union_singleton_l.
Qed.

Lemma json_map_list {V} (f : V → V) (g : gmap string V) :
  json_map f g
  = list_to_map (reverse (json_entry f <$> merge_sort key_le (map_to_list g))).
Proof.
  unfold json_map.
  rewrite <- (right_id_L ∅ (∪) (list_to_map _)).
  rewrite <- foldl_insert_list_to_map.
  generalize (merge_sort key_le (map_to_list g)) (∅ : gmap string V).
  induction l as [|e l IH]; intros acc; cbn; [done|]. apply IH.
Qed.

(** Every entry read back is the image of an entry written. *)
Lemma json_map_lookup {V} (f : V → V) (g : gmap string V) (k : string)
    (v' : V) :
  json_map f g !! k = Some v' →
  ∃ k0 v, g !! k0 = Some v ∧ k = json_string k0 ∧ v' = f v.
Proof.
  rewrite json_map_list. intros Hin%elem_of_list_to_map_2.
  apply elem_of_reverse, list_elem_of_fmap in Hin as ([k0 v] & Heq & Hin).
  rewrite merge_sort_Permutation in Hin. apply elem_of_map_to_list in Hin.
  injection Heq as -> ->. by exists k0, v.
Qed.

(** When JSON keeps every key, every entry is read back under its key. *)
Lemma json_map_keys_kept {V} (f : V → V) (g : gmap string V) :
  (∀ k v, g !! k = Some v → json_string k = k) →
  json_map f g = f <$> g.
Proof.
  intros Hkeys. rewrite json_map_list.
  rewrite <- (list_to_map_to_list g) at 2. rewrite <- list_to_map_fmap.
  assert (json_entry f <$> merge_sort key_le (map_to_list g)
          = prod_map id f <$> merge_sort key_le (map_to_list g)) as ->.
  { apply list_fmap_ext. intros i [k v] Hi. unfold json_entry. cbn.
    f_equal. apply (Hkeys k v), elem_of_map_to_list.
    rewrite <- (merge_sort_Permutation key_le).
    by eapply list_elem_of_lookup_2. }
  apply list_to_map_proper.
  - rewrite reverse_Permutation, <- list_fmap_compose.
    rewrite (list_fmap_ext (fst ∘ prod_map id f) fst) by (by intros i []).
    rewrite merge_sort_Permutation. apply NoDup_fst_map_to_list.
  - by rewrite reverse_Permutation, merge_sort_Permutation.
Qed.

Lemma json_map_idem {V} (f : V → V) (g : gmap string V) :
  (∀ v, f (f v) = f v) →
  json_map f (json_map f g) = json_map f g.
Proof.
  intros Hf. rewrite (json_map_keys_kept f (json_map f g)).
  - apply map_eq. intros k. rewrite lookup_fmap.
    destruct (json_map f g !! k) as [v'|] eqn:Hk; [|done]. cbn.
    apply json_map_lookup in Hk as (k0 & v & _ & _ & ->). by rewrite Hf.
  - intros k v' (k0 & v & _ & -> & _)%json_map_lookup.
    apply json_string_idem.
Qed.

(** A map that is read back as it is has keys and values that JSON keeps,
    and the other way round. *)
Lemma json_map_fixed {V} (f : V → V) (g : gmap string V) (k : string) (v : V) :
  (∀ v, f (f v) = f v) →
  json_map f g = g →
  g !! k = Some v →
  json_string k = k ∧ f v = v.
Proof.
  intros Hf Hfixed Hk. rewrite <- Hfixed in Hk.
  apply json_map_lookup in Hk as (k0 & v0 & _ & -> & ->).
  by rewrite json_string_idem, Hf.
Qed.

Lemma json_map_kept {V} (f : V → V) (g : gmap string V) :
  (∀ k v, g !! k = Some v → json_string k = k ∧ f v = v) →
  json_map f g = g.
Proof.
  intros Hkept. rewrite json_map_keys_kept by (intros; by eapply Hkept).
  apply map_eq. intros k. rewrite lookup_fmap.
  destruct (g !! k) as [v|] eqn:Hk; [|done]. cbn. f_equal. by eapply Hkept.
Qed.

Lemma json_gomap_idem {V} (f : V → V) (m : GoMap V) :
  (∀ v, f (f v) = f v) →
  json_gomap f (json_gomap f m) = json_gomap f m.
Proof.
  intros Hf. destruct m as [g|]; cbn; [|done]. by rewrite json_map_idem.
Qed.

Lemma json_Member_idem (member : Member.t) :
  json_Member (json_Member member) = json_Member member.
Proof.
  unfold json_Member. cbn.
  by rewrite !json_string_idem, (json_gomap_idem _ _ json_string_idem).
Qed.

Lemma json_Team_idem (team : Team.t) :
  json_Team (json_Team team) = json_Team team.
Proof.
  unfold json_Team. cbn. f_equal. rewrite <- list_fmap_compose.
  apply list_fmap_ext. intros i member _. apply json_Member_idem.
Qed.

Lemma json_User_idem (user : User.t) :
  json_User (json_User user) = json_User user.
Proof.
  unfold json_User. cbn.
  by rewrite !json_string_idem, (json_gomap_idem _ _ json_string_idem).
Qed.

Lemma json_Channel_idem (channel : Channel.t) :
  json_Channel (json_Channel channel) = json_Channel channel.
Proof. unfold json_Channel. cbn. by rewrite !json_string_idem. Qed.

(** Reading twice gives nothing new. *)
Lemma as_read_idem (w : World) : as_read (as_read w) = as_read w.
Proof.
  unfold as_read. cbn. f_equal.
  - destruct (teams_json w) as [| |[|[m]]]; cbn; try done.
    unfold json_Teams. cbn.
    by rewrite (json_gomap_idem _ _ json_Team_idem).
  - destruct (users_json w) as [| |[|m]]; cbn; try done.
    unfold json_Users. by rewrite (json_gomap_idem _ _ json_User_idem).
  - destruct (channels_json w) as [| |[|m]]; cbn; try done.
    unfold json_Channels.
    by rewrite (json_gomap_idem _ _ json_Channel_idem).
Qed.

(** The files of a store that is as it is read. *)
Lemma as_read_files (w : World) :
  as_read w = w →
  json_file json_Teams (teams_json w) = teams_json w
  ∧ json_file json_Users (users_json w) = users_json w
  ∧ json_file json_Channels (channels_json w) = channels_json w.
Proof. destruct w. unfold as_read. cbn. by intros [= -> -> ->]. Qed.

(** What is loaded from a file that is as it is read: JSON keeps the name
    of every team and every team. *)
Lemma loaded_teams_kept (file : File Teams.t) (g : gmap string Team.t)
    (team : string) (t : Team.t) :
  json_file json_Teams file = file →
  load (Teams.mk make_map) file = inl (Teams.mk (Some g)) →
  g !! team = Some t →
  json_string team = team ∧ json_Team t = t.
Proof.
  intros Hfile Hload Hteam.
  destruct file as [|msg|[msg|[m]]]; cbn in Hload; try done.
  - injection Hload as <-. by rewrite lookup_empty in Hteam.
  - injection Hload as ->. cbn in Hfile. injection Hfile as Hfixed.
    by apply (json_map_fixed json_Team g team t json_Team_idem).
Qed.

Lemma loaded_channels_kept (file : File Channels) (h : gmap string Channel.t)
    (channelID : string) (c : Channel.t) :
  json_file json_Channels file = file →
  load make_map file = inl (Some h) →
  h !! channelID = Some c →
  json_string channelID = channelID ∧ json_Channel c = c.
Proof.
  intros Hfile Hload Hc.
  destruct file as [|msg|[msg|m]]; cbn in Hload; try done.
  - injection Hload as <-. by rewrite lookup_empty in Hc.
  - injection Hload as ->. cbn in Hfile. injection Hfile as Hfixed.
    by apply (json_map_fixed json_Channel h channelID c json_Channel_idem).
Qed.

(** A collection read from such a file, with the entry of one key that JSON
    keeps put or changed, is read back entry by entry. *)
Lemma json_Teams_insert (g : gmap string Team.t) (team : string) (t : Team.t) :
  (∀ k v, g !! k = Some v → json_string k = k ∧ json_Team v = v) →
  json_string team = team →
  json_Teams (Teams.mk (Some (<[team := t]> g)))
  = Teams.mk (Some (<[team := json_Team t]> g)).
Proof.
  intros Hkept Hteam. unfold json_Teams. cbn. do 2 f_equal.
  rewrite json_map_keys_kept.
  - rewrite fmap_insert. f_equal. apply map_eq. intros k.
    rewrite lookup_fmap. destruct (g !! k) as [v|] eqn:Hk; [|done].
    cbn. f_equal. by eapply Hkept.
  - intros k v. rewrite lookup_insert. case_decide; [by intros; subst|].
    intros Hk. by eapply Hkept.
Qed.

Lemma json_Channels_insert (h : gmap string Channel.t) (channelID : string)
    (c : Channel.t) :
  (∀ k v, h !! k = Some v → json_string k = k ∧ json_Channel v = v) →
  json_string channelID = channelID →
  json_Channels (Some (<[channelID := c]> h))
  = Some (<[channelID := json_Channel c]> h).
Proof.
  intros Hkept Hid. unfold json_Channels. cbn. f_equal.
  rewrite json_map_keys_kept.
  - rewrite fmap_insert. f_equal. apply map_eq. intros k.
    rewrite lookup_fmap. destruct (h !! k) as [v|] eqn:Hk; [|done].
    cbn. f_equal. by eapply Hkept.
  - intros k v. rewrite lookup_insert. case_decide; [by intros; subst|].
    intros Hk. by eapply Hkept.
Qed.

Lemma json_Member_ids (members : list Member.t) :
  Member.MemberID <$> (json_Member <$> members)
  = json_string <$> (Member.MemberID <$> members).
Proof. rewrite <- !list_fmap_compose. by apply list_fmap_ext. Qed.

#[local] Arguments json_string : simpl never.
#[local] Arguments json_map : simpl never.
#[local] Arguments json_Member : simpl never.
#[local] Arguments json_Team : simpl never.
#[local] Arguments json_Teams : simpl never.
#[local] Arguments json_Users : simpl never.
#[local] Arguments json_Channels : simpl never.

Lemma json_map_empty {V} (f : V → V) : json_map f (∅ : gmap string V) = ∅.
Proof. apply json_map_kept. intros k v. by rewrite lookup_empty. Qed.

(** Two keys that JSON text holds as the same string: the entry whose key
    comes later in byte order is the one read back. *)
Example json_map_later_key :
  json_map json_string
    {[ String "255"%char "" := "new"; replacement := "old" ]}
  = {[ replacement := "new" ]}
  ∧ json_map json_string
      {[ String "128"%char "" := "new"; replacement := "old" ]}
    = {[ replacement := "old" ]}.
Proof. split; vm_compute; reflexivity. Qed.

Lemma json_Member_new (memberID name : string) :
  json_string memberID = memberID →
  json_Member (Member.mk memberID name make_map)
  = Member.mk memberID (json_string name) make_map.
Proof.
  intros Hid. unfold json_Member, make_map. cbn.
  by rewrite Hid, json_map_empty.
Qed.

Lemma json_Team_appended (t : Team.t) (member : Member.t) :
  json_Team t = t →
  json_Team (Team.mk (Team.Members t ++ [member]))
  = Team.mk (Team.Members t ++ [json_Member member]).
Proof.
  intros Ht. destruct t as [members]. unfold json_Team in *. cbn in *.
  injection Ht as Ht. by rewrite fmap_app, Ht.
Qed.

(** ** ping *)

(** C5. When team [team] is in the store and has no member, ping on it, for
    any channel name, answers with an error, changes no file and makes no
    outbound call (so no message is posted); when the channel name resolves
    to a tracked channel the error is the "No members" one. *)
Theorem ping_empty_team (env : Env) (w : World) (teams : Teams.t)
    (team channelName : string) (rest : list string) (t : Team.t) :
  teams_json w = Bytes (Json teams) →
  map_get (Teams.Teams teams) team = Some t →
  Team.Members t = [] →
  ∃ message,
    run (handlePing env (team :: channelName :: rest)) w
      = (Exit (Error message), mkSt w [])
    ∧ ∀ channels,
        channels_json w = Bytes (Json channels) →
        resolveChannel env channels channelName ≠ "" →
        message = "No members of team '" +:+ team +:+ "' found.".
Proof.
  intros Hfile Hteam Hnone. unfold handlePing. run_io.
  rewrite Hfile. run_io. rewrite Hteam. run_io.
  destruct (channels_json w) as [|msg|[msg|channels]]; run_io.
  all: rewrite ?Hnone; unfold mentionsOf; cbn; repeat case_decide; run_io.
  all: eexists; split; [reflexivity|].
  all: intros ? ? ?; simplify_eq; done.
Qed.

Definition quiet_env : Env :=
  mkEnv (λ _, inr (ErrOther "user_not_found")) (λ _, inl [])
    (λ _, None) (λ _ _, None) (λ _, WriteOK) map_to_list map_to_list
    (λ _, 0%Z).

Definition ping_world : World :=
  mkWorld (Bytes (Json (Teams.mk (Some {[ "eng" := Team.mk [] ]}))))
    (Bytes (Json (Some ∅)))
    (Bytes (Json (Some {[ "C1" := Channel.mk "C1" "general" ]}))).

Lemma ping_empty_team_witness :
  ∃ message,
    run (handlePing quiet_env ["eng"; "general"]) ping_world
      = (Exit (Error message), mkSt ping_world [])
    ∧ ∀ channels,
        channels_json ping_world = Bytes (Json channels) →
        resolveChannel quiet_env channels "general" ≠ "" →
        message = "No members of team 'eng' found.".
Proof.
  apply (ping_empty_team quiet_env ping_world
           (Teams.mk (Some {[ "eng" := Team.mk [] ]})) "eng" "general" []
           (Team.mk [])); reflexivity.
Defined.

(** ** add-channel *)

(** C6. When add-channel is run from a channel (the command carries its id
    and name, both non-empty) whose id is already a key of the Channels
    collection, the answer is the "already being tracked" error, and
    nothing else happens: no call to the Slack client (so no join) and no
    file is written. *)
Theorem add_channel_already_tracked (env : Env) (w : World)
    (channels : Channels) (args : list string)
    (channelID channelName : string) (c : Channel.t) :
  channels_json w = Bytes (Json channels) →
  map_get channels channelID = Some c →
  channelID ≠ "" →
  channelName ≠ "" →
  run (handleAddChannel env args channelID channelName) w
    = (Exit (Error ("Channel #" +:+ channelName
                    +:+ " is already being tracked.")),
       mkSt w []).
Proof.
  intros Hfile Htracked Hid Hname. unfold handleAddChannel.
  case_decide as Hempty; [destruct Hempty; done|].
  run_io. rewrite Hfile. run_io. rewrite Htracked. by run_io.
Qed.

Definition tracked_world : World :=
  mkWorld NoFile NoFile
    (Bytes (Json (Some {[ "C1" := Channel.mk "C1" "general" ]}))).

Lemma add_channel_already_tracked_witness :
  run (handleAddChannel quiet_env [] "C1" "general") tracked_world
    = (Exit (Error "Channel #general is already being tracked."),
       mkSt tracked_world []).
Proof.
  apply (add_channel_already_tracked quiet_env tracked_world
           (Some {[ "C1" := Channel.mk "C1" "general" ]}) [] "C1" "general"
           (Channel.mk "C1" "general")); done.
Defined.

(** ** add and remove *)

(** The Users file after the second half of add: untouched when the read
    fails, otherwise what the write of the collection with the fresh entry
    leaves. *)
Definition users_after_add (env : Env) (memberID displayName : string)
    (old : File Users) : File Users :=
  match load make_map old with
  | inl (Some g) =>
      written (WriteFile env UsersFile)
        (Some (<[memberID := User.mk memberID displayName (Now env 0)
                               make_map]> g))
        old
  | _ => old
  end.

(** Everything a success response of add tells about the invocation. *)
Lemma handleAdd_success (env : Env) (w : World) (team memberID : string)
    (rest : list string) (message : string) (s1 : St) :
  run (handleAdd env (team :: memberID :: rest)) w
    = (Exit (Success message), s1) →
  ∃ g t userInfo,
    teams_json w = Bytes (Json (Teams.mk (Some g)))
    ∧ g !! team = Some t
    ∧ find_member memberID (Team.Members t) = None
    ∧ GetUserInfo env memberID = inl userInfo
    ∧ WriteFile env TeamsFile = WriteOK
    ∧ load make_map (users_json w) ≠ inl None
    ∧ message = "Added user " +:+ displayNameOf userInfo +:+ " (" +:+ memberID
                +:+ ") to team '" +:+ team +:+ "'."
    ∧ s1 = mkSt
             (mkWorld
                (Bytes (Json (Teams.mk (Some
                   (<[team := Team.mk (Team.Members t
                        ++ [Member.mk memberID (displayNameOf userInfo)
                              make_map])]> g)))))
                (users_after_add env memberID (displayNameOf userInfo)
                   (users_json w))
                (channels_json w))
             [CallGetUserInfo memberID].
Proof.
  unfold handleAdd, users_after_add. run_io.
  destruct (teams_json w) as [|msg|[msg|[[g|]]]] eqn:Hteams; run_io;
    try discriminate.
  destruct (g !! team) as [t|] eqn:Hteam; run_io; try discriminate.
  destruct (find_member memberID (Team.Members t)) eqn:Hfind; run_io;
    try discriminate.
  destruct (GetUserInfo env memberID) as [userInfo|err] eqn:Hinfo; run_io;
    try discriminate.
  destruct (WriteFile env TeamsFile) as [|err tr] eqn:Hwrite; run_io;
    try discriminate.
  intros Hrun. exists g, t, userInfo.
  destruct (load make_map (users_json w)) as [[u|]|err] eqn:Husers; run_io;
    simplify_eq; split_and!; done.
Qed.

Lemma find_member_appended (memberID name : string) (channels : GoMap string)
    (members : list Member.t) :
  find_member memberID members = None →
  find_member memberID (members ++ [Member.mk memberID name channels])
    = Some (length members, Member.mk memberID name channels).
Proof.
  intros Hnone. unfold find_member in *.
  rewrite list_find_app_r by done. cbn.
  by rewrite decide_True.
Qed.

Lemma find_member_None (memberID : string) (members : list Member.t) :
  find_member memberID members = None
  ↔ memberID ∉ Member.MemberID <$> members.
Proof.
  unfold find_member. rewrite list_find_None, Forall_forall, list_elem_of_fmap.
  split.
  - intros Hall (member & Hid & Hin). by apply (Hall member).
  - intros Hnot member Hin Hid. apply Hnot. by exists member.
Qed.

Lemma remove_appended {A} (l : list A) (x : A) :
  take (length l) (l ++ [x]) ++ drop (S (length l)) (l ++ [x]) = l.
Proof.
  rewrite take_app_length, drop_ge, app_nil_r; [done|].
  rewrite length_app. cbn. lia.
Qed.

(** C3, as it holds on the code. For a team [team] of a store that is as
    it is read, and a member id that is not in the team and that JSON text
    holds as it is (a valid UTF-8 string): an add that answers with success
    followed by a remove whose write of the teams file goes through.  The
    remove, run on the files as they are read back, answers with success
    and the teams file is back to its contents before the add, so the
    member list of the team is exactly the one before the add; print
    members then lists the entries of that list, in which the id does not
    occur, as it did before the add. *)
Theorem add_then_remove (env1 env2 : Env) (w : World) (teams : Teams.t)
    (team memberID : string) (t : Team.t) (message : string) (s1 : St) :
  as_read w = w →
  teams_json w = Bytes (Json teams) →
  map_get (Teams.Teams teams) team = Some t →
  memberID ∉ Member.MemberID <$> Team.Members t →
  json_string memberID = memberID →
  run (handleAdd env1 [team; memberID]) w = (Exit (Success message), s1) →
  WriteFile env2 TeamsFile = WriteOK →
  ∃ w2 listing,
    run (handleRemove env2 [team; memberID]) (as_read (world s1))
      = (Exit (Success ("Removed user " +:+ memberID +:+ " from team '"
                        +:+ team +:+ "'.")),
         mkSt w2 [])
    ∧ teams_json w2 = Bytes (Json teams)
    ∧ listing
        = match Team.Members t with
          | [] => "No members found in team '" +:+ team +:+ "'."
          | _ => "Members of team '" +:+ team +:+ "': "
                 +:+ strings_Join (memberEntry <$> Team.Members t) ", "
          end
    ∧ run (printMembers team) (as_read w2)
      = (Exit (Success listing), mkSt (as_read w2) [])
    ∧ run (printMembers team) w = (Exit (Success listing), mkSt w []).
Proof.
  intros Hread Hfile Hteam Hfresh Hid Hadd Hwrite.
  apply handleAdd_success in Hadd
    as (g & t' & userInfo & Hfile' & Hteam' & Hfind & _ & _ & _ & _ & ->).
  rewrite Hfile in Hfile'. simplify_eq. cbn in Hteam. simplify_eq.
  destruct (as_read_files w Hread) as (Hteams & _ & _).
  assert (∀ k v, g !! k = Some v → json_string k = k ∧ json_Team v = v)
    as Hkept.
  { intros k v. apply (loaded_teams_kept (teams_json w)); [done|].
    by rewrite Hfile. }
  destruct (Hkept team t Hteam) as [Hteam_kept Ht_kept].
  unfold as_read at 1. cbn [world teams_json users_json channels_json json_file].
  rewrite json_Teams_insert, json_Team_appended, json_Member_new by done.
  unfold handleRemove. run_io. rewrite lookup_insert_eq. run_io.
  rewrite find_member_appended by done. run_io.
  rewrite Hwrite. run_io.
  rewrite remove_appended, insert_insert_eq.
  assert (<[team := Team.mk (Team.Members t)]> g = g) as ->.
  { apply insert_id. by destruct t. }
  assert (json_Teams (Teams.mk (Some g)) = Teams.mk (Some g)) as Hg.
  { rewrite Hfile in Hteams. cbn in Hteams. injection Hteams as Hm.
    unfold json_Teams. cbn. by rewrite Hm. }
  eexists _, _. split; [reflexivity|]. split; [reflexivity|].
  split; [reflexivity|].
  unfold printMembers. run_io. rewrite Hg, Hfile. run_io. rewrite Hteam.
  by destruct (Team.Members t).
Qed.

(** A workspace where U123 is Ada, and a store with team eng holding Bob. *)
Definition ada_env : Env :=
  mkEnv
    (λ memberID,
       if decide (memberID = "U123") then inl (UserInfo.mk "ada.l" "Ada" false)
       else inr (ErrOther "user_not_found"))
    (λ _, inl ["U123"])
    (λ _, None) (λ _ _, None) (λ _, WriteOK) map_to_list map_to_list
    (λ n, 1000 + Z.of_nat n)%Z.

Definition eng_team : Team.t := Team.mk [Member.mk "U7" "Bob" (Some ∅)].

Definition eng_teams : Teams.t := Teams.mk (Some {[ "eng" := eng_team ]}).

Definition eng_world : World :=
  mkWorld (Bytes (Json eng_teams)) (Bytes (Json (Some ∅)))
    (Bytes (Json (Some ∅))).

Lemma add_then_remove_witness :
  ∃ w2 listing,
    run (handleRemove ada_env ["eng"; "U123"])
      (as_read (world (run (handleAdd ada_env ["eng"; "U123"]) eng_world).2))
      = (Exit (Success "Removed user U123 from team 'eng'."), mkSt w2 [])
    ∧ teams_json w2 = Bytes (Json eng_teams)
    ∧ listing = "Members of team 'eng': Bob (U7)"
    ∧ run (printMembers "eng") (as_read w2)
      = (Exit (Success listing), mkSt (as_read w2) [])
    ∧ run (printMembers "eng") eng_world
      = (Exit (Success listing), mkSt eng_world []).
Proof.
  apply (add_then_remove ada_env ada_env eng_world eng_teams "eng" "U123"
           eng_team "Added user Ada (U123) to team 'eng'."
           (run (handleAdd ada_env ["eng"; "U123"]) eng_world).2).
  - vm_compute. reflexivity.
  - reflexivity.
  - reflexivity.
  - apply find_member_None. reflexivity.
  - vm_compute. reflexivity.
  - vm_compute. reflexivity.
  - reflexivity.
Defined.

(** The member id made of the letter U and the byte 255, which starts no
    UTF-8 sequence, and what JSON text holds for it. *)
Definition bad_id : string := String "U"%char (String "255"%char "").

Definition replaced_id : string := "U" +:+ replacement.

(** A workspace where every id is Eve. *)
Definition eve_env : Env :=
  mkEnv (λ _, inl (UserInfo.mk "eve" "Eve" false)) (λ _, inl [])
    (λ _, None) (λ _ _, None) (λ _, WriteOK) map_to_list map_to_list
    (λ n, 3000 + Z.of_nat n)%Z.

(** C3, counterexample. The id [bad_id] is not in team eng, add answers
    with success and every write goes through, yet remove of the same id
    answers that the user is not in the team and changes nothing: the teams
    file holds the id as JSON text does, with U+FFFD for the byte 255, and
    the comparison of the id given with the id read back fails.  The member
    list of eng is not the one before the add, and print members lists the
    stored id. *)
Lemma add_then_remove_other_bytes :
  as_read eng_world = eng_world
  ∧ teams_json eng_world = Bytes (Json eng_teams)
  ∧ map_get (Teams.Teams eng_teams) "eng" = Some eng_team
  ∧ (bad_id ∉ Member.MemberID <$> Team.Members eng_team)
  ∧ ∃ s1,
      run (handleAdd eve_env ["eng"; bad_id]) eng_world
        = (Exit (Success ("Added user Eve (" +:+ bad_id
                          +:+ ") to team 'eng'.")),
           s1)
      ∧ WriteFile eve_env TeamsFile = WriteOK
      ∧ run (handleRemove eve_env ["eng"; bad_id]) (as_read (world s1))
        = (Exit (Error ("User " +:+ bad_id +:+ " is not in team 'eng'.")),
           mkSt (as_read (world s1)) [])
      ∧ teams_json (as_read (world s1))
        = Bytes (Json (Teams.mk (Some
            {[ "eng" := Team.mk [Member.mk "U7" "Bob" (Some ∅);
                                 Member.mk replaced_id "Eve" (Some ∅)] ]})))
      ∧ run (printMembers "eng") (as_read (world s1))
        = (Exit (Success ("Members of team 'eng': Bob (U7), Eve ("
                          +:+ replaced_id +:+ ")")),
           mkSt (as_read (world s1)) []).
Proof.
  split; [vm_compute; reflexivity|].
  split; [reflexivity|]. split; [reflexivity|].
  split; [apply find_member_None; reflexivity|].
  exists (run (handleAdd eve_env ["eng"; bad_id]) eng_world).2.
  split_and!; vm_compute; reflexivity.
Qed.

(** C9. When add answers with success, the Users collection held an entry
    for the member id and the write of the Users file goes through, the
    stored entry is a fresh one: the name looked up at Slack, the current
    time, and an empty channels mapping, whatever the old entry recorded;
    the other entries are kept. *)
Theorem add_replaces_user (env : Env) (w : World) (users : Users)
    (team memberID : string) (old : User.t) (message : string) (s1 : St) :
  users_json w = Bytes (Json users) →
  map_get users memberID = Some old →
  run (handleAdd env [team; memberID]) w = (Exit (Success message), s1) →
  WriteFile env UsersFile = WriteOK →
  ∃ userInfo users',
    GetUserInfo env memberID = inl userInfo
    ∧ users_json (world s1) = Bytes (Json users')
    ∧ map_get users' memberID
      = Some (User.mk memberID (displayNameOf userInfo) (Now env 0) (Some ∅))
    ∧ ∀ other, other ≠ memberID → map_get users' other = map_get users other.
Proof.
  intros Hfile Hold Hadd Hwrite.
  apply handleAdd_success in Hadd
    as (g & t & userInfo & _ & _ & _ & Hinfo & _ & _ & _ & ->).
  destruct users as [u|]; [|done].
  exists userInfo. eexists. split; [done|]. cbn.
  unfold users_after_add. rewrite Hfile, Hwrite. cbn.
  split; [reflexivity|]. cbn. split.
  - apply lookup_insert_eq.
  - intros other Hother. by apply lookup_insert_ne.
Qed.

Definition ada_known_world : World :=
  mkWorld (Bytes (Json eng_teams))
    (Bytes (Json (Some {[ "U123" :=
       User.mk "U123" "Ada L." 7 (Some {[ "C1" := "U123" ]}) ]})))
    (Bytes (Json (Some ∅))).

Lemma add_replaces_user_witness :
  ∃ userInfo users',
    GetUserInfo ada_env "U123" = inl userInfo
    ∧ users_json
        (world (run (handleAdd ada_env ["eng"; "U123"]) ada_known_world).2)
      = Bytes (Json users')
    ∧ map_get users' "U123"
      = Some (User.mk "U123" (displayNameOf userInfo) (Now ada_env 0) (Some ∅))
    ∧ ∀ other, other ≠ "U123" →
        map_get users' other
        = map_get (Some {[ "U123" :=
            User.mk "U123" "Ada L." 7 (Some {[ "C1" := "U123" ]}) ]}) other.
Proof.
  apply (add_replaces_user ada_env ada_known_world
           (Some {[ "U123" :=
              User.mk "U123" "Ada L." 7 (Some {[ "C1" := "U123" ]}) ]})
           "eng" "U123"
           (User.mk "U123" "Ada L." 7 (Some {[ "C1" := "U123" ]}))
           "Added user Ada (U123) to team 'eng'."
           (run (handleAdd ada_env ["eng"; "U123"]) ada_known_world).2).
  - reflexivity.
  - reflexivity.
  - vm_compute. reflexivity.
  - reflexivity.
Defined.

(** C10. Once add has written the teams file, a failure of the read of the
    Users file, or of its write, does not change the answer: the response
    is the success text, the member is in the stored team, and the Users
    file holds nothing of this invocation (it is as before, or truncated
    by the failed write).  The write is reached only when the Users
    collection read is not the null map, on which the assignment of the
    entry panics. *)
Theorem add_users_failure_still_success (env : Env) (w : World)
    (g : gmap string Team.t) (team memberID : string) (t : Team.t)
    (userInfo : UserInfo.t) :
  teams_json w = Bytes (Json (Teams.mk (Some g))) →
  g !! team = Some t →
  memberID ∉ Member.MemberID <$> Team.Members t →
  GetUserInfo env memberID = inl userInfo →
  WriteFile env TeamsFile = WriteOK →
  (∃ msg, users_json w = Unreadable msg ∨ users_json w = Bytes (Malformed msg))
  ∨ (users_json w ≠ Bytes (Json None)
     ∧ ∃ err truncated, WriteFile env UsersFile = WriteFailed err truncated) →
  ∃ w1,
    run (handleAdd env [team; memberID]) w
      = (Exit (Success ("Added user " +:+ displayNameOf userInfo +:+ " ("
                        +:+ memberID +:+ ") to team '" +:+ team +:+ "'.")),
         mkSt w1 [CallGetUserInfo memberID])
    ∧ teams_json w1
      = Bytes (Json (Teams.mk (Some
          (<[team := Team.mk (Team.Members t
               ++ [Member.mk memberID (displayNameOf userInfo) (Some ∅)])]>
             g))))
    ∧ (users_json w1 = users_json w
       ∨ ∃ msg, users_json w1 = Bytes (Malformed msg)).
Proof.
  intros Hfile Hteam Hfresh Hinfo Hwrite Hfail.
  apply find_member_None in Hfresh.
  unfold handleAdd. run_io. rewrite Hfile. run_io. rewrite Hteam. run_io.
  rewrite Hfresh. run_io. rewrite Hinfo. run_io. rewrite Hwrite. run_io.
  destruct Hfail as [(msg & [Hu|Hu])|(Hnil & err & truncated & Hw)].
  - rewrite Hu. run_io. eexists. split; [reflexivity|]. cbn. auto.
  - rewrite Hu. run_io. eexists. split; [reflexivity|]. cbn. auto.
  - destruct (users_json w) as [|msg|[msg|[u|]]] eqn:Hu; run_io;
      rewrite ?Hw; run_io; try done.
    all: eexists; (split; [reflexivity|]); cbn; split; [done|].
    all: destruct truncated; cbn; eauto.
Qed.

Definition users_readonly_env : Env :=
  mkEnv (GetUserInfo ada_env) (GetUsersInConversation ada_env)
    (λ _, None) (λ _ _, None)
    (λ file, match file with
             | UsersFile => WriteFailed (ErrOther "permission denied") false
             | _ => WriteOK
             end)
    map_to_list map_to_list (Now ada_env).

Lemma add_users_failure_still_success_witness :
  ∃ w1,
    run (handleAdd users_readonly_env ["eng"; "U123"]) ada_known_world
      = (Exit (Success "Added user Ada (U123) to team 'eng'."),
         mkSt w1 [CallGetUserInfo "U123"])
    ∧ teams_json w1
      = Bytes (Json (Teams.mk (Some
          (<["eng" := Team.mk (Team.Members eng_team
               ++ [Member.mk "U123" "Ada" (Some ∅)])]>
             {[ "eng" := eng_team ]}))))
    ∧ (users_json w1 = users_json ada_known_world
       ∨ ∃ msg, users_json w1 = Bytes (Malformed msg)).
Proof.
  apply (add_users_failure_still_success users_readonly_env ada_known_world
           {[ "eng" := eng_team ]} "eng" "U123" eng_team
           (UserInfo.mk "ada.l" "Ada" false)).
  - reflexivity.
  - reflexivity.
  - apply find_member_None. reflexivity.
  - reflexivity.
  - reflexivity.
  - right. split; [discriminate|]. by eexists _, _.
Defined.

(** ** The refresh loop as a function *)

(** What the loop of [updateUserInfoForChannel] computes from the Users and
    Teams it starts with; [None] when an iteration panics. *)
Fixpoint refreshAll (env : Env) (channelID : string) (members : list string)
    (i : nat) (users : Users) (teams : Teams.t) : option (Users * Teams.t) :=
  match members with
  | [] => Some (users, teams)
  | memberID :: rest =>
      match GetUserInfo env memberID with
      | inr _ => refreshAll env channelID rest (S i) users teams
      | inl userInfo =>
          if UserInfo.IsBot userInfo then
            refreshAll env channelID rest (S i) users teams
          else
            match refreshUser channelID memberID (displayNameOf userInfo)
                    (Now env i) users with
            | None => None
            | Some users =>
                refreshAll env channelID rest (S i) users
                  (refreshTeams channelID memberID (displayNameOf userInfo)
                     teams)
            end
      end
  end.

Lemma refreshMembers_run (env : Env) (channelID : string)
    (members : list string) (i : nat) (users : Users) (teams : Teams.t)
    (s : St) :
  ∃ tr,
    refreshMembers env channelID members i users teams s
    = (match refreshAll env channelID members i users teams with
       | Some st => Val st
       | None => Crash
       end,
       mkSt (world s) (calls s ++ tr)).
Proof.
  revert i users teams s.
  induction members as [|memberID rest IH]; intros i users teams s; cbn.
  - exists []. rewrite app_nil_r. by destruct s.
  - run_m. destruct (GetUserInfo env memberID) as [userInfo|err].
    + destruct (UserInfo.IsBot userInfo).
      * destruct (IH (S i) users teams
                    (mkSt (world s) (calls s ++ [CallGetUserInfo memberID])))
          as [tr ->].
        exists (CallGetUserInfo memberID :: tr). cbn.
        by rewrite <- app_assoc.
      * destruct (refreshUser channelID memberID (displayNameOf userInfo)
                    (Now env i) users) as [users'|]; run_m.
        -- destruct (IH (S i) users'
                       (refreshTeams channelID memberID
                          (displayNameOf userInfo) teams)
                       (mkSt (world s)
                          (calls s ++ [CallGetUserInfo memberID])))
             as [tr ->].
           exists (CallGetUserInfo memberID :: tr). cbn.
           by rewrite <- app_assoc.
        -- by exists [CallGetUserInfo memberID].
    + destruct (IH (S i) users teams
                  (mkSt (world s) (calls s ++ [CallGetUserInfo memberID])))
        as [tr ->].
      exists (CallGetUserInfo memberID :: tr). cbn.
      by rewrite <- app_assoc.
Qed.

#[local] Arguments refreshMembers : simpl never.

(** The files after a pass that ran to its end. *)
Definition world_after_pass (env : Env) (w : World) (users : Users)
    (teams : Teams.t) : World :=
  mkWorld (written (WriteFile env TeamsFile) teams (teams_json w))
    (written (WriteFile env UsersFile) users (users_json w))
    (channels_json w).

(** The outcome of a pass, case by case. *)
Lemma updateUserInfoForChannel_run (env : Env) (channelID : string)
    (w : World) :
  ∃ tr,
    run (updateUserInfoForChannel env channelID) w
    = match load make_map (users_json w) with
      | inr err => (Exit err, mkSt w tr)
      | inl users =>
          match load (Teams.mk make_map) (teams_json w) with
          | inr err => (Exit err, mkSt w tr)
          | inl teams =>
              match GetUsersInConversation env channelID with
              | inr err => (Exit err, mkSt w tr)
              | inl members =>
                  match refreshAll env channelID members 0 users teams with
                  | None => (Crash, mkSt w tr)
                  | Some (users', teams') =>
                      (Val tt, mkSt (world_after_pass env w users' teams') tr)
                  end
              end
          end
      end.
Proof.
  unfold updateUserInfoForChannel. run_io.
  destruct (load make_map (users_json w)) as [users|err]; run_io;
    [|by eexists].
  destruct (load (Teams.mk make_map) (teams_json w)) as [teams|err]; run_io;
    [|by eexists].
  destruct (GetUsersInConversation env channelID) as [members|err]; run_io;
    [|by eexists].
  destruct (refreshMembers_run env channelID members 0 users teams
              (mkSt w [CallGetUsersInConversation channelID]))
    as [tr ->].
  destruct (refreshAll env channelID members 0 users teams)
    as [[users' teams']|]; run_io; by eexists.
Qed.

(** The result and the files of a pass, as a function of the files it
    starts from. *)
Definition pass_outcome (env : Env) (channelID : string) (w : World)
  : Res error unit * World :=
  match load make_map (users_json w) with
  | inr err => (Exit err, w)
  | inl users =>
      match load (Teams.mk make_map) (teams_json w) with
      | inr err => (Exit err, w)
      | inl teams =>
          match GetUsersInConversation env channelID with
          | inr err => (Exit err, w)
          | inl members =>
              match refreshAll env channelID members 0 users teams with
              | None => (Crash, w)
              | Some (users', teams') =>
                  (Val tt, world_after_pass env w users' teams')
              end
          end
      end
  end.

Lemma pass_from (env : Env) (channelID : string) (s : St) :
  ∃ tr,
    updateUserInfoForChannel env channelID s
    = ((pass_outcome env channelID (world s)).1,
       mkSt (pass_outcome env channelID (world s)).2 (calls s ++ tr)).
Proof.
  unfold updateUserInfoForChannel, pass_outcome. run_io.
  destruct (load make_map (users_json (world s))) as [users|err]; run_io.
  2:{ exists []. rewrite app_nil_r. by destruct s. }
  destruct (load _ (teams_json (world s))) as [teams|err]; run_io.
  2:{ exists []. rewrite app_nil_r. by destruct s. }
  destruct (GetUsersInConversation env channelID) as [members|err]; run_io.
  2:{ by eexists. }
  destruct (refreshMembers_run env channelID members 0 users teams
              (mkSt (world s)
                 (calls s ++ [CallGetUsersInConversation channelID])))
    as [tr ->].
  destruct (refreshAll env channelID members 0 users teams)
    as [[users' teams']|]; run_io.
  - exists (CallGetUsersInConversation channelID :: tr).
    by rewrite <- app_assoc.
  - exists (CallGetUsersInConversation channelID :: tr).
    by rewrite <- app_assoc.
Qed.

Lemma pass_run (env : Env) (channelID : string) (w : World) :
  (run (updateUserInfoForChannel env channelID) w).1
    = (pass_outcome env channelID w).1
  ∧ world (run (updateUserInfoForChannel env channelID) w).2
    = (pass_outcome env channelID w).2.
Proof.
  destruct (pass_from env channelID (mkSt w [])) as [tr Hrun].
  unfold run. by rewrite Hrun.
Qed.

(** The calls of a pass: the member list of the channel, and the profiles
    of listed members. *)
Definition pass_call (env : Env) (channelID : string) (c : Call) : Prop :=
  c = CallGetUsersInConversation channelID
  ∨ ∃ members id,
      GetUsersInConversation env channelID = inl members
      ∧ id ∈ members
      ∧ c = CallGetUserInfo id.

Lemma refreshMembers_trace (env : Env) (channelID : string)
    (members : list string) (i : nat) (users : Users) (teams : Teams.t)
    (s : St) :
  ∃ tr,
    refreshMembers env channelID members i users teams s
    = (match refreshAll env channelID members i users teams with
       | Some st => Val st
       | None => Crash
       end,
       mkSt (world s) (calls s ++ tr))
    ∧ Forall (λ c, ∃ id, id ∈ members ∧ c = CallGetUserInfo id) tr.
Proof.
  revert i users teams s.
  induction members as [|memberID rest IH]; intros i users teams s.
  - exists []. cbn. rewrite app_nil_r. split; [by destruct s|constructor].
  - assert (∀ tr,
              Forall (λ c, ∃ id, id ∈ rest ∧ c = CallGetUserInfo id) tr →
              Forall (λ c, ∃ id, id ∈ memberID :: rest
                                 ∧ c = CallGetUserInfo id)
                (CallGetUserInfo memberID :: tr)) as Hcons.
    { intros tr Htr. constructor.
      - exists memberID. split; [left|done].
      - eapply Forall_impl; [exact Htr|]. intros c (id & Hin & ->).
        exists id. split; [by right|done]. }
    unfold refreshMembers. fold refreshMembers. cbn [refreshAll]. run_m.
    destruct (GetUserInfo env memberID) as [userInfo|err].
    + destruct (UserInfo.IsBot userInfo).
      * destruct (IH (S i) users teams
                    (mkSt (world s) (calls s ++ [CallGetUserInfo memberID])))
          as (tr & -> & Htr).
        exists (CallGetUserInfo memberID :: tr). cbn.
        rewrite <- app_assoc. split; [done|by apply Hcons].
      * destruct (refreshUser channelID memberID (displayNameOf userInfo)
                    (Now env i) users) as [users'|]; run_m.
        -- destruct (IH (S i) users'
                       (refreshTeams channelID memberID
                          (displayNameOf userInfo) teams)
                       (mkSt (world s)
                          (calls s ++ [CallGetUserInfo memberID])))
             as (tr & -> & Htr).
           exists (CallGetUserInfo memberID :: tr). cbn.
           rewrite <- app_assoc. split; [done|by apply Hcons].
        -- exists [CallGetUserInfo memberID]. split; [done|].
           apply Hcons. constructor.
    + destruct (IH (S i) users teams
                  (mkSt (world s) (calls s ++ [CallGetUserInfo memberID])))
        as (tr & -> & Htr).
      exists (CallGetUserInfo memberID :: tr). cbn.
      rewrite <- app_assoc. split; [done|by apply Hcons].
Qed.

Lemma pass_trace (env : Env) (channelID : string) (s : St) :
  ∃ tr,
    updateUserInfoForChannel env channelID s
    = ((pass_outcome env channelID (world s)).1,
       mkSt (pass_outcome env channelID (world s)).2 (calls s ++ tr))
    ∧ Forall (pass_call env channelID) tr.
Proof.
  unfold updateUserInfoForChannel, pass_outcome. run_io.
  destruct (load make_map (users_json (world s))) as [users|err]; run_io.
  2:{ exists []. rewrite app_nil_r. split; [by destruct s|constructor]. }
  destruct (load _ (teams_json (world s))) as [teams|err]; run_io.
  2:{ exists []. rewrite app_nil_r. split; [by destruct s|constructor]. }
  destruct (GetUsersInConversation env channelID) as [members|err] eqn:Hlist;
    run_io.
  2:{ eexists. split; [done|]. constructor; [by left|constructor]. }
  destruct (refreshMembers_trace env channelID members 0 users teams
              (mkSt (world s)
                 (calls s ++ [CallGetUsersInConversation channelID])))
    as (tr & -> & Htr).
  exists (CallGetUsersInConversation channelID :: tr).
  split.
  - destruct (refreshAll env channelID members 0 users teams)
      as [[users' teams']|]; run_io; by rewrite <- app_assoc.
  - constructor; [by left|].
    eapply Forall_impl; [exact Htr|]. intros c (id & Hin & ->).
    right. by exists members, id.
Qed.

Lemma updateChannels_one (passEnv : string → Env) (channelID : string)
    (s : St) :
  ∃ tr,
    updateChannels passEnv [channelID] s
    = (match (pass_outcome (passEnv channelID) channelID (world s)).1 with
       | Crash => Crash
       | _ => Val tt
       end,
       mkSt (pass_outcome (passEnv channelID) channelID (world s)).2
         (calls s ++ tr))
    ∧ Forall (pass_call (passEnv channelID) channelID) tr.
Proof.
  destruct (pass_trace (passEnv channelID) channelID s) as (tr & Hrun & Htr).
  exists tr. split; [|done]. cbn. unfold returned. run_m. rewrite Hrun.
  by destruct (pass_outcome (passEnv channelID) channelID (world s)).1.
Qed.

(** A pass does not write the channels file. *)
Lemma pass_outcome_channels (env : Env) (channelID : string) (w : World) :
  channels_json (pass_outcome env channelID w).2 = channels_json w.
Proof. unfold pass_outcome. by repeat case_match. Qed.

(** ** The files and calls of each handler *)

Ltac frame_tac :=
  run_io; repeat (case_match; run_io; simplify_eq); try done.

Lemma print_state (env : Env) (args : list string) (w : World) :
  (run (handlePrint env args) w).2 = mkSt w [].
Proof.
  unfold handlePrint, printTeams, printChannels, printMembers. frame_tac.
Qed.

Lemma invite_state (args : list string) (w : World) :
  (run (handleInvite args) w).2 = mkSt w [].
Proof. unfold handleInvite. frame_tac. Qed.

Lemma ping_keeps_world (env : Env) (args : list string) (w : World) :
  world (run (handlePing env args) w).2 = w.
Proof. unfold handlePing. frame_tac. Qed.

Lemma createTeam_frame (env : Env) (args : list string) (w : World) :
  users_json (world (run (handleCreateTeam env args) w).2) = users_json w
  ∧ channels_json (world (run (handleCreateTeam env args) w).2)
    = channels_json w
  ∧ calls (run (handleCreateTeam env args) w).2 = [].
Proof. unfold handleCreateTeam, teams_set. split_and!; frame_tac. Qed.

Lemma removeTeam_frame (env : Env) (args : list string) (w : World) :
  users_json (world (run (handleRemoveTeam env args) w).2) = users_json w
  ∧ channels_json (world (run (handleRemoveTeam env args) w).2)
    = channels_json w
  ∧ calls (run (handleRemoveTeam env args) w).2 = [].
Proof. unfold handleRemoveTeam. split_and!; frame_tac. Qed.

Lemma remove_frame (env : Env) (args : list string) (w : World) :
  users_json (world (run (handleRemove env args) w).2) = users_json w
  ∧ channels_json (world (run (handleRemove env args) w).2) = channels_json w
  ∧ calls (run (handleRemove env args) w).2 = [].
Proof. unfold handleRemove, teams_set. split_and!; frame_tac. Qed.

Lemma add_frame (env : Env) (args : list string) (w : World) :
  channels_json (world (run (handleAdd env args) w).2) = channels_json w
  ∧ (calls (run (handleAdd env args) w).2 = []
     ∨ ∃ team memberID rest,
         args = team :: memberID :: rest
         ∧ calls (run (handleAdd env args) w).2 = [CallGetUserInfo memberID]).
Proof.
  unfold handleAdd, teams_set. split.
  - frame_tac.
  - destruct args as [|team [|memberID rest]]; [by left..|].
    run_io. repeat (case_match; run_io; simplify_eq); eauto 10.
Qed.

Lemma addChannel_frame (env : Env) (args : list string)
    (channelID channelName : string) (w : World) :
  teams_json (world (run (handleAddChannel env args channelID channelName) w).2)
  = teams_json w
  ∧ users_json
      (world (run (handleAddChannel env args channelID channelName) w).2)
    = users_json w
  ∧ (calls (run (handleAddChannel env args channelID channelName) w).2 = []
     ∨ calls (run (handleAddChannel env args channelID channelName) w).2
       = [CallJoinConversation channelID]
     ∨ calls (run (handleAddChannel env args channelID channelName) w).2
       = [CallJoinConversation channelID;
          GoUpdateUserInfoForChannel channelID]).
Proof.
  unfold handleAddChannel. split_and!; [frame_tac..|].
  run_io. repeat (case_match; run_io; simplify_eq); eauto.
Qed.

Lemma removeChannel_frame (env : Env) (args : list string) (w : World) :
  teams_json (world (run (handleRemoveChannel env args) w).2) = teams_json w
  ∧ users_json (world (run (handleRemoveChannel env args) w).2) = users_json w
  ∧ calls (run (handleRemoveChannel env args) w).2 = [].
Proof. unfold handleRemoveChannel. split_and!; frame_tac. Qed.

Lemma ping_calls (env : Env) (args : list string) (w : World) :
  calls (run (handlePing env args) w).2 = []
  ∨ ∃ channelID text,
      calls (run (handlePing env args) w).2 = [CallPostMessage channelID text].
Proof.
  unfold handlePing. run_io.
  repeat (case_match; run_io; simplify_eq); eauto.
Qed.

(** The pass a command starts: none, unless it is an add-channel that
    went through, which leaves the teams and Users files to the pass. *)
Lemma command_started (env : Env) (args : list string)
    (channelID channelName : string) (w : World) :
  started (calls (run (handleSlackCommand env args channelID channelName) w).2)
  = []
  ∨ ∃ rest,
      args = "add-channel" :: rest
      ∧ calls (run (handleSlackCommand env args channelID channelName) w).2
        = [CallJoinConversation channelID;
           GoUpdateUserInfoForChannel channelID]
      ∧ teams_json
          (world (run (handleSlackCommand env args channelID channelName) w).2)
        = teams_json w
      ∧ users_json
          (world (run (handleSlackCommand env args channelID channelName) w).2)
        = users_json w.
Proof.
  unfold handleSlackCommand.
  destruct args as [|action rest]; [by left|].
  repeat case_decide; subst; try (by left).
  - destruct (createTeam_frame env rest w) as (_ & _ & ->). by left.
  - destruct (removeTeam_frame env rest w) as (_ & _ & ->). by left.
  - destruct (add_frame env rest w)
      as (_ & [->|(team & memberID & rest' & -> & ->)]); by left.
  - destruct (remove_frame env rest w) as (_ & _ & ->). by left.
  - rewrite print_state. by left.
  - rewrite invite_state. by left.
  - destruct (ping_calls env rest w) as [->|(ch & text & ->)]; by left.
  - destruct (addChannel_frame env rest channelID channelName w)
      as (Ht & Hu & [Hc|[Hc|Hc]]); rewrite Hc; [by left..|].
    right. by exists rest.
  - destruct (removeChannel_frame env rest w) as (_ & _ & ->). by left.
Qed.

Lemma command_and_started_cases (env : Env) (passEnv : string → Env)
    (args : list string) (channelID channelName : string) (w : World) :
  command_and_started env passEnv args channelID channelName w
  = run (handleSlackCommand env args channelID channelName) w
  ∨ ∃ rest tr,
      args = "add-channel" :: rest
      ∧ calls (run (handleSlackCommand env args channelID channelName) w).2
        = [CallJoinConversation channelID;
           GoUpdateUserInfoForChannel channelID]
      ∧ teams_json
          (world (run (handleSlackCommand env args channelID channelName) w).2)
        = teams_json w
      ∧ users_json
          (world (run (handleSlackCommand env args channelID channelName) w).2)
        = users_json w
      ∧ command_and_started env passEnv args channelID channelName w
        = (match (pass_outcome (passEnv channelID) channelID
                    (world (run (handleSlackCommand env args channelID
                                   channelName) w).2)).1 with
           | Crash => Crash
           | _ => (run (handleSlackCommand env args channelID channelName) w).1
           end,
           mkSt (pass_outcome (passEnv channelID) channelID
                   (world (run (handleSlackCommand env args channelID
                                  channelName) w).2)).2
             ([CallJoinConversation channelID;
               GoUpdateUserInfoForChannel channelID] ++ tr))
      ∧ Forall (pass_call (passEnv channelID) channelID) tr.
Proof.
  unfold command_and_started. cbv zeta.
  destruct (command_started env args channelID channelName w)
    as [->|(rest & -> & Hc & Ht & Hu)].
  - left. cbn. run_m.
    by destruct (handleSlackCommand env args channelID channelName _).
  - right.
    destruct (updateChannels_one passEnv channelID
                (run (handleSlackCommand env ("add-channel" :: rest) channelID
                       channelName) w).2) as (tr & Hone & Htr).
    exists rest, tr. split_and!; try done.
    rewrite Hc.
    assert (started [CallJoinConversation channelID;
                     GoUpdateUserInfoForChannel channelID] = [channelID])
      as -> by reflexivity.
    rewrite Hone, Hc.
    by destruct (pass_outcome _ _ _).1.
Qed.

(** ** Member ids are unique within a team *)

Definition team_ids (t : Team.t) : list string :=
  Member.MemberID <$> Team.Members t.

Definition UniqueTeams (teams : Teams.t) : Prop :=
  ∀ team t, map_get (Teams.Teams teams) team = Some t → NoDup (team_ids t).

Definition UniqueFile (file : File Teams.t) : Prop :=
  ∀ teams, file = Bytes (Json teams) → UniqueTeams teams.

(** The invariant on the store: in every team of a teams file that parses,
    no member id occurs twice. *)
Definition UniqueMembers (w : World) : Prop := UniqueFile (teams_json w).

Lemma unique_written (r : WriteResult) (teams : Teams.t) (old : File Teams.t) :
  UniqueTeams teams → UniqueFile old → UniqueFile (written r teams old).
Proof.
  intros Hnew Hold. destruct r as [|err [|]]; cbn; [|done..].
  by intros ? [= <-].
Qed.

Lemma unique_loaded (file : File Teams.t) (teams : Teams.t) :
  UniqueFile file → load (Teams.mk make_map) file = inl teams →
  UniqueTeams teams.
Proof.
  intros Hfile Hload. destruct file as [|msg|[msg|v]]; cbn in Hload;
    simplify_eq.
  - intros team t. cbn. by rewrite lookup_empty.
  - by apply Hfile.
Qed.

(** The refresh never adds or removes a member: the ids of every team, in
    order, are those it started with. *)
Lemma refreshMember_id (channelID memberID displayName : string)
    (member : Member.t) :
  Member.MemberID (refreshMember channelID memberID displayName member)
  = Member.MemberID member.
Proof. unfold refreshMember. by case_decide. Qed.

Lemma refreshTeam_ids (channelID memberID displayName : string) (t : Team.t) :
  team_ids (refreshTeam channelID memberID displayName t) = team_ids t.
Proof.
  unfold team_ids, refreshTeam. cbn. rewrite <- list_fmap_compose.
  apply list_fmap_ext. intros i member _. apply refreshMember_id.
Qed.

Lemma refreshTeams_lookup (channelID memberID displayName : string)
    (teams : Teams.t) (team : string) :
  map_get (Teams.Teams (refreshTeams channelID memberID displayName teams)) team
  = refreshTeam channelID memberID displayName
      <$> map_get (Teams.Teams teams) team.
Proof.
  destruct teams as [[g|]]; cbn; [|done]. apply lookup_fmap.
Qed.

Lemma refreshTeams_unique (channelID memberID displayName : string)
    (teams : Teams.t) :
  UniqueTeams teams →
  UniqueTeams (refreshTeams channelID memberID displayName teams).
Proof.
  intros Hteams team t. rewrite refreshTeams_lookup.
  intros (t0 & Ht0 & ->)%fmap_Some. rewrite refreshTeam_ids. by eapply Hteams.
Qed.

Lemma refreshAll_unique (env : Env) (channelID : string)
    (members : list string) (i : nat) (users users' : Users)
    (teams teams' : Teams.t) :
  refreshAll env channelID members i users teams = Some (users', teams') →
  UniqueTeams teams → UniqueTeams teams'.
Proof.
  revert i users teams.
  induction members as [|memberID rest IH]; intros i users teams; cbn.
  - by intros [= <- <-].
  - repeat case_match; try done; eauto using refreshTeams_unique.
Qed.

Lemma pass_unique (env : Env) (channelID : string) (w : World) :
  UniqueMembers w →
  UniqueMembers (world (run (updateUserInfoForChannel env channelID) w).2).
Proof.
  intros Hw. destruct (updateUserInfoForChannel_run env channelID w) as [tr ->].
  destruct (load make_map (users_json w)) as [users|]; [|done].
  destruct (load _ (teams_json w)) as [teams|] eqn:Hload; [|done].
  destruct (GetUsersInConversation env channelID) as [members|]; [|done].
  destruct (refreshAll _ _ _ _ _ _) as [[users' teams']|] eqn:Hloop; [|done].
  apply unique_written; [|done].
  eapply refreshAll_unique; [done|]. by eapply unique_loaded.
Qed.

Lemma refreshTeams_ids (channelID memberID displayName : string)
    (teams : Teams.t) (team : string) :
  team_ids
    <$> map_get (Teams.Teams (refreshTeams channelID memberID displayName teams))
          team
  = team_ids <$> map_get (Teams.Teams teams) team.
Proof.
  rewrite refreshTeams_lookup.
  destruct (map_get (Teams.Teams teams) team) as [t|]; [|done].
  cbn. f_equal. apply refreshTeam_ids.
Qed.

Lemma refreshAll_ids (env : Env) (channelID : string)
    (members : list string) (i : nat) (users users' : Users)
    (teams teams' : Teams.t) (team : string) :
  refreshAll env channelID members i users teams = Some (users', teams') →
  team_ids <$> map_get (Teams.Teams teams') team
  = team_ids <$> map_get (Teams.Teams teams) team.
Proof.
  revert i users teams.
  induction members as [|memberID rest IH]; intros i users teams; cbn.
  - by intros [= <- <-].
  - repeat case_match; try done; eauto.
    intros Hloop. rewrite (IH _ _ _ Hloop). apply refreshTeams_ids.
Qed.

(** *** Uniqueness in what is read back *)

Lemma json_Team_ids (t : Team.t) :
  team_ids (json_Team t) = json_string <$> team_ids t.
Proof. unfold team_ids, json_Team. cbn. apply json_Member_ids. Qed.

(** The teams read back are the teams written, each as JSON text holds
    it. *)
Lemma unique_read_written (r : WriteResult) (teams : Teams.t)
    (old : File Teams.t) :
  (∀ team t, map_get (Teams.Teams teams) team = Some t →
             NoDup (json_string <$> team_ids t)) →
  UniqueFile (json_file json_Teams old) →
  UniqueFile (json_file json_Teams (written r teams old)).
Proof.
  intros Hnew Hold. destruct r as [|err [|]]; cbn; [|done..].
  intros ? [= <-] team t. destruct teams as [[g|]]; unfold json_Teams; cbn;
    [|done].
  intros (k0 & t0 & Hk0 & _ & ->)%json_map_lookup.
  rewrite json_Team_ids. by apply (Hnew k0).
Qed.

Lemma loaded_ids_kept (file : File Teams.t) (teams : Teams.t) (team : string)
    (t : Team.t) :
  json_file json_Teams file = file →
  load (Teams.mk make_map) file = inl teams →
  map_get (Teams.Teams teams) team = Some t →
  json_string team = team ∧ json_string <$> team_ids t = team_ids t.
Proof.
  intros Hfile Hload Hteam. destruct teams as [[g|]]; [|done].
  destruct (loaded_teams_kept file g team t Hfile Hload Hteam) as [Hk Ht].
  split; [done|]. by rewrite <- json_Team_ids, Ht.
Qed.

Lemma loaded_unique_kept (file : File Teams.t) (teams : Teams.t)
    (team : string) (t : Team.t) :
  json_file json_Teams file = file →
  UniqueFile file →
  load (Teams.mk make_map) file = inl teams →
  map_get (Teams.Teams teams) team = Some t →
  NoDup (json_string <$> team_ids t).
Proof.
  intros Hfile Hunique Hload Hteam.
  destruct (loaded_ids_kept file teams team t Hfile Hload Hteam) as [_ ->].
  by apply (unique_loaded _ _ Hunique Hload team t).
Qed.

Lemma unique_as_read (w : World) :
  as_read w = w → UniqueMembers w →
  UniqueFile (json_file json_Teams (teams_json w)).
Proof.
  intros Hread Hw. destruct (as_read_files w Hread) as (-> & _ & _). done.
Qed.

Lemma createTeam_unique (env : Env) (args : list string) (w : World) :
  as_read w = w → UniqueMembers w →
  UniqueMembers (as_read (world (run (handleCreateTeam env args) w).2)).
Proof.
  intros Hread Hw. pose proof (unique_as_read w Hread Hw) as Hsame.
  destruct (as_read_files w Hread) as (Hfile & _ & _).
  unfold handleCreateTeam, teams_set, UniqueMembers, as_read.
  cbn [teams_json].
  destruct args as [|team rest]; run_io; [done|].
  destruct (load _ (teams_json w)) as [[[g|]]|err] eqn:Hload; run_io;
    try done.
  destruct (g !! team) eqn:Hteam; run_io; [done|].
  assert (UniqueFile
            (json_file json_Teams
               (written (WriteFile env TeamsFile)
                  (Teams.mk (Some (<[team := Team.mk []]> g))) (teams_json w)))).
  { apply unique_read_written; [|done]. intros team' t'. cbn.
    rewrite lookup_insert. case_decide; [intros [= <-]; constructor|].
    intros Hin.
    exact (loaded_unique_kept (teams_json w) (Teams.mk (Some g)) team' t'
             Hfile Hw Hload Hin). }
  by destruct (WriteFile env TeamsFile).
Qed.

Lemma removeTeam_unique (env : Env) (args : list string) (w : World) :
  as_read w = w → UniqueMembers w →
  UniqueMembers (as_read (world (run (handleRemoveTeam env args) w).2)).
Proof.
  intros Hread Hw. pose proof (unique_as_read w Hread Hw) as Hsame.
  destruct (as_read_files w Hread) as (Hfile & _ & _).
  unfold handleRemoveTeam, UniqueMembers, as_read. cbn [teams_json].
  destruct args as [|team rest]; run_io; [done|].
  destruct (load _ (teams_json w)) as [[[g|]]|err] eqn:Hload; run_io;
    try done.
  destruct (g !! team) eqn:Hteam; run_io; [|done].
  assert (UniqueFile
            (json_file json_Teams
               (written (WriteFile env TeamsFile)
                  (Teams.mk (Some (delete team g))) (teams_json w)))).
  { apply unique_read_written; [|done]. intros team' t'. cbn.
    intros [_ Hin]%lookup_delete_Some.
    exact (loaded_unique_kept (teams_json w) (Teams.mk (Some g)) team' t'
             Hfile Hw Hload Hin). }
  by destruct (WriteFile env TeamsFile).
Qed.

(** add appends an id that is not in the team; when JSON text holds the id
    as it is, the ids read back are as unique as those written. *)
Lemma add_unique (env : Env) (team memberID : string) (rest : list string)
    (w : World) :
  as_read w = w → UniqueMembers w →
  json_string memberID = memberID →
  UniqueMembers
    (as_read (world (run (handleAdd env (team :: memberID :: rest)) w).2)).
Proof.
  intros Hread Hw Hid. pose proof (unique_as_read w Hread Hw) as Hsame.
  destruct (as_read_files w Hread) as (Hfile & _ & _).
  unfold handleAdd, teams_set, UniqueMembers, as_read. cbn [teams_json].
  run_io.
  destruct (load _ (teams_json w)) as [[[g|]]|err] eqn:Hload; run_io;
    try done.
  destruct (g !! team) as [t|] eqn:Hteam; run_io; [|done].
  destruct (find_member memberID (Team.Members t)) eqn:Hfind; run_io; [done|].
  destruct (GetUserInfo env memberID) as [userInfo|err]; run_io; [|done].
  assert (UniqueFile
            (json_file json_Teams
               (written (WriteFile env TeamsFile)
                  (Teams.mk (Some (<[team := Team.mk (Team.Members t
                     ++ [Member.mk memberID (displayNameOf userInfo)
                           make_map])]> g)))
                  (teams_json w)))) as Hnew.
  { apply unique_read_written; [|done]. intros team' t'. cbn.
    rewrite lookup_insert. case_decide.
    - intros [= <-]. unfold team_ids. cbn. rewrite !fmap_app. cbn.
      destruct (loaded_ids_kept (teams_json w) _ team t Hfile Hload Hteam)
        as [_ Hkept].
      unfold team_ids in Hkept. rewrite Hkept, Hid.
      apply NoDup_app. split_and!.
      + by apply (unique_loaded _ _ Hw Hload team t).
      + apply find_member_None in Hfind.
        intros x Hx ->%list_elem_of_singleton. done.
      + apply NoDup_singleton.
    - intros Hin.
      exact (loaded_unique_kept (teams_json w) (Teams.mk (Some g)) team' t'
               Hfile Hw Hload Hin). }
  destruct (WriteFile env TeamsFile); run_io; [|done].
  destruct (load make_map (users_json w)) as [[u|]|err]; run_io; done.
Qed.

Lemma add_short_unique (env : Env) (args : list string) (w : World) :
  as_read w = w → UniqueMembers w →
  (length args < 2)%nat →
  UniqueMembers (as_read (world (run (handleAdd env args) w).2)).
Proof.
  intros Hread Hw Hlen. rewrite <- Hread in Hw.
  destruct args as [|team [|memberID rest]]; [done..|]. cbn in Hlen. lia.
Qed.

Lemma remove_unique (env : Env) (args : list string) (w : World) :
  as_read w = w → UniqueMembers w →
  UniqueMembers (as_read (world (run (handleRemove env args) w).2)).
Proof.
  intros Hread Hw. pose proof (unique_as_read w Hread Hw) as Hsame.
  destruct (as_read_files w Hread) as (Hfile & _ & _).
  unfold handleRemove, teams_set, UniqueMembers, as_read. cbn [teams_json].
  destruct args as [|team [|memberID rest]]; run_io; [done..|].
  destruct (load _ (teams_json w)) as [[[g|]]|err] eqn:Hload; run_io;
    try done.
  destruct (g !! team) as [t|] eqn:Hteam; run_io; [|done].
  destruct (find_member memberID (Team.Members t)) as [[i member]|] eqn:Hfind;
    run_io; [|done].
  assert (UniqueFile
            (json_file json_Teams
               (written (WriteFile env TeamsFile)
                  (Teams.mk (Some (<[team := Team.mk (take i (Team.Members t)
                     ++ drop (S i) (Team.Members t))]> g)))
                  (teams_json w)))) as Hnew.
  { apply unique_read_written; [|done]. intros team' t'. cbn.
    rewrite lookup_insert. case_decide.
    - intros [= <-]. unfold team_ids. cbn.
      rewrite <- delete_take_drop, !list_fmap_delete.
      eapply sublist_NoDup; [|apply sublist_delete].
      exact (loaded_unique_kept (teams_json w) (Teams.mk (Some g)) team t
               Hfile Hw Hload Hteam).
    - intros Hin.
      exact (loaded_unique_kept (teams_json w) (Teams.mk (Some g)) team' t'
               Hfile Hw Hload Hin). }
  by destruct (WriteFile env TeamsFile).
Qed.

(** The teams a pass computes hold, under the names read, the member ids
    read. *)
Lemma refreshed_ids_kept (file : File Teams.t) (env : Env)
    (channelID : string) (members : list string) (i : nat)
    (users users' : Users) (teams teams' : Teams.t) (team : string)
    (t' : Team.t) :
  json_file json_Teams file = file →
  load (Teams.mk make_map) file = inl teams →
  refreshAll env channelID members i users teams = Some (users', teams') →
  map_get (Teams.Teams teams') team = Some t' →
  json_string team = team
  ∧ json_string <$> team_ids t' = team_ids t'
  ∧ ∃ t, map_get (Teams.Teams teams) team = Some t ∧ team_ids t' = team_ids t.
Proof.
  intros Hfile Hload Hloop Hteam.
  pose proof (refreshAll_ids _ _ _ _ _ _ _ _ team Hloop) as Hids.
  rewrite Hteam in Hids. cbn in Hids.
  destruct (map_get (Teams.Teams teams) team) as [t|] eqn:Ht; [|done].
  injection Hids as Hids.
  destruct (loaded_ids_kept file teams team t Hfile Hload Ht) as [Hk Hkept].
  split; [done|]. split; [by rewrite Hids|]. by exists t.
Qed.

Lemma pass_outcome_unique (env : Env) (channelID : string) (w : World) :
  json_file json_Teams (teams_json w) = teams_json w →
  UniqueFile (teams_json w) →
  UniqueFile
    (json_file json_Teams (teams_json (pass_outcome env channelID w).2)).
Proof.
  intros Hfile Hw.
  assert (UniqueFile (json_file json_Teams (teams_json w))) as Hsame
    by (by rewrite Hfile).
  unfold pass_outcome.
  destruct (load make_map (users_json w)) as [users|]; [|done].
  destruct (load _ (teams_json w)) as [teams|] eqn:Hload; [|done].
  destruct (GetUsersInConversation env channelID) as [members|]; [|done].
  destruct (refreshAll _ _ _ _ _ _) as [[users' teams']|] eqn:Hloop; [|done].
  cbn. apply unique_read_written; [|done]. intros team t' Hteam.
  destruct (refreshed_ids_kept (teams_json w) env channelID members 0 users
              users' teams teams' team t' Hfile Hload Hloop Hteam)
    as (_ & -> & t & Ht & ->).
  by apply (unique_loaded _ _ Hw Hload team t).
Qed.

(** The ids read back after a pass are, team by team, the ids read before
    it. *)
Lemma pass_keeps_ids (env : Env) (channelID : string) (w : World)
    (teams teams' : Teams.t) (team : string) :
  as_read w = w →
  teams_json w = Bytes (Json teams) →
  teams_json (as_read (world (run (updateUserInfoForChannel env channelID) w).2))
    = Bytes (Json teams') →
  team_ids <$> map_get (Teams.Teams teams') team
  = team_ids <$> map_get (Teams.Teams teams) team.
Proof.
  intros Hread Hfile. destruct (as_read_files w Hread) as (Hkept & _ & _).
  destruct (pass_run env channelID w) as [_ ->].
  assert (teams_json (as_read w) = Bytes (Json teams') →
          team_ids <$> map_get (Teams.Teams teams') team
          = team_ids <$> map_get (Teams.Teams teams) team) as Hsame.
  { rewrite Hread, Hfile. by intros [= <-]. }
  unfold pass_outcome.
  destruct (load make_map (users_json w)) as [users|]; [|done].
  destruct (load _ (teams_json w)) as [teams0|] eqn:Hload; [|done].
  destruct (GetUsersInConversation env channelID) as [members|]; [|done].
  destruct (refreshAll _ _ _ _ _ _) as [[users' teams1]|] eqn:Hloop; [|done].
  unfold as_read, world_after_pass. cbn [teams_json snd].
  destruct (WriteFile env TeamsFile) as [|err [|]]; cbn [written json_file];
    [|done|].
  2:{ rewrite Hkept, Hfile. by intros [= <-]. }
  intros [= <-].
  assert (teams0 = teams) as -> by (rewrite Hfile in Hload; by injection Hload).
  rewrite <- (refreshAll_ids _ _ _ _ _ _ _ _ team Hloop).
  destruct teams1 as [[g1|]]; [|done]. unfold json_Teams. cbn.
  rewrite json_map_keys_kept.
  - rewrite lookup_fmap. destruct (g1 !! team) as [t1|] eqn:Ht1; [|done].
    cbn. f_equal. rewrite json_Team_ids.
    by destruct (refreshed_ids_kept (teams_json w) env channelID members 0
                   users users' teams (Teams.mk (Some g1)) team t1 Hkept
                   Hload Hloop Ht1)
      as (_ & -> & _).
  - intros k v Hk.
    by destruct (refreshed_ids_kept (teams_json w) env channelID members 0
                   users users' teams (Teams.mk (Some g1)) k v Hkept Hload
                   Hloop Hk).
Qed.

(** add turns down a member id the team already holds, touching nothing. *)
Lemma add_rejects_present (env : Env) (w : World) (teams : Teams.t)
    (team memberID : string) (rest : list string) (t : Team.t) :
  teams_json w = Bytes (Json teams) →
  map_get (Teams.Teams teams) team = Some t →
  memberID ∈ team_ids t →
  run (handleAdd env (team :: memberID :: rest)) w
  = (Exit (Error ("User " +:+ memberID +:+ " is already in team '" +:+ team
                  +:+ "'.")),
     mkSt w []).
Proof.
  intros Hfile Hteam Hin. unfold handleAdd. run_io.
  rewrite Hfile. run_io. rewrite Hteam. run_io.
  destruct (find_member memberID (Team.Members t)) eqn:Hfind; [by run_io|].
  by apply find_member_None in Hfind.
Qed.

Lemma command_unique (env : Env) (args : list string)
    (channelID channelName : string) (w : World) :
  as_read w = w → UniqueMembers w →
  (∀ team memberID rest,
     args = "add" :: team :: memberID :: rest →
     json_string memberID = memberID) →
  UniqueMembers
    (as_read (world (run (handleSlackCommand env args channelID channelName)
                       w).2)).
Proof.
  intros Hread Hw Hadd.
  assert (UniqueMembers (as_read w)) as Hsame by (by rewrite Hread).
  unfold handleSlackCommand.
  destruct args as [|action rest]; [done|].
  repeat case_decide; try done.
  - by apply createTeam_unique.
  - by apply removeTeam_unique.
  - subst action. destruct rest as [|team [|memberID rest]].
    + apply add_short_unique; [done..|cbn; lia].
    + apply add_short_unique; [done..|cbn; lia].
    + apply add_unique; [done..|]. by eapply Hadd.
  - by apply remove_unique.
  - by rewrite print_state.
  - by rewrite invite_state.
  - by rewrite ping_keeps_world.
  - destruct (addChannel_frame env rest channelID channelName w)
      as (Ht & _ & _).
    unfold UniqueMembers, as_read in *. cbn [teams_json] in *.
    by rewrite Ht.
  - destruct (removeChannel_frame env rest w) as (Ht & _ & _).
    unfold UniqueMembers, as_read in *. cbn [teams_json] in *.
    by rewrite Ht.
Qed.

(** C8, as it holds on the code. On a store that is as it is read,
    uniqueness of member ids within every team, as the teams are read back,
    is preserved by every command of the router taken with the pass it
    starts (create-team, remove-team, remove, the commands that do not
    write the teams file, and add when JSON text holds the member id as it
    is) and by a refresh pass over any channel, whatever the Slack client
    and the file system answer.  On the way: add turns down a member id
    that is already in the team, and a pass leaves every team with the
    member ids it had. *)
Theorem member_ids_stay_unique (env : Env) (passEnv : string → Env)
    (w : World) :
  as_read w = w →
  UniqueMembers w →
  (∀ args channelID channelName,
     (∀ team memberID rest,
        args = "add" :: team :: memberID :: rest →
        json_string memberID = memberID) →
     UniqueMembers
       (as_read
          (world (command_and_started env passEnv args channelID channelName
                    w).2)))
  ∧ (∀ channelID,
       UniqueMembers
         (as_read (world (run (updateUserInfoForChannel env channelID) w).2)))
  ∧ (∀ teams team memberID rest t,
       teams_json w = Bytes (Json teams) →
       map_get (Teams.Teams teams) team = Some t →
       memberID ∈ team_ids t →
       run (handleAdd env (team :: memberID :: rest)) w
       = (Exit (Error ("User " +:+ memberID +:+ " is already in team '"
                       +:+ team +:+ "'.")),
          mkSt w []))
  ∧ (∀ channelID teams teams' team,
       teams_json w = Bytes (Json teams) →
       teams_json
         (as_read (world (run (updateUserInfoForChannel env channelID) w).2))
         = Bytes (Json teams') →
       team_ids <$> map_get (Teams.Teams teams') team
       = team_ids <$> map_get (Teams.Teams teams) team).
Proof.
  intros Hread Hw. destruct (as_read_files w Hread) as (Hfile & _ & _).
  split_and!.
  - intros args channelID channelName Hadd.
    destruct (command_and_started_cases env passEnv args channelID
                channelName w)
      as [->|(rest & tr & _ & _ & Ht & _ & -> & _)].
    + by apply command_unique.
    + unfold UniqueMembers, as_read. cbn [teams_json world snd].
      apply pass_outcome_unique; by rewrite Ht.
  - intros channelID. destruct (pass_run env channelID w) as [_ ->].
    unfold UniqueMembers, as_read. cbn [teams_json].
    by apply pass_outcome_unique.
  - intros. by eapply add_rejects_present.
  - intros. by eapply pass_keeps_ids.
Qed.

Lemma eng_world_unique : UniqueMembers eng_world.
Proof.
  intros teams [= <-] team t. cbn.
  intros [<- <-]%lookup_singleton_Some. cbn.
  apply NoDup_singleton.
Qed.

Lemma member_ids_stay_unique_witness :
  (∀ args channelID channelName,
     (∀ team memberID rest,
        args = "add" :: team :: memberID :: rest →
        json_string memberID = memberID) →
     UniqueMembers
       (as_read
          (world (command_and_started ada_env (λ _, ada_env) args channelID
                    channelName eng_world).2)))
  ∧ (∀ channelID,
       UniqueMembers
         (as_read
            (world (run (updateUserInfoForChannel ada_env channelID)
                      eng_world).2)))
  ∧ (∀ teams team memberID rest t,
       teams_json eng_world = Bytes (Json teams) →
       map_get (Teams.Teams teams) team = Some t →
       memberID ∈ team_ids t →
       run (handleAdd ada_env (team :: memberID :: rest)) eng_world
       = (Exit (Error ("User " +:+ memberID +:+ " is already in team '"
                       +:+ team +:+ "'.")),
          mkSt eng_world []))
  ∧ (∀ channelID teams teams' team,
       teams_json eng_world = Bytes (Json teams) →
       teams_json
         (as_read
            (world (run (updateUserInfoForChannel ada_env channelID)
                      eng_world).2))
         = Bytes (Json teams') →
       team_ids <$> map_get (Teams.Teams teams') team
       = team_ids <$> map_get (Teams.Teams teams) team).
Proof.
  apply (member_ids_stay_unique ada_env (λ _, ada_env) eng_world).
  - vm_compute. reflexivity.
  - exact eng_world_unique.
Defined.

(** Team eng holds Bob and a member whose id is [replaced_id]. *)
Definition replaced_world : World :=
  mkWorld
    (Bytes (Json (Teams.mk (Some
       {[ "eng" := Team.mk [Member.mk "U7" "Bob" (Some ∅);
                            Member.mk replaced_id "Eve" (Some ∅)] ]}))))
    (Bytes (Json (Some ∅))) (Bytes (Json (Some ∅))).

(** C8, counterexample. In [replaced_world], which is as it is read, the
    member ids of team eng are unique.  add of [bad_id] to eng passes the
    check for an id already in the team, as no stored id is equal to it,
    and answers with success; the teams file then holds the id as JSON text
    does, and the team read back has the id [replaced_id] twice. *)
Lemma add_makes_duplicate :
  as_read replaced_world = replaced_world
  ∧ UniqueMembers replaced_world
  ∧ ∃ s1 t,
      command_and_started eve_env (λ _, eve_env) ["add"; "eng"; bad_id] "C1"
        "general" replaced_world
      = (Exit (Success ("Added user Eve (" +:+ bad_id
                        +:+ ") to team 'eng'.")),
         s1)
      ∧ teams_json (as_read (world s1))
        = Bytes (Json (Teams.mk (Some {[ "eng" := t ]})))
      ∧ team_ids t = ["U7"; replaced_id; replaced_id].
Proof.
  split; [vm_compute; reflexivity|]. split.
  - intros teams [= <-] team t. cbn.
    intros [<- <-]%lookup_singleton_Some.
    apply (bool_decide_unpack _). vm_compute. exact I.
  - exists (command_and_started eve_env (λ _, eve_env) ["add"; "eng"; bad_id]
              "C1" "general" replaced_world).2,
      (Team.mk [Member.mk "U7" "Bob" (Some ∅);
                Member.mk replaced_id "Eve" (Some ∅);
                Member.mk replaced_id "Eve" (Some ∅)]).
    split_and!; vm_compute; reflexivity.
Qed.

(** ** Channel name resolution *)

(** [range] may walk a map in any order, but it visits every entry once. *)
Definition walks_every_channel (env : Env) : Prop :=
  ∀ g, range_channels env g ≡ₚ map_to_list g.

Lemma find_channel_first (channelName : string)
    (entries : list (string * Channel.t)) :
  (find_channel channelName entries = ""
   ∧ Forall (λ e, Channel.Name e.2 ≠ channelName) entries)
  ∨ ∃ before c after,
      entries = before ++ (find_channel channelName entries, c) :: after
      ∧ Forall (λ e, Channel.Name e.2 ≠ channelName) before
      ∧ Channel.Name c = channelName.
Proof.
  induction entries as [|[id channel] rest IH]; cbn.
  - left. by split.
  - case_decide as Hname.
    + right. exists [], channel, rest. by split_and!.
    + destruct IH as [[Hnone Hall]|(before & c & after & Hsplit & Hall & Hc)].
      * left. split; [done|]. by constructor.
      * right. exists ((id, channel) :: before), c, after. split_and!.
        -- cbn. by rewrite <- Hsplit.
        -- by constructor.
        -- done.
Qed.

Lemma resolveChannel_cases (env : Env) (g : gmap string Channel.t)
    (channelName : string) :
  range_channels env g ≡ₚ map_to_list g →
  (resolveChannel env (Some g) channelName = ""
   ∧ ∀ id c, g !! id = Some c → Channel.Name c ≠ channelName)
  ∨ ∃ before c after,
      range_channels env g
        = before ++ (resolveChannel env (Some g) channelName, c) :: after
      ∧ Forall (λ e, Channel.Name e.2 ≠ channelName) before
      ∧ Channel.Name c = channelName
      ∧ g !! resolveChannel env (Some g) channelName = Some c.
Proof.
  intros Hwalk. unfold resolveChannel. cbn.
  destruct (find_channel_first channelName (range_channels env g))
    as [[Hnone Hall]|(before & c & after & Hsplit & Hall & Hc)].
  - left. split; [done|]. intros id c Hin.
    apply elem_of_map_to_list in Hin. rewrite <- Hwalk in Hin.
    rewrite Forall_forall in Hall. apply (Hall _ Hin).
  - right. exists before, c, after. split_and!; try done.
    apply elem_of_map_to_list. rewrite <- Hwalk.
    generalize dependent (find_channel channelName (range_channels env g)).
    intros id ->. apply elem_of_app. right. left.
Qed.

(** C4, as it holds on the code. Resolution scans the entries of the
    Channels collection in the order [range] yields them, comparing the
    stored name for exact equality, and returns the key of the first match
    in that order (the empty id when there is none).  When at most one
    tracked channel has the name, every order gives the same answer. *)
Theorem resolveChannel_first_match (env : Env) (g : gmap string Channel.t)
    (channelName : string) :
  range_channels env g ≡ₚ map_to_list g →
  ((resolveChannel env (Some g) channelName = ""
    ∧ ∀ id c, g !! id = Some c → Channel.Name c ≠ channelName)
   ∨ ∃ before c after,
       range_channels env g
         = before ++ (resolveChannel env (Some g) channelName, c) :: after
       ∧ Forall (λ e, Channel.Name e.2 ≠ channelName) before
       ∧ Channel.Name c = channelName
       ∧ g !! resolveChannel env (Some g) channelName = Some c)
  ∧ ((∀ id1 id2 c1 c2,
        g !! id1 = Some c1 → g !! id2 = Some c2 →
        Channel.Name c1 = channelName → Channel.Name c2 = channelName →
        id1 = id2) →
     ∀ env',
       range_channels env' g ≡ₚ map_to_list g →
       resolveChannel env' (Some g) channelName
       = resolveChannel env (Some g) channelName).
Proof.
  intros Hwalk. split; [by apply resolveChannel_cases|].
  intros Hunique env' Hwalk'.
  destruct (resolveChannel_cases env g channelName Hwalk)
    as [[Hnone Hall]|(_ & c & _ & _ & _ & Hc & Hin)];
    destruct (resolveChannel_cases env' g channelName Hwalk')
      as [[Hnone' Hall']|(_ & c' & _ & _ & _ & Hc' & Hin')].
  - by rewrite Hnone, Hnone'.
  - by destruct (Hall _ _ Hin').
  - by destruct (Hall' _ _ Hin).
  - by apply (Hunique _ _ c' c).
Qed.

Definition two_generals : gmap string Channel.t :=
  {[ "C1" := Channel.mk "C1" "general"; "C2" := Channel.mk "C2" "general" ]}.

(** The same workspace as [quiet_env], walking maps backwards. *)
Definition backwards_env : Env :=
  mkEnv (GetUserInfo quiet_env) (GetUsersInConversation quiet_env)
    (JoinConversation quiet_env) (PostMessage quiet_env) (WriteFile quiet_env)
    (λ g, reverse (map_to_list g)) (λ g, reverse (map_to_list g))
    (Now quiet_env).

Definition general_and_random : gmap string Channel.t :=
  {[ "C1" := Channel.mk "C1" "general"; "C3" := Channel.mk "C3" "random" ]}.

Lemma resolveChannel_first_match_witness :
  ((resolveChannel quiet_env (Some general_and_random) "random" = ""
    ∧ ∀ id c, general_and_random !! id = Some c → Channel.Name c ≠ "random")
   ∨ ∃ before c after,
       range_channels quiet_env general_and_random
         = before
           ++ (resolveChannel quiet_env (Some general_and_random) "random", c)
              :: after
       ∧ Forall (λ e, Channel.Name e.2 ≠ "random") before
       ∧ Channel.Name c = "random"
       ∧ general_and_random
           !! resolveChannel quiet_env (Some general_and_random) "random"
         = Some c)
  ∧ ((∀ id1 id2 c1 c2,
        general_and_random !! id1 = Some c1 →
        general_and_random !! id2 = Some c2 →
        Channel.Name c1 = "random" → Channel.Name c2 = "random" →
        id1 = id2) →
     ∀ env',
       range_channels env' general_and_random
         ≡ₚ map_to_list general_and_random →
       resolveChannel env' (Some general_and_random) "random"
       = resolveChannel quiet_env (Some general_and_random) "random").
Proof.
  apply (resolveChannel_first_match quiet_env general_and_random "random").
  reflexivity.
Defined.

Example resolve_random :
  resolveChannel quiet_env (Some general_and_random) "random" = "C3"
  ∧ resolveChannel backwards_env (Some general_and_random) "random" = "C3".
Proof. vm_compute. done. Qed.

(** C4, counterexample. With two tracked channels named general, both walks
    below visit every entry of the same Channels collection, and the
    resolution of the name differs: it is not a function of the collection.
    remove-channel accordingly removes a different channel. *)
Lemma resolution_depends_on_walk :
  walks_every_channel quiet_env
  ∧ walks_every_channel backwards_env
  ∧ resolveChannel quiet_env (Some two_generals) "general" = "C1"
  ∧ resolveChannel backwards_env (Some two_generals) "general" = "C2"
  ∧ channels_json
      (world (run (handleRemoveChannel quiet_env ["general"])
                (mkWorld NoFile NoFile (Bytes (Json (Some two_generals))))).2)
    = Bytes (Json (Some {[ "C2" := Channel.mk "C2" "general" ]}))
  ∧ channels_json
      (world (run (handleRemoveChannel backwards_env ["general"])
                (mkWorld NoFile NoFile (Bytes (Json (Some two_generals))))).2)
    = Bytes (Json (Some {[ "C1" := Channel.mk "C1" "general" ]})).
Proof.
  split_and!.
  - intros g. reflexivity.
  - intros g. apply reverse_Permutation.
  - vm_compute. reflexivity.
  - vm_compute. reflexivity.
  - vm_compute. reflexivity.
  - vm_compute. reflexivity.
Qed.

(** ** Names after a refresh pass *)

(** On loaded collections: every member with id [id] carries the name of
    the Users entry of [id], when there is one. *)
Definition names_agree_at (users : Users) (teams : Teams.t) (id : string)
  : Prop :=
  ∀ u team t member,
    map_get users id = Some u →
    map_get (Teams.Teams teams) team = Some t →
    member ∈ Team.Members t →
    Member.MemberID member = id →
    Member.Name member = User.Name u.

(** The same on the store. *)
Definition NamesAgreeAt (w : World) (id : string) : Prop :=
  ∀ users teams,
    users_json w = Bytes (Json users) →
    teams_json w = Bytes (Json teams) →
    names_agree_at users teams id.

(** [id] is refreshed by a pass over [channelID]: Slack lists it in the
    channel, its profile is fetched, and it is not a bot. *)
Definition refreshed (env : Env) (channelID id : string) : Prop :=
  ∃ members userInfo,
    GetUsersInConversation env channelID = inl members
    ∧ id ∈ members
    ∧ GetUserInfo env id = inl userInfo
    ∧ UserInfo.IsBot userInfo = false.

Lemma refreshUser_same (channelID memberID displayName : string) (now : Z)
    (users users' : Users) :
  refreshUser channelID memberID displayName now users = Some users' →
  ∃ u c,
    map_get users' memberID = Some u
    ∧ User.Name u = displayName
    ∧ User.Channels u = Some c
    ∧ c !! channelID = Some memberID.
Proof.
  unfold refreshUser. destruct users as [g|]; cbn.
  - destruct (g !! memberID) as [u|]; cbn.
    + destruct (User.Channels u) as [c|]; cbn; [|done].
      intros [= <-]. eexists _, _. cbn. rewrite lookup_insert_eq.
      split_and!; try done. apply lookup_insert_eq.
    + intros [= <-]. eexists _, _. cbn. rewrite lookup_insert_eq.
      split_and!; try done. apply lookup_insert_eq.
  - done.
Qed.

Lemma refreshUser_other (channelID memberID displayName : string) (now : Z)
    (users users' : Users) (id : string) :
  refreshUser channelID memberID displayName now users = Some users' →
  id ≠ memberID →
  map_get users' id = map_get users id.
Proof.
  unfold refreshUser. destruct users as [g|]; cbn; [|done].
  intros Hstep Hne.
  destruct (g !! memberID) as [u|]; cbn in Hstep.
  - destruct (User.Channels u) as [c|]; cbn in Hstep; [|done].
    injection Hstep as <-. cbn. by apply lookup_insert_ne.
  - injection Hstep as <-. cbn. by apply lookup_insert_ne.
Qed.

Lemma refreshMember_same (channelID memberID displayName : string)
    (member : Member.t) :
  Member.MemberID member = memberID →
  Member.Name (refreshMember channelID memberID displayName member)
    = displayName
  ∧ ∃ c,
      Member.Channels (refreshMember channelID memberID displayName member)
        = Some c
      ∧ c !! channelID = Some memberID.
Proof.
  intros Hid. unfold refreshMember. rewrite decide_True by done. cbn.
  split; [done|]. eexists. split; [done|]. apply lookup_insert_eq.
Qed.

Lemma refreshMember_other (channelID memberID displayName : string)
    (member : Member.t) :
  Member.MemberID member ≠ memberID →
  refreshMember channelID memberID displayName member = member.
Proof. intros Hid. unfold refreshMember. by rewrite decide_False. Qed.

(** The members of a team after one iteration are the images of its
    members before. *)
Lemma refreshTeams_member (channelID memberID displayName : string)
    (teams : Teams.t) (team : string) (t' : Team.t) (member' : Member.t) :
  map_get (Teams.Teams (refreshTeams channelID memberID displayName teams))
    team = Some t' →
  member' ∈ Team.Members t' →
  ∃ t member,
    map_get (Teams.Teams teams) team = Some t
    ∧ member ∈ Team.Members t
    ∧ member' = refreshMember channelID memberID displayName member.
Proof.
  rewrite refreshTeams_lookup. intros (t & Ht & ->)%fmap_Some. cbn.
  intros (member & -> & Hin)%list_elem_of_fmap. by exists t, member.
Qed.

Lemma step_agree (channelID memberID displayName : string) (now : Z)
    (users users' : Users) (teams : Teams.t) (id : string) :
  refreshUser channelID memberID displayName now users = Some users' →
  memberID = id ∨ names_agree_at users teams id →
  names_agree_at users' (refreshTeams channelID memberID displayName teams) id.
Proof.
  intros Hstep Hcase u team t' member' Hu Ht' Hin Hid.
  destruct (refreshTeams_member _ _ _ _ _ _ _ Ht' Hin)
    as (t & member & Ht & Hmember & ->).
  rewrite refreshMember_id in Hid.
  destruct (decide (memberID = id)) as [->|Hne].
  - destruct (refreshUser_same _ _ _ _ _ _ Hstep)
      as (u' & c & Hu' & Hname & _).
    rewrite Hu in Hu'. injection Hu' as <-.
    rewrite Hname. by apply refreshMember_same.
  - destruct Hcase as [?|Hagree]; [done|].
    rewrite refreshMember_other by congruence.
    rewrite (refreshUser_other _ _ _ _ _ _ id Hstep) in Hu by done.
    by eapply Hagree.
Qed.

Lemma refreshAll_agree (env : Env) (channelID : string)
    (members : list string) (i : nat) (users users' : Users)
    (teams teams' : Teams.t) (id : string) :
  refreshAll env channelID members i users teams = Some (users', teams') →
  names_agree_at users teams id
  ∨ (id ∈ members
     ∧ ∃ userInfo, GetUserInfo env id = inl userInfo ∧ UserInfo.IsBot userInfo = false) →
  names_agree_at users' teams' id.
Proof.
  revert i users teams.
  induction members as [|memberID rest IH]; intros i users teams; cbn.
  - intros [= <- <-] [Hagree|[Hin _]]; [done|]. by apply elem_of_nil in Hin.
  - destruct (GetUserInfo env memberID) as [userInfo|err] eqn:Hinfo.
    + destruct (UserInfo.IsBot userInfo) eqn:Hbot.
      * intros Hloop Hcase. apply (IH _ _ _ Hloop).
        destruct Hcase as [?|[Hin (info & Hi & Hb)]]; [by left|right].
        apply elem_of_cons in Hin as [->|Hin]; [congruence|eauto].
      * destruct (refreshUser _ _ _ _ _) as [users1|] eqn:Hstep; [|done].
        intros Hloop Hcase. apply (IH _ _ _ Hloop).
        destruct (decide (memberID = id)) as [Heq|Hne].
        -- left. eapply step_agree; eauto.
        -- destruct Hcase as [Hagree|[Hin Hok]].
           ++ left. eapply step_agree; eauto.
           ++ right. apply elem_of_cons in Hin as [->|Hin]; [done|eauto].
    + intros Hloop Hcase. apply (IH _ _ _ Hloop).
      destruct Hcase as [?|[Hin (info & Hi & Hb)]]; [by left|right].
      apply elem_of_cons in Hin as [->|Hin]; [congruence|eauto].
Qed.

(** A pass that ran to its end read both collections, got the member list,
    and its loop did not panic. *)
Lemma pass_finished (env : Env) (channelID : string) (w : World) (s' : St) :
  run (updateUserInfoForChannel env channelID) w = (Val tt, s') →
  ∃ users teams members users' teams',
    load make_map (users_json w) = inl users
    ∧ load (Teams.mk make_map) (teams_json w) = inl teams
    ∧ GetUsersInConversation env channelID = inl members
    ∧ refreshAll env channelID members 0 users teams = Some (users', teams')
    ∧ world s' = world_after_pass env w users' teams'.
Proof.
  destruct (updateUserInfoForChannel_run env channelID w) as [tr ->].
  destruct (load make_map (users_json w)) as [users|]; [|done].
  destruct (load _ (teams_json w)) as [teams|]; [|done].
  destruct (GetUsersInConversation env channelID) as [members|]; [|done].
  destruct (refreshAll _ _ _ _ _ _) as [[users' teams']|] eqn:Hloop; [|done].
  intros [= <-]. by exists users, teams, members, users', teams'.
Qed.

Lemma loaded_agree (w : World) (users : Users) (teams : Teams.t) (id : string) :
  NamesAgreeAt w id →
  load make_map (users_json w) = inl users →
  load (Teams.mk make_map) (teams_json w) = inl teams →
  names_agree_at users teams id.
Proof.
  intros Hagree Husers Hteams.
  destruct (users_json w) as [|msg|[msg|v]] eqn:Hu; cbn in Husers;
    simplify_eq.
  { intros u team t member Hnone. cbn in Hnone. by rewrite lookup_empty in Hnone. }
  destruct (teams_json w) as [|msg|[msg|v']] eqn:Ht; cbn in Hteams;
    simplify_eq.
  { intros u team t member _ Hnone. cbn in Hnone.
    by rewrite lookup_empty in Hnone. }
  by apply Hagree.
Qed.

(** C1, as it holds on the code. After a refresh pass over [channelID]
    that ran to its end with both writes succeeding, the members with id
    [id] carry the name of the Users entry of [id] whenever [id] was
    refreshed by the pass (listed by Slack for the channel, profile fetched,
    not a bot), or whenever they already did before the pass. *)
Theorem pass_names_agree (env : Env) (channelID : string) (w : World)
    (s' : St) (id : string) :
  run (updateUserInfoForChannel env channelID) w = (Val tt, s') →
  WriteFile env UsersFile = WriteOK →
  WriteFile env TeamsFile = WriteOK →
  refreshed env channelID id ∨ NamesAgreeAt w id →
  NamesAgreeAt (world s') id.
Proof.
  intros Hrun Husers Hteams Hcase.
  apply pass_finished in Hrun
    as (users & teams & members & users' & teams' & Hu & Ht & Hm & Hloop & ->).
  unfold world_after_pass. rewrite Husers, Hteams.
  intros ? ? [= <-] [= <-].
  apply (refreshAll_agree _ _ _ _ _ _ _ _ _ Hloop).
  destruct Hcase as [(members' & userInfo & Hm' & Hin & Hinfo & Hbot)|Hagree].
  - right. rewrite Hm in Hm'. injection Hm' as <-. eauto.
  - left. by eapply loaded_agree.
Qed.

(** Team eng holds Bob and U123 under the name Ada L., while the Users
    entry of U123 is named A. Lovelace: the names do not agree. *)
Definition ada_stale_world : World :=
  mkWorld
    (Bytes (Json (Teams.mk (Some
       {[ "eng" := Team.mk [Member.mk "U7" "Bob" (Some ∅);
                            Member.mk "U123" "Ada L." (Some ∅)] ]}))))
    (Bytes (Json (Some {[ "U123" :=
       User.mk "U123" "A. Lovelace" 7 (Some ∅) ]})))
    (Bytes (Json (Some {[ "C1" := Channel.mk "C1" "general" ]}))).

Lemma pass_names_agree_witness :
  NamesAgreeAt
    (world (run (updateUserInfoForChannel ada_env "C1") ada_stale_world).2)
    "U123"
  ∧ teams_json
      (world (run (updateUserInfoForChannel ada_env "C1") ada_stale_world).2)
    = Bytes (Json (Teams.mk (Some
        {[ "eng" := Team.mk [Member.mk "U7" "Bob" (Some ∅);
                             Member.mk "U123" "Ada"
                               (Some {[ "C1" := "U123" ]})] ]})))
  ∧ users_json
      (world (run (updateUserInfoForChannel ada_env "C1") ada_stale_world).2)
    = Bytes (Json (Some {[ "U123" :=
        User.mk "U123" "Ada" 1000 (Some {[ "C1" := "U123" ]}) ]})).
Proof.
  split.
  - apply (pass_names_agree ada_env "C1" ada_stale_world
             (run (updateUserInfoForChannel ada_env "C1") ada_stale_world).2
             "U123").
    + vm_compute. reflexivity.
    + reflexivity.
    + reflexivity.
    + left. exists ["U123"], (UserInfo.mk "ada.l" "Ada" false).
      split_and!; [reflexivity| |reflexivity|reflexivity].
      apply list_elem_of_singleton. reflexivity.
  - split; vm_compute; reflexivity.
Defined.

(** A workspace where U1 is now Grace and the channel C1 holds only U2. *)
Definition grace_env : Env :=
  mkEnv
    (λ memberID,
       if decide (memberID = "U1") then inl (UserInfo.mk "ada" "Grace" false)
       else if decide (memberID = "U2") then inl (UserInfo.mk "bob" "Bob" false)
       else inr (ErrOther "user_not_found"))
    (λ _, inl ["U2"])
    (λ _, None) (λ _ _, None) (λ _, WriteOK) map_to_list map_to_list
    (λ n, 2000 + Z.of_nat n)%Z.

(** The store after [add eng U1] while U1 was Ada and [add ops U1] once U1
    is Grace: the second add renames the Users entry, not the member of
    eng. *)
Definition stale_world : World :=
  mkWorld
    (Bytes (Json (Teams.mk (Some
       {[ "eng" := Team.mk [Member.mk "U1" "Ada" (Some ∅)];
          "ops" := Team.mk [Member.mk "U1" "Grace" (Some ∅)] ]}))))
    (Bytes (Json (Some {[ "U1" := User.mk "U1" "Grace" 2000 (Some ∅) ]})))
    (Bytes (Json (Some {[ "C1" := Channel.mk "C1" "general" ]}))).

(** C1, counterexample. The pass over C1 runs to its end and both writes
    succeed, yet U1 has a Users entry named Grace while the member U1 of
    team eng is still named Ada: U1 is not in the channel, so the pass does
    not touch it.  The store it starts from is the one two adds leave. *)
Lemma pass_leaves_stale_name :
  world (run (handleAdd grace_env ["ops"; "U1"])
           (mkWorld
              (Bytes (Json (Teams.mk (Some
                 {[ "eng" := Team.mk [Member.mk "U1" "Ada" (Some ∅)];
                    "ops" := Team.mk [] ]}))))
              (Bytes (Json (Some {[ "U1" := User.mk "U1" "Ada" 1000 (Some ∅) ]})))
              (channels_json stale_world))).2
    = stale_world
  ∧ ∃ s' users teams u t member,
      run (updateUserInfoForChannel grace_env "C1") stale_world = (Val tt, s')
      ∧ WriteFile grace_env UsersFile = WriteOK
      ∧ WriteFile grace_env TeamsFile = WriteOK
      ∧ users_json (world s') = Bytes (Json users)
      ∧ teams_json (world s') = Bytes (Json teams)
      ∧ map_get users "U1" = Some u
      ∧ map_get (Teams.Teams teams) "eng" = Some t
      ∧ member ∈ Team.Members t
      ∧ Member.MemberID member = "U1"
      ∧ Member.Name member = "Ada"
      ∧ User.Name u = "Grace".
Proof.
  split; [vm_compute; reflexivity|].
  exists (run (updateUserInfoForChannel grace_env "C1") stale_world).2.
  eexists _, _, (User.mk "U1" "Grace" 2000 (Some ∅)),
    (Team.mk [Member.mk "U1" "Ada" (Some ∅)]), (Member.mk "U1" "Ada" (Some ∅)).
  split_and!; try (vm_compute; reflexivity).
  apply list_elem_of_singleton. reflexivity.
Qed.

(** ** Running the pass twice *)

(** Two Users entries that differ at most in [UpdatedAt]. *)
Definition same_but_time (a b : User.t) : Prop :=
  User.MemberID a = User.MemberID b
  ∧ User.Name a = User.Name b
  ∧ User.Channels a = User.Channels b.

Definition users_same_but_time (x y : Users) : Prop :=
  match x, y with
  | Some g, Some h => ∀ id, option_Forall2 same_but_time (g !! id) (h !! id)
  | None, None => True
  | _, _ => False
  end.

#[local] Instance same_but_time_refl : Reflexive same_but_time.
Proof. by intros a. Qed.

#[local] Instance same_but_time_trans : Transitive same_but_time.
Proof.
  intros a b c (? & ? & ?) (? & ? & ?). split_and!; congruence.
Qed.

Lemma users_same_refl (x : Users) : users_same_but_time x x.
Proof. destruct x as [g|]; cbn; [|done]. intros id. reflexivity. Qed.

Lemma users_same_trans (x y z : Users) :
  users_same_but_time x y → users_same_but_time y z →
  users_same_but_time x z.
Proof.
  destruct x as [g|], y as [h|], z as [k|]; cbn; try done.
  intros Hxy Hyz id. etrans; [apply Hxy|apply Hyz].
Qed.

(** The entry of [id] and every member with id [id] already carry [name]
    and the channel: an iteration for [id] has nothing left to change. *)
Definition settled (channelID id name : string) (users : Users)
    (teams : Teams.t) : Prop :=
  (∃ u c,
     map_get users id = Some u
     ∧ User.Name u = name
     ∧ User.Channels u = Some c
     ∧ c !! channelID = Some id)
  ∧ ∀ team t member,
      map_get (Teams.Teams teams) team = Some t →
      member ∈ Team.Members t →
      Member.MemberID member = id →
      Member.Name member = name
      ∧ ∃ c, Member.Channels member = Some c ∧ c !! channelID = Some id.

Lemma step_settles (channelID memberID displayName : string) (now : Z)
    (users users' : Users) (teams : Teams.t) :
  refreshUser channelID memberID displayName now users = Some users' →
  settled channelID memberID displayName users'
    (refreshTeams channelID memberID displayName teams).
Proof.
  intros Hstep. split; [by eapply refreshUser_same|].
  intros team t' member' Ht' Hin Hid.
  destruct (refreshTeams_member _ _ _ _ _ _ _ Ht' Hin)
    as (t & member & Ht & Hmember & ->).
  rewrite refreshMember_id in Hid. by apply refreshMember_same.
Qed.

Lemma step_keeps_settled (channelID id name memberID displayName : string)
    (now : Z) (users users' : Users) (teams : Teams.t) :
  settled channelID id name users teams →
  refreshUser channelID memberID displayName now users = Some users' →
  (memberID = id → displayName = name) →
  settled channelID id name users'
    (refreshTeams channelID memberID displayName teams).
Proof.
  intros [Huser Hmembers] Hstep Hsame.
  destruct (decide (memberID = id)) as [->|Hne].
  - rewrite <- (Hsame eq_refl). by eapply step_settles.
  - split.
    + by rewrite (refreshUser_other _ _ _ _ _ _ id Hstep).
    + intros team t' member' Ht' Hin Hid.
      destruct (refreshTeams_member _ _ _ _ _ _ _ Ht' Hin)
        as (t & member & Ht & Hmember & ->).
      rewrite refreshMember_id in Hid.
      rewrite refreshMember_other by congruence. by eapply Hmembers.
Qed.

Lemma refreshAll_settles (env : Env) (channelID : string)
    (members : list string) (i : nat) (users users' : Users)
    (teams teams' : Teams.t) (id : string) (userInfo : UserInfo.t) :
  refreshAll env channelID members i users teams = Some (users', teams') →
  GetUserInfo env id = inl userInfo →
  UserInfo.IsBot userInfo = false →
  id ∈ members ∨ settled channelID id (displayNameOf userInfo) users teams →
  settled channelID id (displayNameOf userInfo) users' teams'.
Proof.
  intros Hloop Hinfo Hbot. revert i users teams Hloop.
  induction members as [|memberID rest IH]; intros i users teams; cbn.
  - intros [= <- <-] [Hin|?]; [|done]. by apply elem_of_nil in Hin.
  - destruct (GetUserInfo env memberID) as [info|err] eqn:Hinfo'.
    + destruct (UserInfo.IsBot info) eqn:Hbot'.
      * intros Hloop Hcase. apply (IH _ _ _ Hloop).
        destruct Hcase as [Hin|?]; [left|by right].
        apply elem_of_cons in Hin as [->|Hin]; [congruence|done].
      * destruct (refreshUser _ _ _ _ _) as [users1|] eqn:Hstep; [|done].
        intros Hloop Hcase. apply (IH _ _ _ Hloop).
        destruct (decide (memberID = id)) as [->|Hne].
        -- right. rewrite Hinfo in Hinfo'. injection Hinfo' as <-.
           by eapply step_settles.
        -- destruct Hcase as [Hin|Hsettled].
           ++ left. apply elem_of_cons in Hin as [->|Hin]; done.
           ++ right. eapply step_keeps_settled; eauto. done.
    + intros Hloop Hcase. apply (IH _ _ _ Hloop).
      destruct Hcase as [Hin|?]; [left|by right].
      apply elem_of_cons in Hin as [->|Hin]; [congruence|done].
Qed.

Lemma settled_member_fixed (channelID id name : string) (member : Member.t) :
  (Member.MemberID member = id →
   Member.Name member = name
   ∧ ∃ c, Member.Channels member = Some c ∧ c !! channelID = Some id) →
  refreshMember channelID id name member = member.
Proof.
  intros Hsettled. unfold refreshMember. case_decide as Hid; [|done].
  destruct (Hsettled Hid) as (Hname & c & Hc & Hch).
  destruct member as [mid mname mchannels]. cbn in *. subst.
  by rewrite insert_id.
Qed.

Lemma settled_step_noop (channelID id name : string) (now : Z)
    (users : Users) (teams : Teams.t) :
  settled channelID id name users teams →
  ∃ users',
    refreshUser channelID id name now users = Some users'
    ∧ users_same_but_time users' users
    ∧ refreshTeams channelID id name teams = teams.
Proof.
  intros [(u & c & Hu & Hname & Hc & Hch) Hmembers].
  destruct users as [g|]; [|done]. cbn in Hu.
  unfold refreshUser. cbn. rewrite Hu. cbn. rewrite Hc. cbn.
  eexists. split; [reflexivity|]. split.
  - intros id'. rewrite lookup_insert. case_decide as Hid.
    + subst id'. rewrite Hu. constructor. cbn.
      rewrite insert_id by done. by split_and!.
    + reflexivity.
  - destruct teams as [[h|]]; unfold refreshTeams; cbn; [|done].
    do 2 f_equal.
    etrans; [apply (map_fmap_ext _ Datatypes.id)|apply map_fmap_id].
    intros team t Ht. destruct t as [l]. unfold refreshTeam. cbn. f_equal.
    etrans; [apply (list_fmap_ext _ Datatypes.id)|apply list_fmap_id].
    intros j member Hj. apply settled_member_fixed.
    intros Hid. apply (Hmembers team (Team.mk l) member); try done.
    by eapply list_elem_of_lookup_2.
Qed.

Lemma settled_same_users (channelID id name : string) (users users' : Users)
    (teams : Teams.t) :
  settled channelID id name users teams →
  users_same_but_time users' users →
  settled channelID id name users' teams.
Proof.
  intros [(u & c & Hu & Hname & Hc & Hch) Hmembers] Hsame.
  split; [|done].
  destruct users as [g|], users' as [g'|]; try done. cbn in *.
  specialize (Hsame id). rewrite Hu in Hsame.
  inversion Hsame as [u' ? (_ & Hn & Hcs) Hu'|]. subst.
  exists u', c. split_and!; congruence.
Qed.

(** On collections where every refreshed id is settled, the loop changes
    nothing but timestamps. *)
Lemma refreshAll_noop (env : Env) (channelID : string)
    (members : list string) (i : nat) (users : Users) (teams : Teams.t) :
  (∀ id userInfo,
     id ∈ members → GetUserInfo env id = inl userInfo →
     UserInfo.IsBot userInfo = false →
     settled channelID id (displayNameOf userInfo) users teams) →
  ∃ users',
    refreshAll env channelID members i users teams = Some (users', teams)
    ∧ users_same_but_time users' users.
Proof.
  revert i users.
  induction members as [|memberID rest IH]; intros i users Hall; cbn.
  - exists users. split; [done|]. apply users_same_refl.
  - assert (∀ users1, users_same_but_time users1 users →
              ∃ users',
                refreshAll env channelID rest (S i) users1 teams
                  = Some (users', teams)
                ∧ users_same_but_time users' users) as Hrest.
    { intros users1 Hsame.
      destruct (IH (S i) users1) as (users' & Hloop & Hsame').
      - intros id userInfo Hin Hinfo Hbot.
        eapply settled_same_users; [|done].
        apply Hall; [by right|done..].
      - exists users'. split; [done|]. by eapply users_same_trans. }
    destruct (GetUserInfo env memberID) as [userInfo|err] eqn:Hinfo.
    + destruct (UserInfo.IsBot userInfo) eqn:Hbot.
      * apply Hrest, users_same_refl.
      * destruct (settled_step_noop channelID memberID
                    (displayNameOf userInfo) (Now env i) users teams)
          as (users1 & -> & Hsame & ->).
        { apply Hall; [by left|done..]. }
        by apply Hrest.
    + apply Hrest, users_same_refl.
Qed.

(** C2. A pass over [channelID] that ran to its end with both writes
    succeeding, followed by a second pass over the same channel for which
    Slack returns the same member list and the same profiles and whose
    writes succeed too: the second pass runs to its end, the teams file
    (every member name and channels mapping) is exactly what the first pass
    left, and the Users collection differs from it at most in the
    [UpdatedAt] of its entries. *)
Theorem pass_twice (env1 env2 : Env) (channelID : string) (w : World)
    (s1 : St) :
  run (updateUserInfoForChannel env1 channelID) w = (Val tt, s1) →
  WriteFile env1 UsersFile = WriteOK →
  WriteFile env1 TeamsFile = WriteOK →
  GetUsersInConversation env2 channelID
    = GetUsersInConversation env1 channelID →
  (∀ members id,
     GetUsersInConversation env1 channelID = inl members →
     id ∈ members →
     GetUserInfo env2 id = GetUserInfo env1 id) →
  WriteFile env2 UsersFile = WriteOK →
  WriteFile env2 TeamsFile = WriteOK →
  ∃ s2 users1 users2,
    run (updateUserInfoForChannel env2 channelID) (world s1) = (Val tt, s2)
    ∧ teams_json (world s2) = teams_json (world s1)
    ∧ channels_json (world s2) = channels_json (world s1)
    ∧ users_json (world s1) = Bytes (Json users1)
    ∧ users_json (world s2) = Bytes (Json users2)
    ∧ users_same_but_time users2 users1.
Proof.
  intros Hrun Hu1 Ht1 Hlist Hprofiles Hu2 Ht2.
  apply pass_finished in Hrun
    as (users & teams & members & users1 & teams1 & _ & _ & Hm & Hloop & ->).
  unfold world_after_pass. rewrite Hu1, Ht1. cbn.
  destruct (refreshAll_noop env2 channelID members 0 users1 teams1)
    as (users2 & Hloop2 & Hsame).
  { intros id userInfo Hin Hinfo Hbot.
    rewrite (Hprofiles members id Hm Hin) in Hinfo.
    eapply refreshAll_settles; eauto. }
  destruct (updateUserInfoForChannel_run env2 channelID
              (mkWorld (Bytes (Json teams1)) (Bytes (Json users1))
                 (channels_json w))) as [tr Hrun2].
  cbn in Hrun2. rewrite Hlist, Hm, Hloop2 in Hrun2.
  unfold world_after_pass in Hrun2. rewrite Hu2, Ht2 in Hrun2. cbn in Hrun2.
  eexists _, users1, users2. split; [exact Hrun2|]. by split_and!.
Qed.

(** [ada_env] at a later time. *)
Definition ada_later_env : Env :=
  mkEnv (GetUserInfo ada_env) (GetUsersInConversation ada_env)
    (JoinConversation ada_env) (PostMessage ada_env) (WriteFile ada_env)
    map_to_list map_to_list (λ n, 5000 + Z.of_nat n)%Z.

(** Team eng holds Bob and U123 under an old name, with no channel map. *)
Definition ada_member_world : World :=
  mkWorld
    (Bytes (Json (Teams.mk (Some
       {[ "eng" := Team.mk [Member.mk "U7" "Bob" (Some ∅);
                            Member.mk "U123" "Ada L." None] ]}))))
    NoFile
    (Bytes (Json (Some {[ "C1" := Channel.mk "C1" "general" ]}))).

Lemma pass_twice_witness :
  ∃ s2 users1 users2,
    run (updateUserInfoForChannel ada_later_env "C1")
      (world (run (updateUserInfoForChannel ada_env "C1")
                ada_member_world).2)
    = (Val tt, s2)
    ∧ teams_json (world s2)
      = teams_json
          (world (run (updateUserInfoForChannel ada_env "C1")
                    ada_member_world).2)
    ∧ channels_json (world s2)
      = channels_json
          (world (run (updateUserInfoForChannel ada_env "C1")
                    ada_member_world).2)
    ∧ users_json
        (world (run (updateUserInfoForChannel ada_env "C1")
                  ada_member_world).2)
      = Bytes (Json users1)
    ∧ users_json (world s2) = Bytes (Json users2)
    ∧ users_same_but_time users2 users1.
Proof.
  apply (pass_twice ada_env ada_later_env "C1" ada_member_world
           (run (updateUserInfoForChannel ada_env "C1") ada_member_world).2).
  - vm_compute. reflexivity.
  - reflexivity.
  - reflexivity.
  - reflexivity.
  - intros members id _ _. reflexivity.
  - reflexivity.
  - reflexivity.
Defined.

(** ** The walk over the teams map *)

(** The outer loop of the team update as the code runs it: entries are
    visited in the order [range] yields them, and the members of the
    visited team are rewritten in place. *)
Definition refreshTeams_walk (channelID memberID displayName : string)
    (walk : list (string * Team.t)) (g : gmap string Team.t)
  : gmap string Team.t :=
  foldl (λ acc entry,
           <[entry.1 := refreshTeam channelID memberID displayName entry.2]>
             acc)
    g walk.

Lemma walk_lookup_visited (channelID memberID displayName : string)
    (walk : list (string * Team.t)) (g : gmap string Team.t)
    (team : string) (t : Team.t) :
  NoDup walk.*1 → (team, t) ∈ walk →
  refreshTeams_walk channelID memberID displayName walk g !! team
  = Some (refreshTeam channelID memberID displayName t).
Proof.
  unfold refreshTeams_walk.
  induction walk as [|[team0 t0] walk IH] using rev_ind; intros Hnodup Hin.
  - by apply elem_of_nil in Hin.
  - rewrite foldl_snoc. cbn. rewrite fmap_app in Hnodup.
    apply NoDup_app in Hnodup as (Hnodup & Hdisjoint & _).
    apply elem_of_app in Hin as [Hin|Hin%list_elem_of_singleton].
    + rewrite lookup_insert_ne; [by apply IH|].
      intros ->. apply (Hdisjoint team).
      * by apply (list_elem_of_fmap_2 fst _ (team, t)).
      * cbn. by apply list_elem_of_singleton.
    + injection Hin as -> ->. apply lookup_insert_eq.
Qed.

Lemma walk_lookup_unvisited (channelID memberID displayName : string)
    (walk : list (string * Team.t)) (g : gmap string Team.t) (team : string) :
  team ∉ walk.*1 →
  refreshTeams_walk channelID memberID displayName walk g !! team = g !! team.
Proof.
  unfold refreshTeams_walk.
  induction walk as [|[team0 t0] walk IH] using rev_ind; intros Hout; [done|].
  rewrite foldl_snoc. cbn. rewrite fmap_app in Hout.
  apply not_elem_of_app in Hout as [Hout Hne].
  rewrite lookup_insert_ne; [by apply IH|].
  intros ->. apply Hne. cbn. by apply list_elem_of_singleton.
Qed.

(** Whatever order the walk takes, the loop computes [refreshTeams]. *)
Lemma refreshTeams_any_walk (env : Env) (channelID memberID displayName : string)
    (g : gmap string Team.t) :
  range_teams env g ≡ₚ map_to_list g →
  Teams.mk (Some (refreshTeams_walk channelID memberID displayName
                    (range_teams env g) g))
  = refreshTeams channelID memberID displayName (Teams.mk (Some g)).
Proof.
  intros Hwalk. unfold refreshTeams. cbn. do 2 f_equal.
  apply map_eq. intros team. rewrite lookup_fmap.
  destruct (g !! team) as [t|] eqn:Hteam; cbn.
  - apply walk_lookup_visited.
    + rewrite Hwalk. apply NoDup_fst_map_to_list.
    + rewrite Hwalk. by apply elem_of_map_to_list.
  - rewrite walk_lookup_unvisited; [done|].
    intros ([team' t] & Heq & Hin)%list_elem_of_fmap. cbn in Heq. subst team'.
    rewrite Hwalk in Hin. apply elem_of_map_to_list in Hin. congruence.
Qed.

(** ** The scenarios of the command reference *)

Definition empty_world : World := mkWorld NoFile NoFile NoFile.

Example create_then_add_then_print :
  let w1 := world (run (handleSlackCommand ada_env ["create-team"; "eng"]
                          "C1" "general") empty_world).2 in
  let r2 := run (handleSlackCommand ada_env ["add"; "eng"; "U123"]
                   "C1" "general") (as_read w1) in
  let r3 := run (handleSlackCommand ada_env ["print"; "members"; "eng"]
                   "C1" "general") (as_read (world r2.2)) in
  r2.1 = Exit (Success "Added user Ada (U123) to team 'eng'.")
  ∧ r3.1 = Exit (Success "Members of team 'eng': Ada (U123)").
Proof. vm_compute. done. Qed.

Example create_twice :
  let r1 := run (handleSlackCommand ada_env ["create-team"; "eng"]
                   "C1" "general") empty_world in
  let r2 := run (handleSlackCommand ada_env ["create-team"; "eng"]
                   "C1" "general") (as_read (world r1.2)) in
  r1.1 = Exit (Success "Team 'eng' has been created.")
  ∧ r2.1 = Exit (Error "Team 'eng' already exists.").
Proof. vm_compute. done. Qed.

Example remove_untracked_channel :
  (run (handleSlackCommand ada_env ["remove-channel"; "name"] "C1" "general")
     empty_world).1
  = Exit (Error "Channel #name is not being tracked.").
Proof. vm_compute. done. Qed.

(** * The rest of the program *)

(** ** Start-up files and the background loop *)

(** [os.Stat] followed by [os.IsNotExist]: only a missing file counts, a
    file that is there but cannot be read is left alone. *)
Definition file_missing {T} (file : File T) : bool :=
  match file with
  | NoFile => true
  | _ => false
  end.

(** What [os.Create] leaves: a file of zero bytes, which does not parse. *)
Definition created {T} : File T :=
  Bytes (Malformed "unexpected end of JSON input").

(** [ensureFileExists(filename)]; [create] is what [os.Create] returns.  A
    failed creation ends the process ([log.Fatalf]), modelled as an exit
    with the error; the error of the initial write is dropped, as in the
    code. *)
Definition ensureFileExists (env : Env) (create : option error)
    (filename : FileName) : M error unit :=
  w ← get_world;
  match filename with
  | TeamsFile =>
      if file_missing (teams_json w) then
        match create with
        | Some err => exit err
        | None =>
            put_world (mkWorld created (users_json w) (channels_json w));;
            _ ← writeTeams env (Teams.mk make_map);
            mret tt
        end
      else mret tt
  | UsersFile =>
      if file_missing (users_json w) then
        match create with
        | Some err => exit err
        | None =>
            put_world (mkWorld (teams_json w) created (channels_json w));;
            _ ← writeUsers env make_map;
            mret tt
        end
      else mret tt
  | ChannelsFile =>
      if file_missing (channels_json w) then
        match create with
        | Some err => exit err
        | None =>
            put_world (mkWorld (teams_json w) (users_json w) created);;
            _ ← writeChannels env make_map;
            mret tt
        end
      else mret tt
  end.

(** One turn of the endless loop of [updateUserInfo], without its sleep: a
    failed read of the channels is logged and the turn is over, otherwise
    every tracked channel gets its pass. *)
Definition updateUserInfo_round (env : Env) (passEnv : string → Env)
  : M error unit :=
  r ← readChannels;
  match r with
  | inr _ => mret tt
  | inl channels =>
      updateChannels passEnv (range_over (range_channels env) channels).*1
  end.

(** The three calls of [main]. *)
Definition ensureFiles (env : Env) (create : FileName → option error)
  : M error unit :=
  ensureFileExists env (create TeamsFile) TeamsFile;;
  ensureFileExists env (create UsersFile) UsersFile;;
  ensureFileExists env (create ChannelsFile) ChannelsFile.

(** * Further properties *)

(** ** Teams: create, remove, and commands on a team that is not there *)

Definition with_teams (w : World) (g : gmap string Team.t) : World :=
  mkWorld (Bytes (Json (Teams.mk (Some g)))) (users_json w) (channels_json w).

Lemma createTeam_run (env : Env) (w : World) (g : gmap string Team.t)
    (team : string) (rest : list string) :
  load (Teams.mk make_map) (teams_json w) = inl (Teams.mk (Some g)) →
  g !! team = None →
  WriteFile env TeamsFile = WriteOK →
  run (handleCreateTeam env (team :: rest)) w
  = (Exit (Success ("Team '" +:+ team +:+ "' has been created.")),
     mkSt (with_teams w (<[team := Team.mk []]> g)) []).
Proof.
  intros Hload Hnew Hwrite. unfold handleCreateTeam, teams_set. run_io.
  rewrite Hload. run_io. rewrite Hnew. run_io. rewrite Hwrite. by run_io.
Qed.

Lemma as_read_others (w : World) (teams : File Teams.t) :
  as_read w = w →
  as_read (mkWorld teams (users_json w) (channels_json w))
  = mkWorld (json_file json_Teams teams) (users_json w) (channels_json w).
Proof.
  intros Hread. destruct (as_read_files w Hread) as (_ & Hu & Hc).
  unfold as_read. cbn. by rewrite Hu, Hc.
Qed.

(** What is read back after a create-team that went through, for a name
    that JSON text holds as it is. *)
Lemma createTeam_read (env : Env) (w : World) (g : gmap string Team.t)
    (team : string) (rest : list string) :
  as_read w = w →
  load (Teams.mk make_map) (teams_json w) = inl (Teams.mk (Some g)) →
  g !! team = None →
  json_string team = team →
  WriteFile env TeamsFile = WriteOK →
  as_read (world (run (handleCreateTeam env (team :: rest)) w).2)
  = with_teams w (<[team := Team.mk []]> g).
Proof.
  intros Hread Hload Hnew Hteam Hwrite.
  rewrite (createTeam_run env w g team rest) by done.
  unfold with_teams. cbn [world snd]. rewrite as_read_others by done.
  cbn [json_file]. rewrite json_Teams_insert; [done| |done].
  intros k v. apply (loaded_teams_kept (teams_json w)); [|done].
  by destruct (as_read_files w Hread).
Qed.

(** X1. On a store that is as it is read and holds no team [team], a name
    that JSON text holds as it is: create-team whose write goes through
    answers with success, and what is read back holds the team with no
    member, the other teams and the other files as they were; create-team
    for the same name afterwards answers "already exists" and changes
    nothing. *)
Theorem create_team_then_again (env1 env2 : Env) (w : World)
    (g : gmap string Team.t) (team : string) (rest1 rest2 : list string) :
  as_read w = w →
  load (Teams.mk make_map) (teams_json w) = inl (Teams.mk (Some g)) →
  g !! team = None →
  json_string team = team →
  WriteFile env1 TeamsFile = WriteOK →
  ∃ w1,
    run (handleCreateTeam env1 (team :: rest1)) w
    = (Exit (Success ("Team '" +:+ team +:+ "' has been created.")),
       mkSt w1 [])
    ∧ as_read w1 = with_teams w (<[team := Team.mk []]> g)
    ∧ run (handleCreateTeam env2 (team :: rest2)) (as_read w1)
      = (Exit (Error ("Team '" +:+ team +:+ "' already exists.")),
         mkSt (as_read w1) []).
Proof.
  intros Hread Hload Hnew Hteam Hwrite.
  pose proof (createTeam_read env1 w g team rest1 Hread Hload Hnew Hteam
                Hwrite) as Hback.
  rewrite (createTeam_run env1 w g team rest1) in * by done.
  cbn [world snd] in Hback.
  eexists. split; [reflexivity|]. split; [done|]. rewrite Hback.
  unfold handleCreateTeam. run_io. rewrite lookup_insert_eq. by run_io.
Qed.

Lemma create_team_then_again_witness :
  ∃ w1,
    run (handleCreateTeam ada_env ["ops"]) eng_world
    = (Exit (Success "Team 'ops' has been created."), mkSt w1 [])
    ∧ as_read w1
      = with_teams eng_world (<["ops" := Team.mk []]> {[ "eng" := eng_team ]})
    ∧ run (handleCreateTeam quiet_env ["ops"; "again"]) (as_read w1)
      = (Exit (Error "Team 'ops' already exists."), mkSt (as_read w1) []).
Proof.
  apply (create_team_then_again ada_env quiet_env eng_world
           {[ "eng" := eng_team ]} "ops" [] ["again"]);
    vm_compute; reflexivity.
Defined.

(** X2. On a store that is as it is read, create-team for a new name that
    JSON text holds as it is, followed by remove-team of that name run on
    what is read back, both writes going through: the teams file holds the
    collection that was read before the create, and nothing else has
    changed. *)
Theorem create_then_remove_team (env1 env2 : Env) (w : World)
    (g : gmap string Team.t) (team : string) (rest1 rest2 : list string) :
  as_read w = w →
  load (Teams.mk make_map) (teams_json w) = inl (Teams.mk (Some g)) →
  g !! team = None →
  json_string team = team →
  WriteFile env1 TeamsFile = WriteOK →
  WriteFile env2 TeamsFile = WriteOK →
  run (handleRemoveTeam env2 (team :: rest2))
    (as_read (world (run (handleCreateTeam env1 (team :: rest1)) w).2))
  = (Exit (Success ("Team '" +:+ team +:+ "' has been removed.")),
     mkSt (with_teams w g) []).
Proof.
  intros Hread Hload Hnew Hteam Hwrite1 Hwrite2.
  rewrite (createTeam_read env1 w g team rest1) by done.
  unfold handleRemoveTeam. run_io. rewrite lookup_insert_eq. run_io.
  rewrite Hwrite2. run_io. rewrite delete_insert_eq.
  by rewrite delete_id.
Qed.

Lemma create_then_remove_team_witness :
  run (handleRemoveTeam ada_env ["ops"])
    (as_read (world (run (handleCreateTeam ada_env ["ops"]) eng_world).2))
  = (Exit (Success "Team 'ops' has been removed."),
     mkSt (with_teams eng_world {[ "eng" := eng_team ]}) []).
Proof.
  apply (create_then_remove_team ada_env ada_env eng_world
           {[ "eng" := eng_team ]} "ops" [] []); vm_compute; reflexivity.
Defined.

(** X3. On a readable store without team [team], every command that names
    the team (remove-team, add, remove, print members, invite, ping)
    answers that the team does not exist, writes nothing and calls nothing:
    in particular add does not look the user up. *)
Theorem missing_team_is_reported (env : Env) (w : World) (teams : Teams.t)
    (team memberID channelName : string) (rest : list string) :
  load (Teams.mk make_map) (teams_json w) = inl teams →
  map_get (Teams.Teams teams) team = None →
  let answer :=
    (Exit (Error ("Team '" +:+ team +:+ "' does not exist.")), mkSt w []) in
  run (handleRemoveTeam env (team :: rest)) w = answer
  ∧ run (handleAdd env (team :: memberID :: rest)) w = answer
  ∧ run (handleRemove env (team :: memberID :: rest)) w = answer
  ∧ run (printMembers team) w = answer
  ∧ run (handleInvite (team :: rest)) w = answer
  ∧ run (handlePing env (team :: channelName :: rest)) w = answer.
Proof.
  intros Hload Hnone answer. subst answer.
  unfold handleRemoveTeam, handleAdd, handleRemove, printMembers, handleInvite,
    handlePing.
  split_and!; run_io; rewrite Hload; run_io; rewrite Hnone; by run_io.
Qed.

Lemma missing_team_is_reported_witness :
  let answer :=
    (Exit (Error "Team 'ops' does not exist."), mkSt eng_world []) in
  run (handleRemoveTeam ada_env ["ops"]) eng_world = answer
  ∧ run (handleAdd ada_env ["ops"; "U123"]) eng_world = answer
  ∧ run (handleRemove ada_env ["ops"; "U123"]) eng_world = answer
  ∧ run (printMembers "ops") eng_world = answer
  ∧ run (handleInvite ["ops"]) eng_world = answer
  ∧ run (handlePing ada_env ["ops"; "general"]) eng_world = answer.
Proof.
  apply (missing_team_is_reported ada_env eng_world eng_teams "ops" "U123"
           "general" []); reflexivity.
Defined.

(** ** What a command may touch *)

Ltac in_list := rewrite ?elem_of_cons; auto 10.

(** X4. Which file a command can change, taken with the pass it starts:
    the teams file only under create-team, remove-team, add, remove and
    add-channel; the Users file only under add and add-channel; the
    channels file only under add-channel and remove-channel.  Under
    add-channel the teams and Users files are changed by the pass only,
    which never writes the channels file.  print, invite, ping, help and
    unknown actions change no file. *)
Theorem command_writes_only_its_files (env : Env) (passEnv : string → Env)
    (args : list string) (channelID channelName : string) (w : World) :
  let w' :=
    world (command_and_started env passEnv args channelID channelName w).2 in
  let handled :=
    world (run (handleSlackCommand env args channelID channelName) w).2 in
  (teams_json w' ≠ teams_json w →
   ∃ action rest,
     args = action :: rest
     ∧ action ∈ ["create-team"; "remove-team"; "add"; "remove"; "add-channel"])
  ∧ (users_json w' ≠ users_json w →
     ∃ action rest, args = action :: rest ∧ action ∈ ["add"; "add-channel"])
  ∧ (channels_json w' ≠ channels_json w →
     ∃ action rest,
       args = action :: rest ∧ action ∈ ["add-channel"; "remove-channel"])
  ∧ channels_json w' = channels_json handled
  ∧ ((∃ rest, args = "add-channel" :: rest) →
     teams_json handled = teams_json w ∧ users_json handled = users_json w).
Proof.
  cbn zeta.
  assert (∀ (P : Prop) action rest (l : list string),
            action ∈ l → P → ∃ action' rest',
              action :: rest = action' :: rest' ∧ action' ∈ l) as Hin.
  { intros P action rest l Hl _. by exists action, rest. }
  destruct (command_and_started_cases env passEnv args channelID channelName w)
    as [->|(rest & tr & -> & _ & Ht & Hu & -> & _)].
  2:{ cbn [snd world]. rewrite pass_outcome_channels.
      split_and!; try done; apply Hin; in_list. }
  unfold handleSlackCommand.
  destruct args as [|action rest].
  { split_and!; try done; try (by intros [? ?]). }
  repeat case_decide; subst.
  all: try (split_and!; try done; try (by intros [? [= ?]]); fail).
  - destruct (createTeam_frame env rest w) as (Hu & Hc & _).
    split_and!; try done; try (by intros [? [= ?]]). apply Hin. in_list.
  - destruct (removeTeam_frame env rest w) as (Hu & Hc & _).
    split_and!; try done; try (by intros [? [= ?]]). apply Hin. in_list.
  - destruct (add_frame env rest w) as (Hc & _).
    split_and!; try done; try (by intros [? [= ?]]); apply Hin; in_list.
  - destruct (remove_frame env rest w) as (Hu & Hc & _).
    split_and!; try done; try (by intros [? [= ?]]). apply Hin. in_list.
  - rewrite print_state. split_and!; try done; try (by intros [? [= ?]]).
  - rewrite invite_state. split_and!; try done; try (by intros [? [= ?]]).
  - rewrite ping_keeps_world.
    split_and!; try done; try (by intros [? [= ?]]).
  - destruct (addChannel_frame env rest channelID channelName w)
      as (Ht & Hu & _).
    split_and!; try done. apply Hin. in_list.
  - destruct (removeChannel_frame env rest w) as (Ht & Hu & _).
    split_and!; try done; try (by intros [? [= ?]]). apply Hin. in_list.
Qed.

(** X5. Which calls a command can make, taken with the pass it starts: a
    message is posted only by ping; the join and the start of a pass
    happen only under add-channel, for the channel of the command; the
    members of a channel are listed only by the pass that add-channel
    starts, for that channel; a profile is fetched only by add, for the
    member id it was given, and by that pass, for a member Slack listed in
    the channel. *)
Theorem command_calls_only_its_own (env : Env) (passEnv : string → Env)
    (args : list string) (channelID channelName : string) (w : World)
    (c : Call) :
  c ∈ calls (command_and_started env passEnv args channelID channelName w).2 →
  match c with
  | CallGetUserInfo memberID =>
      (∃ team rest, args = "add" :: team :: memberID :: rest)
      ∨ ∃ rest members,
          args = "add-channel" :: rest
          ∧ GetUsersInConversation (passEnv channelID) channelID = inl members
          ∧ memberID ∈ members
  | CallPostMessage _ _ => ∃ rest, args = "ping" :: rest
  | CallJoinConversation joined =>
      joined = channelID ∧ ∃ rest, args = "add-channel" :: rest
  | GoUpdateUserInfoForChannel started =>
      started = channelID ∧ ∃ rest, args = "add-channel" :: rest
  | CallGetUsersInConversation listed =>
      listed = channelID ∧ ∃ rest, args = "add-channel" :: rest
  end.
Proof.
  destruct (command_and_started_cases env passEnv args channelID channelName w)
    as [->|(rest & tr & -> & _ & _ & _ & -> & Htr)].
  2:{ cbn [snd calls].
      intros [Hin|Hin]%elem_of_app.
      - apply elem_of_cons in Hin as [->|Hin]; [eauto|].
        apply list_elem_of_singleton in Hin as ->. eauto.
      - rewrite Forall_forall in Htr.
        destruct (Htr c Hin) as [->|(members & id & Hlist & Hid & ->)];
          [eauto|]. right. by exists rest, members. }
  unfold handleSlackCommand.
  destruct args as [|action rest]; [by intros ?%elem_of_nil|].
  repeat case_decide; subst; try (by intros ?%elem_of_nil).
  - destruct (createTeam_frame env rest w) as (_ & _ & ->).
    by intros ?%elem_of_nil.
  - destruct (removeTeam_frame env rest w) as (_ & _ & ->).
    by intros ?%elem_of_nil.
  - destruct (add_frame env rest w)
      as (_ & [->|(team & memberID & rest' & -> & ->)]).
    + by intros ?%elem_of_nil.
    + intros ->%list_elem_of_singleton. eauto.
  - destruct (remove_frame env rest w) as (_ & _ & ->).
    by intros ?%elem_of_nil.
  - rewrite print_state. by intros ?%elem_of_nil.
  - rewrite invite_state. by intros ?%elem_of_nil.
  - destruct (ping_calls env rest w) as [->|(ch & text & ->)].
    + by intros ?%elem_of_nil.
    + intros ->%list_elem_of_singleton. eauto.
  - destruct (addChannel_frame env rest channelID channelName w)
      as (_ & _ & [->|[->| ->]]).
    + by intros ?%elem_of_nil.
    + intros ->%list_elem_of_singleton. eauto.
    + intros [->|[->|?%elem_of_nil]%elem_of_cons]%elem_of_cons; [eauto..|done].
  - destruct (removeChannel_frame env rest w) as (_ & _ & ->).
    by intros ?%elem_of_nil.
Qed.

Lemma command_calls_only_its_own_witness :
  (∃ team rest, ["add-channel"] = "add" :: team :: "U123" :: rest)
  ∨ ∃ rest members,
      ["add-channel"] = "add-channel" :: rest
      ∧ GetUsersInConversation ada_env "C2" = inl members
      ∧ "U123" ∈ members.
Proof.
  apply (command_calls_only_its_own ada_env (λ _, ada_env) ["add-channel"]
           "C2" "random" tracked_world (CallGetUserInfo "U123")).
  vm_compute. do 3 right. left.
Defined.

(** X6. A command that lacks its arguments is answered with an error and
    does nothing: no file is read into a write, no call is made.  This
    covers every action given alone (add-channel takes no argument), add,
    remove and ping given one argument, and print members without a
    team. *)
Theorem missing_arguments_do_nothing (env : Env) (w : World)
    (channelID channelName : string) :
  (∀ action,
     action ∈ ["create-team"; "remove-team"; "add"; "remove"; "print";
               "invite"; "ping"; "remove-channel"] →
     ∃ message,
       run (handleSlackCommand env [action] channelID channelName) w
       = (Exit (Error message), mkSt w []))
  ∧ (∀ action arg,
       action ∈ ["add"; "remove"; "ping"] →
       ∃ message,
         run (handleSlackCommand env [action; arg] channelID channelName) w
         = (Exit (Error message), mkSt w []))
  ∧ run (handleSlackCommand env ["print"; "members"] channelID channelName) w
    = (Exit (Error "Please provide a team name to print members."),
       mkSt w []).
Proof.
  split_and!.
  - intros action Hin. set_unfold in Hin.
    destruct_or!; subst; eexists; reflexivity.
  - intros action arg Hin. set_unfold in Hin.
    destruct_or!; subst; eexists; reflexivity.
  - reflexivity.
Qed.

(** ** Listings *)

(** X7. On a store that reads, with [range] visiting every entry, print
    teams lists exactly the names of the stored teams, each once, and print
    channels lists the stored name of every tracked channel, one per
    channel; an empty collection gives the "No ... found." text. *)
Theorem print_lists_every_entry (env : Env) (w : World)
    (g : gmap string Team.t) (h : gmap string Channel.t) :
  load (Teams.mk make_map) (teams_json w) = inl (Teams.mk (Some g)) →
  load make_map (channels_json w) = inl (Some h) →
  range_teams env g ≡ₚ map_to_list g →
  range_channels env h ≡ₚ map_to_list h →
  ∃ teamNames channelNames,
    run (printTeams env) w
    = (Exit (Success match teamNames with
                     | [] => "No teams found."
                     | _ => "Teams: " +:+ strings_Join teamNames ", "
                     end),
       mkSt w [])
    ∧ run (printChannels env) w
      = (Exit (Success match channelNames with
                       | [] => "No channels found."
                       | _ => "Channels: " +:+ strings_Join channelNames ", "
                       end),
         mkSt w [])
    ∧ NoDup teamNames
    ∧ (∀ team, team ∈ teamNames ↔ is_Some (g !! team))
    ∧ length channelNames = size h
    ∧ (∀ name, name ∈ channelNames
               ↔ ∃ id c, h !! id = Some c ∧ Channel.Name c = name).
Proof.
  intros Hteams Hchannels Hwalk_t Hwalk_c.
  exists (range_teams env g).*1,
    ((λ e, Channel.Name e.2) <$> range_channels env h).
  unfold printTeams, printChannels. run_io.
  rewrite Hteams, Hchannels. run_io. split_and!.
  - by destruct ((range_teams env g).*1).
  - by destruct ((λ e, Channel.Name e.2) <$> range_channels env h).
  - rewrite Hwalk_t. apply NoDup_fst_map_to_list.
  - intros team. rewrite Hwalk_t, list_elem_of_fmap. split.
    + intros ([team' t] & -> & Hin%elem_of_map_to_list). by exists t.
    + intros [t Ht]. exists (team, t). split; [done|].
      by apply elem_of_map_to_list.
  - rewrite length_fmap, Hwalk_c. apply length_map_to_list.
  - intros name. rewrite Hwalk_c, list_elem_of_fmap. split.
    + intros ([id c] & -> & Hin%elem_of_map_to_list). by exists id, c.
    + intros (id & c & Hc & <-). exists (id, c). split; [done|].
      by apply elem_of_map_to_list.
Qed.

Lemma print_lists_every_entry_witness :
  ∃ teamNames channelNames,
    run (printTeams ada_env) tracked_world
    = (Exit (Success match teamNames with
                     | [] => "No teams found."
                     | _ => "Teams: " +:+ strings_Join teamNames ", "
                     end),
       mkSt tracked_world [])
    ∧ run (printChannels ada_env) tracked_world
      = (Exit (Success match channelNames with
                       | [] => "No channels found."
                       | _ => "Channels: " +:+ strings_Join channelNames ", "
                       end),
         mkSt tracked_world [])
    ∧ NoDup teamNames
    ∧ (∀ team, team ∈ teamNames ↔ is_Some ((∅ : gmap string Team.t) !! team))
    ∧ length channelNames
      = size ({[ "C1" := Channel.mk "C1" "general" ]} : gmap string Channel.t)
    ∧ (∀ name, name ∈ channelNames
               ↔ ∃ id c,
                   ({[ "C1" := Channel.mk "C1" "general" ]}
                      : gmap string Channel.t) !! id = Some c
                   ∧ Channel.Name c = name).
Proof.
  apply (print_lists_every_entry ada_env tracked_world ∅
           {[ "C1" := Channel.mk "C1" "general" ]}); reflexivity.
Defined.

(** ** Members: add and remove *)

(** X8. After an add that answered with success on a store that is as it
    is read, for a member id that JSON text holds as it is: the team read
    back holds its former members followed by the new one, named as JSON
    text holds the name Slack gave and with an empty channels mapping;
    print members lists them in that order, and an add of the same id to
    the same team is turned down without a lookup. *)
Theorem add_appends_member (env1 env2 : Env) (w : World)
    (team memberID message : string) (s1 : St) :
  as_read w = w →
  json_string memberID = memberID →
  run (handleAdd env1 [team; memberID]) w = (Exit (Success message), s1) →
  ∃ g t userInfo,
    teams_json w = Bytes (Json (Teams.mk (Some g)))
    ∧ g !! team = Some t
    ∧ GetUserInfo env1 memberID = inl userInfo
    ∧ teams_json (as_read (world s1))
      = Bytes (Json (Teams.mk (Some
          (<[team := Team.mk (Team.Members t
               ++ [Member.mk memberID (json_string (displayNameOf userInfo))
                     (Some ∅)])]>
             g))))
    ∧ run (printMembers team) (as_read (world s1))
      = (Exit (Success ("Members of team '" +:+ team +:+ "': "
            +:+ strings_Join
                  ((memberEntry <$> Team.Members t)
                   ++ [memberEntry
                         (Member.mk memberID
                            (json_string (displayNameOf userInfo)) (Some ∅))])
                  ", ")),
         mkSt (as_read (world s1)) [])
    ∧ run (handleAdd env2 [team; memberID]) (as_read (world s1))
      = (Exit (Error ("User " +:+ memberID +:+ " is already in team '"
                      +:+ team +:+ "'.")),
         mkSt (as_read (world s1)) []).
Proof.
  intros Hread Hid Hadd.
  apply handleAdd_success in Hadd
    as (g & t & userInfo & Hfile & Hteam & Hfind & Hinfo & _ & _ & _ & ->).
  exists g, t, userInfo.
  destruct (as_read_files w Hread) as (Hteams & _ & _).
  assert (∀ k v, g !! k = Some v → json_string k = k ∧ json_Team v = v)
    as Hkept.
  { intros k v. apply (loaded_teams_kept (teams_json w)); [done|].
    by rewrite Hfile. }
  destruct (Hkept team t Hteam) as [Hteam_kept Ht_kept].
  assert (as_read
            (mkWorld
               (Bytes (Json (Teams.mk (Some
                  (<[team := Team.mk (Team.Members t
                       ++ [Member.mk memberID (displayNameOf userInfo)
                             make_map])]> g)))))
               (users_after_add env1 memberID (displayNameOf userInfo)
                  (users_json w))
               (channels_json w))
          = mkWorld
              (Bytes (Json (Teams.mk (Some
                 (<[team := Team.mk (Team.Members t
                      ++ [Member.mk memberID
                            (json_string (displayNameOf userInfo)) (Some ∅)])]>
                    g)))))
              (json_file json_Users
                 (users_after_add env1 memberID (displayNameOf userInfo)
                    (users_json w)))
              (json_file json_Channels (channels_json w))) as Hback.
  { unfold as_read. cbn [teams_json users_json channels_json json_file].
    by rewrite json_Teams_insert, json_Team_appended, json_Member_new. }
  cbn [world]. rewrite !Hback. clear Hback. split_and!; try done.
  - unfold printMembers. run_io. rewrite lookup_insert_eq. run_io.
    rewrite fmap_app. cbn.
    by destruct (memberEntry <$> Team.Members t).
  - unfold handleAdd. run_io. rewrite lookup_insert_eq. run_io.
    by rewrite find_member_appended.
Qed.

Lemma add_appends_member_witness :
  ∃ g t userInfo,
    teams_json eng_world = Bytes (Json (Teams.mk (Some g)))
    ∧ g !! "eng" = Some t
    ∧ GetUserInfo ada_env "U123" = inl userInfo
    ∧ teams_json
        (as_read (world (run (handleAdd ada_env ["eng"; "U123"]) eng_world).2))
      = Bytes (Json (Teams.mk (Some
          (<["eng" := Team.mk (Team.Members t
               ++ [Member.mk "U123" (json_string (displayNameOf userInfo))
                     (Some ∅)])]>
             g))))
    ∧ run (printMembers "eng")
        (as_read (world (run (handleAdd ada_env ["eng"; "U123"]) eng_world).2))
      = (Exit (Success ("Members of team '" +:+ "eng" +:+ "': "
            +:+ strings_Join
                  ((memberEntry <$> Team.Members t)
                   ++ [memberEntry
                         (Member.mk "U123"
                            (json_string (displayNameOf userInfo)) (Some ∅))])
                  ", ")),
         mkSt
           (as_read
              (world (run (handleAdd ada_env ["eng"; "U123"]) eng_world).2))
           [])
    ∧ run (handleAdd quiet_env ["eng"; "U123"])
        (as_read (world (run (handleAdd ada_env ["eng"; "U123"]) eng_world).2))
      = (Exit (Error ("User " +:+ "U123" +:+ " is already in team '"
                      +:+ "eng" +:+ "'.")),
         mkSt
           (as_read
              (world (run (handleAdd ada_env ["eng"; "U123"]) eng_world).2))
           []).
Proof.
  apply (add_appends_member ada_env quiet_env eng_world "eng" "U123"
           "Added user Ada (U123) to team 'eng'."
           (run (handleAdd ada_env ["eng"; "U123"]) eng_world).2);
    vm_compute; reflexivity.
Defined.

(** Everything a success response of remove tells about the invocation. *)
Lemma handleRemove_success (env : Env) (w : World) (team memberID : string)
    (rest : list string) (message : string) (s1 : St) :
  run (handleRemove env (team :: memberID :: rest)) w
    = (Exit (Success message), s1) →
  ∃ g t i member,
    teams_json w = Bytes (Json (Teams.mk (Some g)))
    ∧ g !! team = Some t
    ∧ find_member memberID (Team.Members t) = Some (i, member)
    ∧ message = "Removed user " +:+ memberID +:+ " from team '" +:+ team
                +:+ "'."
    ∧ s1 = mkSt (with_teams w
                   (<[team := Team.mk (take i (Team.Members t)
                                       ++ drop (S i) (Team.Members t))]> g))
             [].
Proof.
  unfold handleRemove, teams_set. run_io.
  destruct (teams_json w) as [|msg|[msg|[[g|]]]] eqn:Hteams; run_io;
    try discriminate.
  destruct (g !! team) as [t|] eqn:Hteam; run_io; try discriminate.
  destruct (find_member memberID (Team.Members t)) as [[i member]|] eqn:Hfind;
    run_io; try discriminate.
  destruct (WriteFile env TeamsFile) as [|err tr] eqn:Hwrite; run_io;
    try discriminate.
  intros [= <- <-]. by exists g, t, i, member.
Qed.

(** X9. A remove that answered with success took out the first member
    carrying the id, leaving the others in their order; the Users and
    channels files are untouched (the Users entry of the member stays).
    When the ids of the team were unique, the id is gone from the team and
    a second remove answers that the user is not in it. *)
Theorem remove_takes_first_out (env1 env2 : Env) (w : World)
    (team memberID message : string) (s1 : St) :
  run (handleRemove env1 [team; memberID]) w = (Exit (Success message), s1) →
  ∃ g t (i : nat) member,
    teams_json w = Bytes (Json (Teams.mk (Some g)))
    ∧ g !! team = Some t
    ∧ Team.Members t !! i = Some member
    ∧ Member.MemberID member = memberID
    ∧ (∀ (j : nat) earlier, (j < i)%nat → Team.Members t !! j = Some earlier →
                    Member.MemberID earlier ≠ memberID)
    ∧ teams_json (world s1)
      = Bytes (Json (Teams.mk (Some
          (<[team := Team.mk (delete i (Team.Members t))]> g))))
    ∧ users_json (world s1) = users_json w
    ∧ channels_json (world s1) = channels_json w
    ∧ (NoDup (team_ids t) →
       (memberID ∉ team_ids (Team.mk (delete i (Team.Members t))))
       ∧ run (handleRemove env2 [team; memberID]) (world s1)
         = (Exit (Error ("User " +:+ memberID +:+ " is not in team '"
                         +:+ team +:+ "'.")),
            mkSt (world s1) [])).
Proof.
  intros Hremove.
  apply handleRemove_success in Hremove
    as (g & t & i & member & Hfile & Hteam & Hfind & _ & ->).
  unfold find_member in Hfind.
  apply list_find_Some in Hfind as (Hi & Hid & Hfirst).
  exists g, t, i, member. rewrite <- delete_take_drop.
  split_and!; try done.
  { intros j earlier Hlt Hj. by eapply Hfirst. }
  intros Hnodup.
  assert (memberID ∉ team_ids (Team.mk (delete i (Team.Members t)))) as Hgone.
  { unfold team_ids in *. cbn. rewrite list_fmap_delete.
    intros (j & Hj)%list_elem_of_lookup_1.
    assert ((Member.MemberID <$> Team.Members t) !! i = Some memberID) as Hi'.
    { by rewrite list_lookup_fmap, Hi; cbn; rewrite Hid. }
    destruct (decide (j < i)%nat) as [Hlt|Hge].
    - rewrite list_lookup_delete_lt in Hj by done.
      pose proof (NoDup_lookup _ j i memberID Hnodup Hj Hi'). lia.
    - rewrite list_lookup_delete_ge in Hj by lia.
      pose proof (NoDup_lookup _ (S j) i memberID Hnodup Hj Hi'). lia. }
  split; [done|].
  unfold handleRemove. run_io. rewrite lookup_insert_eq. run_io.
  apply find_member_None in Hgone. by rewrite Hgone.
Qed.

Definition two_member_world : World :=
  mkWorld
    (Bytes (Json (Teams.mk (Some
       {[ "eng" := Team.mk [Member.mk "U7" "Bob" (Some ∅);
                            Member.mk "U123" "Ada" (Some ∅)] ]}))))
    (Bytes (Json (Some {[ "U123" := User.mk "U123" "Ada" 7 (Some ∅) ]})))
    (Bytes (Json (Some ∅))).

Lemma remove_takes_first_out_witness :
  ∃ g t (i : nat) member,
    teams_json two_member_world = Bytes (Json (Teams.mk (Some g)))
    ∧ g !! "eng" = Some t
    ∧ Team.Members t !! i = Some member
    ∧ Member.MemberID member = "U123"
    ∧ (∀ (j : nat) earlier, (j < i)%nat → Team.Members t !! j = Some earlier →
                    Member.MemberID earlier ≠ "U123")
    ∧ teams_json
        (world (run (handleRemove ada_env ["eng"; "U123"])
                  two_member_world).2)
      = Bytes (Json (Teams.mk (Some
          (<["eng" := Team.mk (delete i (Team.Members t))]> g))))
    ∧ users_json
        (world (run (handleRemove ada_env ["eng"; "U123"])
                  two_member_world).2)
      = users_json two_member_world
    ∧ channels_json
        (world (run (handleRemove ada_env ["eng"; "U123"])
                  two_member_world).2)
      = channels_json two_member_world
    ∧ (NoDup (team_ids t) →
       ("U123" ∉ team_ids (Team.mk (delete i (Team.Members t))))
       ∧ run (handleRemove quiet_env ["eng"; "U123"])
           (world (run (handleRemove ada_env ["eng"; "U123"])
                     two_member_world).2)
         = (Exit (Error ("User " +:+ "U123" +:+ " is not in team '"
                         +:+ "eng" +:+ "'.")),
            mkSt
              (world (run (handleRemove ada_env ["eng"; "U123"])
                        two_member_world).2)
              [])).
Proof.
  apply (remove_takes_first_out ada_env quiet_env two_member_world "eng"
           "U123" "Removed user U123 from team 'eng'."
           (run (handleRemove ada_env ["eng"; "U123"]) two_member_world).2).
  vm_compute. reflexivity.
Defined.

(** ** ping and the tracked channels *)

Lemma mentionsOf_nil (members : list Member.t) :
  mentionsOf members = [] ↔ Forall (λ m, Member.MemberID m = "") members.
Proof.
  unfold mentionsOf.
  induction members as [|m rest IH]; [by split|].
  rewrite filter_cons. case_decide as Hid; cbn.
  - split; [done|]. by intros [? _]%Forall_cons_1.
  - rewrite IH. split.
    + intros Hrest. constructor; [|done].
      by destruct (decide (Member.MemberID m = "")); [|destruct Hid].
    + by intros [_ ?]%Forall_cons_1.
Qed.

(** X10. When the team has a member with a non-empty id and the channel
    name resolves to a tracked id, ping posts exactly one message, to that
    id, made of the mention tokens of the members with a non-empty id,
    separated by one space and in team order.  The answer is success, or
    the error text of the post when it fails (nothing is retried); no file
    is written. *)
Theorem ping_posts_once (env : Env) (w : World) (teams : Teams.t)
    (channels : Channels) (team channelName : string) (rest : list string)
    (t : Team.t) :
  load (Teams.mk make_map) (teams_json w) = inl teams →
  map_get (Teams.Teams teams) team = Some t →
  load make_map (channels_json w) = inl channels →
  resolveChannel env channels channelName ≠ "" →
  Exists (λ m, Member.MemberID m ≠ "") (Team.Members t) →
  run (handlePing env (team :: channelName :: rest)) w
  = (Exit
       match PostMessage env (resolveChannel env channels channelName)
               (strings_Join (mentionsOf (Team.Members t)) " ") with
       | Some err => Error ("Error pinging team: " +:+ Error_text err)
       | None =>
           Success ("Successfully pinged team '" +:+ team +:+ "' in #"
                    +:+ channelName +:+ ".")
       end,
     mkSt w [CallPostMessage (resolveChannel env channels channelName)
               (strings_Join (mentionsOf (Team.Members t)) " ")]).
Proof.
  intros Hteams Hteam Hchannels Hresolved Hsome.
  unfold handlePing. run_io. rewrite Hteams. run_io. rewrite Hteam. run_io.
  rewrite Hchannels. run_io. rewrite decide_False by done.
  destruct (mentionsOf (Team.Members t)) as [|mention more] eqn:Hmentions.
  { apply mentionsOf_nil in Hmentions. apply Exists_exists in Hsome
      as (m & Hin & Hid). rewrite Forall_forall in Hmentions.
    by destruct Hid; apply Hmentions. }
  run_io. by destruct (PostMessage env _ _).
Qed.

Definition general_world : World :=
  mkWorld
    (Bytes (Json (Teams.mk (Some
       {[ "eng" := Team.mk [Member.mk "U7" "Bob" (Some ∅);
                            Member.mk "" "ghost" None;
                            Member.mk "U123" "Ada" (Some ∅)] ]}))))
    (Bytes (Json (Some ∅)))
    (Bytes (Json (Some {[ "C1" := Channel.mk "C1" "general" ]}))).

Lemma ping_posts_once_witness :
  run (handlePing ada_env ["eng"; "general"]) general_world
  = (Exit (Success "Successfully pinged team 'eng' in #general."),
     mkSt general_world [CallPostMessage "C1" "<@U7> <@U123>"]).
Proof.
  etrans.
  - apply (ping_posts_once ada_env general_world
             (Teams.mk (Some
                {[ "eng" := Team.mk [Member.mk "U7" "Bob" (Some ∅);
                                     Member.mk "" "ghost" None;
                                     Member.mk "U123" "Ada" (Some ∅)] ]}))
             (Some {[ "C1" := Channel.mk "C1" "general" ]})
             "eng" "general" []
             (Team.mk [Member.mk "U7" "Bob" (Some ∅);
                       Member.mk "" "ghost" None;
                       Member.mk "U123" "Ada" (Some ∅)])).
    + reflexivity.
    + reflexivity.
    + reflexivity.
    + vm_compute. discriminate.
    + left. cbn. discriminate.
  - vm_compute. reflexivity.
Defined.

Lemma resolve_unknown (env : Env) (g : gmap string Channel.t)
    (channelName : string) :
  range_channels env g ≡ₚ map_to_list g →
  (∀ id c, g !! id = Some c → Channel.Name c ≠ channelName) →
  resolveChannel env (Some g) channelName = "".
Proof.
  intros Hwalk Hnone.
  destruct (resolveChannel_cases env g channelName Hwalk)
    as [[Hempty _]|(_ & c & _ & _ & _ & Hname & Hin)]; [done|].
  by destruct (Hnone _ _ Hin).
Qed.

(** X11. When no tracked channel carries the name, and [range] visits
    every entry, ping answers that the channel is not found and
    remove-channel that it is not being tracked; neither writes a file nor
    makes a call. *)
Theorem unknown_channel_is_reported (env : Env) (w : World)
    (g : gmap string Channel.t) (channelName : string) :
  load make_map (channels_json w) = inl (Some g) →
  range_channels env g ≡ₚ map_to_list g →
  (∀ id c, g !! id = Some c → Channel.Name c ≠ channelName) →
  (∀ teams team t rest,
     load (Teams.mk make_map) (teams_json w) = inl teams →
     map_get (Teams.Teams teams) team = Some t →
     run (handlePing env (team :: channelName :: rest)) w
     = (Exit (Error ("Channel '" +:+ channelName +:+ "' not found.")),
        mkSt w []))
  ∧ (∀ rest,
       run (handleRemoveChannel env (channelName :: rest)) w
       = (Exit (Error ("Channel #" +:+ channelName
                       +:+ " is not being tracked.")),
          mkSt w [])).
Proof.
  intros Hchannels Hwalk Hnone.
  pose proof (resolve_unknown env g channelName Hwalk Hnone) as Hresolve.
  split.
  - intros teams team t rest Hteams Hteam.
    unfold handlePing. run_io. rewrite Hteams. run_io. rewrite Hteam. run_io.
    rewrite Hchannels. run_io. by rewrite Hresolve.
  - intros rest. unfold handleRemoveChannel. run_io.
    rewrite Hchannels. run_io. by rewrite Hresolve.
Qed.

Lemma unknown_channel_is_reported_witness :
  (∀ teams team t rest,
     load (Teams.mk make_map) (teams_json general_world) = inl teams →
     map_get (Teams.Teams teams) team = Some t →
     run (handlePing ada_env (team :: "random" :: rest)) general_world
     = (Exit (Error ("Channel '" +:+ "random" +:+ "' not found.")),
        mkSt general_world []))
  ∧ (∀ rest,
       run (handleRemoveChannel ada_env ("random" :: rest)) general_world
       = (Exit (Error ("Channel #" +:+ "random"
                       +:+ " is not being tracked.")),
          mkSt general_world [])).
Proof.
  apply (unknown_channel_is_reported ada_env general_world
           {[ "C1" := Channel.mk "C1" "general" ]} "random").
  - reflexivity.
  - reflexivity.
  - intros id c [<- <-]%lookup_singleton_Some. discriminate.
Defined.

Definition with_channels (w : World) (h : gmap string Channel.t) : World :=
  mkWorld (teams_json w) (users_json w) (Bytes (Json (Some h))).

Lemma addChannel_run (env : Env) (w : World) (h : gmap string Channel.t)
    (args : list string) (channelID channelName : string) :
  load make_map (channels_json w) = inl (Some h) →
  h !! channelID = None →
  channelID ≠ "" →
  channelName ≠ "" →
  JoinConversation env channelID = None →
  WriteFile env ChannelsFile = WriteOK →
  run (handleAddChannel env args channelID channelName) w
  = (Exit (Success ("Channel #" +:+ channelName
                    +:+ " has been added to the tracking list.")),
     mkSt (with_channels w
             (<[channelID := Channel.mk channelID channelName]> h))
       [CallJoinConversation channelID;
        GoUpdateUserInfoForChannel channelID]).
Proof.
  intros Hload Hnew Hid Hname Hjoin Hwrite. unfold handleAddChannel.
  case_decide as Hempty; [by destruct Hempty|].
  run_io. rewrite Hload. run_io. rewrite Hnew. run_io. rewrite Hjoin. run_io.
  rewrite Hwrite. by run_io.
Qed.

(** add-channel that goes through, with the pass it starts. *)
Lemma addChannel_started (env : Env) (passEnv : string → Env) (w : World)
    (h : gmap string Channel.t) (args : list string)
    (channelID channelName : string) :
  load make_map (channels_json w) = inl (Some h) →
  h !! channelID = None →
  channelID ≠ "" →
  channelName ≠ "" →
  JoinConversation env channelID = None →
  WriteFile env ChannelsFile = WriteOK →
  ∃ tr,
    command_and_started env passEnv ("add-channel" :: args) channelID
      channelName w
    = (match (pass_outcome (passEnv channelID) channelID
                (with_channels w
                   (<[channelID := Channel.mk channelID channelName]> h))).1
       with
       | Crash => Crash
       | _ => Exit (Success ("Channel #" +:+ channelName
                             +:+ " has been added to the tracking list."))
       end,
       mkSt (pass_outcome (passEnv channelID) channelID
               (with_channels w
                  (<[channelID := Channel.mk channelID channelName]> h))).2
         ([CallJoinConversation channelID;
           GoUpdateUserInfoForChannel channelID] ++ tr))
    ∧ Forall (pass_call (passEnv channelID) channelID) tr.
Proof.
  intros Hload Hnew Hid Hname Hjoin Hwrite.
  pose proof (addChannel_run env w h args channelID channelName Hload Hnew
                Hid Hname Hjoin Hwrite) as Hrun.
  unfold command_and_started. cbv zeta.
  change (run (handleSlackCommand env ("add-channel" :: args) channelID
                 channelName) w)
    with (run (handleAddChannel env args channelID channelName) w).
  rewrite Hrun. cbn [fst snd calls].
  assert (started [CallJoinConversation channelID;
                   GoUpdateUserInfoForChannel channelID] = [channelID])
    as -> by reflexivity.
  destruct (updateChannels_one passEnv channelID
              (mkSt (with_channels w
                       (<[channelID := Channel.mk channelID channelName]> h))
                 [CallJoinConversation channelID;
                  GoUpdateUserInfoForChannel channelID]))
    as (tr & -> & Htr).
  exists tr. split; [|done]. cbn [world calls].
  by destruct (pass_outcome _ _ _).1.
Qed.

(** What is read back of the channels file after it. *)
Lemma addChannel_read (w : World) (h : gmap string Channel.t)
    (channelID channelName : string) (file : File Channels) :
  as_read w = w →
  load make_map (channels_json w) = inl (Some h) →
  json_string channelID = channelID →
  json_string channelName = channelName →
  file = Bytes (Json (Some (<[channelID := Channel.mk channelID channelName]> h))) →
  json_file json_Channels file = file.
Proof.
  intros Hread Hload Hid Hname ->. cbn [json_file].
  rewrite json_Channels_insert; [|intros k v|done].
  - unfold json_Channel. cbn. by rewrite Hid, Hname.
  - apply (loaded_channels_kept (channels_json w)); [|done].
    by destruct (as_read_files w Hread) as (_ & _ & ?).
Qed.



(** X13. add-channel does not track what it could not join: when the join
    fails the answer is the "run the command inside the channel" error and
    no file is written.  When the join went through and the write of the
    channels file fails, the answer is the write error and no refresh is
    started, although the bot has joined. *)
Theorem add_channel_failures (env : Env) (w : World) (channels : Channels)
    (args : list string) (channelID channelName : string) :
  load make_map (channels_json w) = inl channels →
  map_get channels channelID = None →
  channelID ≠ "" →
  channelName ≠ "" →
  (∀ err,
     JoinConversation env channelID = Some err →
     run (handleAddChannel env args channelID channelName) w
     = (Exit (Error notInChannelText),
        mkSt w [CallJoinConversation channelID]))
  ∧ (∀ err truncated,
       JoinConversation env channelID = None →
       channels ≠ None →
       WriteFile env ChannelsFile = WriteFailed err truncated →
       ∃ w1,
         run (handleAddChannel env args channelID channelName) w
         = (Exit (Error "Error writing to channels file."),
            mkSt w1 [CallJoinConversation channelID])
         ∧ teams_json w1 = teams_json w
         ∧ users_json w1 = users_json w
         ∧ (channels_json w1 = channels_json w
            ∨ ∃ msg, channels_json w1 = Bytes (Malformed msg))).
Proof.
  intros Hload Hnew Hid Hname. split.
  - intros err Hjoin. unfold handleAddChannel.
    case_decide as Hempty; [by destruct Hempty|].
    run_io. rewrite Hload. run_io. rewrite Hnew. run_io. rewrite Hjoin.
    run_io. by destruct w.
  - intros err truncated Hjoin Halloc Hwrite. unfold handleAddChannel.
    case_decide as Hempty; [by destruct Hempty|].
    run_io. rewrite Hload. run_io. rewrite Hnew. run_io. rewrite Hjoin.
    run_io. destruct channels as [h|]; [|done]. run_io.
    rewrite Hwrite. run_io. eexists. split; [reflexivity|].
    cbn. split_and!; try done. destruct truncated; eauto.
Qed.

Definition closed_env : Env :=
  mkEnv (GetUserInfo quiet_env) (GetUsersInConversation quiet_env)
    (λ _, Some (ErrOther "channel_not_found")) (PostMessage quiet_env)
    (λ _, WriteFailed (ErrOther "read-only file system") false)
    map_to_list map_to_list (Now quiet_env).

Lemma add_channel_failures_witness :
  (∀ err,
     JoinConversation closed_env "C2" = Some err →
     run (handleAddChannel closed_env [] "C2" "random") tracked_world
     = (Exit (Error notInChannelText),
        mkSt tracked_world [CallJoinConversation "C2"]))
  ∧ (∀ err truncated,
       JoinConversation closed_env "C2" = None →
       Some ({[ "C1" := Channel.mk "C1" "general" ]}
               : gmap string Channel.t) ≠ None →
       WriteFile closed_env ChannelsFile = WriteFailed err truncated →
       ∃ w1,
         run (handleAddChannel closed_env [] "C2" "random") tracked_world
         = (Exit (Error "Error writing to channels file."),
            mkSt w1 [CallJoinConversation "C2"])
         ∧ teams_json w1 = teams_json tracked_world
         ∧ users_json w1 = users_json tracked_world
         ∧ (channels_json w1 = channels_json tracked_world
            ∨ ∃ msg, channels_json w1 = Bytes (Malformed msg))).
Proof.
  apply (add_channel_failures closed_env tracked_world
           (Some {[ "C1" := Channel.mk "C1" "general" ]}) [] "C2" "random");
    done.
Defined.

Lemma resolve_only_match (env : Env) (g : gmap string Channel.t)
    (channelID channelName : string) (c : Channel.t) :
  range_channels env g ≡ₚ map_to_list g →
  g !! channelID = Some c →
  Channel.Name c = channelName →
  (∀ id c', g !! id = Some c' → Channel.Name c' = channelName →
            id = channelID) →
  resolveChannel env (Some g) channelName = channelID.
Proof.
  intros Hwalk Hin Hname Honly.
  destruct (resolveChannel_cases env g channelName Hwalk)
    as [[_ Hnone]|(_ & c' & _ & _ & _ & Hname' & Hin')].
  - by destruct (Hnone _ _ Hin).
  - by apply (Honly _ c').
Qed.

(** X14. On a store that is as it is read: add-channel from a channel
    that is not tracked and whose name no tracked channel carries, id and
    name being strings JSON text holds as they are, followed, once the pass
    it starts is over, by remove-channel of that name (the join and both
    writes of the channels file going through, [range] visiting every
    entry).  remove-channel answers with success and the channels file
    holds the collection read before the add.  The teams and Users files
    are those the pass left: remove-channel takes back no membership
    marker. *)
Theorem add_then_remove_channel (env1 env2 : Env) (passEnv : string → Env)
    (w : World) (h : gmap string Channel.t) (args : list string)
    (channelID channelName : string) (rest : list string) :
  as_read w = w →
  load make_map (channels_json w) = inl (Some h) →
  h !! channelID = None →
  (∀ id c, h !! id = Some c → Channel.Name c ≠ channelName) →
  channelID ≠ "" →
  channelName ≠ "" →
  json_string channelID = channelID →
  json_string channelName = channelName →
  JoinConversation env1 channelID = None →
  WriteFile env1 ChannelsFile = WriteOK →
  WriteFile env2 ChannelsFile = WriteOK →
  range_channels env2 (<[channelID := Channel.mk channelID channelName]> h)
    ≡ₚ map_to_list (<[channelID := Channel.mk channelID channelName]> h) →
  run (handleRemoveChannel env2 (channelName :: rest))
    (as_read
       (world (command_and_started env1 passEnv ("add-channel" :: args)
                 channelID channelName w).2))
  = (Exit (Success ("Channel #" +:+ channelName
                    +:+ " has been removed from the tracking list.")),
     mkSt (with_channels
             (as_read
                (world (command_and_started env1 passEnv
                          ("add-channel" :: args) channelID channelName w).2))
             h)
       []).
Proof.
  intros Hread Hload Hnew Hname_new Hid Hname Hid_kept Hname_kept Hjoin
    Hwrite1 Hwrite2 Hwalk.
  destruct (addChannel_started env1 passEnv w h args channelID channelName
              Hload Hnew Hid Hname Hjoin Hwrite1) as (tr & -> & _).
  cbn [snd world].
  set (w1 := (pass_outcome (passEnv channelID) channelID
                (with_channels w
                   (<[channelID := Channel.mk channelID channelName]> h))).2).
  assert (channels_json (as_read w1)
          = Bytes (Json (Some
              (<[channelID := Channel.mk channelID channelName]> h))))
    as Hback.
  { unfold as_read. cbn [channels_json]. subst w1.
    rewrite pass_outcome_channels. unfold with_channels. cbn [channels_json].
    by apply (addChannel_read w h channelID channelName). }
  unfold handleRemoveChannel. run_io. rewrite Hback. run_io.
  rewrite (resolve_only_match env2 _ channelID channelName
             (Channel.mk channelID channelName)); try done.
  - rewrite decide_False by done. run_io. rewrite Hwrite2. run_io.
    unfold with_channels. cbn. by rewrite delete_insert_eq, delete_id.
  - apply lookup_insert_eq.
  - intros id c'. rewrite lookup_insert. case_decide; [done|].
    intros Hin Hc'. by destruct (Hname_new _ _ Hin).
Qed.

Lemma add_then_remove_channel_witness :
  run (handleRemoveChannel backwards_env ["random"])
    (as_read
       (world (command_and_started ada_env (λ _, ada_env) ["add-channel"]
                 "C2" "random" tracked_world).2))
  = (Exit (Success ("Channel #" +:+ "random"
                    +:+ " has been removed from the tracking list.")),
     mkSt (with_channels
             (as_read
                (world (command_and_started ada_env (λ _, ada_env)
                          ["add-channel"] "C2" "random" tracked_world).2))
             {[ "C1" := Channel.mk "C1" "general" ]})
       []).
Proof.
  apply (add_then_remove_channel ada_env backwards_env (λ _, ada_env)
           tracked_world {[ "C1" := Channel.mk "C1" "general" ]} [] "C2"
           "random" []);
    try done; try (vm_compute; reflexivity).
  - intros id c [<- <-]%lookup_singleton_Some. discriminate.
  - apply reverse_Permutation.
Defined.

(** ** The refresh pass: what it calls, what it writes *)

(** The loop fetches one profile per listed member, in order. *)
Lemma refreshMembers_calls (env : Env) (channelID : string)
    (members : list string) (i : nat) (users : Users) (teams : Teams.t)
    (st : Users * Teams.t) (s : St) :
  refreshAll env channelID members i users teams = Some st →
  refreshMembers env channelID members i users teams s
  = (Val st, mkSt (world s) (calls s ++ (CallGetUserInfo <$> members))).
Proof.
  revert i users teams s.
  induction members as [|memberID rest IH]; intros i users teams s; cbn.
  - intros [= <-]. rewrite app_nil_r. by destruct s.
  - intros Hloop. unfold refreshMembers. fold refreshMembers. run_m.
    destruct (GetUserInfo env memberID) as [userInfo|err].
    + destruct (UserInfo.IsBot userInfo).
      * rewrite (IH _ _ _ _ Hloop). cbn. by rewrite <- app_assoc.
      * destruct (refreshUser _ _ _ _ _) as [users'|]; [|done]. run_m.
        rewrite (IH _ _ _ _ Hloop). cbn. by rewrite <- app_assoc.
    + rewrite (IH _ _ _ _ Hloop). cbn. by rewrite <- app_assoc.
Qed.

(** X15. A pass that does not run to its end writes nothing: when a read
    fails, when Slack does not list the members of the channel, or when an
    iteration panics, all three files are as before. *)
Theorem pass_writes_nothing_unless_finished (env : Env) (channelID : string)
    (w : World) :
  (run (updateUserInfoForChannel env channelID) w).1 ≠ Val tt →
  world (run (updateUserInfoForChannel env channelID) w).2 = w.
Proof.
  destruct (pass_run env channelID w) as [-> ->]. unfold pass_outcome.
  repeat case_match; cbn; done.
Qed.

Definition offline_env : Env :=
  mkEnv (GetUserInfo ada_env) (λ _, inr (ErrOther "channel_not_found"))
    (λ _, None) (λ _ _, None) (λ _, WriteOK) map_to_list map_to_list
    (Now ada_env).

Lemma pass_writes_nothing_unless_finished_witness :
  world (run (updateUserInfoForChannel offline_env "C1") ada_member_world).2
  = ada_member_world.
Proof.
  apply (pass_writes_nothing_unless_finished offline_env "C1"
           ada_member_world).
  vm_compute. discriminate.
Defined.

(** X16. A pass that runs to its end has asked Slack for the member list of
    the channel once and then for the profile of every listed member, once
    each and in the order of the list (bots included); it makes no other
    call. *)
Theorem pass_calls (env : Env) (channelID : string) (w : World) (s' : St) :
  run (updateUserInfoForChannel env channelID) w = (Val tt, s') →
  ∃ members,
    GetUsersInConversation env channelID = inl members
    ∧ calls s'
      = CallGetUsersInConversation channelID :: (CallGetUserInfo <$> members).
Proof.
  unfold updateUserInfoForChannel. run_io.
  destruct (load make_map (users_json w)) as [users|err]; run_io; [|done].
  destruct (load _ (teams_json w)) as [teams|err]; run_io; [|done].
  destruct (GetUsersInConversation env channelID) as [members|err]; run_io;
    [|done].
  destruct (refreshAll env channelID members 0 users teams) as [st|] eqn:Hloop.
  - rewrite (refreshMembers_calls _ _ _ _ _ _ st _ Hloop). run_io.
    intros [= <-]. by exists members.
  - destruct (refreshMembers_run env channelID members 0 users teams
                (mkSt w [CallGetUsersInConversation channelID])) as [tr ->].
    rewrite Hloop. by run_io.
Qed.

Lemma pass_calls_witness :
  ∃ members,
    GetUsersInConversation ada_env "C1" = inl members
    ∧ calls (run (updateUserInfoForChannel ada_env "C1") ada_member_world).2
      = CallGetUsersInConversation "C1" :: (CallGetUserInfo <$> members).
Proof.
  apply (pass_calls ada_env "C1" ada_member_world
           (run (updateUserInfoForChannel ada_env "C1") ada_member_world).2).
  vm_compute. reflexivity.
Defined.

(** ** The refresh pass: what it records and what it leaves alone *)

(** X17. After a pass over [channelID] that ran to its end with both
    writes succeeding, every id it refreshed (listed for the channel,
    profile fetched, not a bot) has a Users entry named by the display
    name of the profile, or by its name when the display name is empty,
    with the channel recorded; and every member carrying that id, in every
    team, has that same name and the channel recorded, also when the
    member had no channels mapping before. *)
Theorem pass_records_refreshed (env : Env) (channelID : string) (w : World)
    (s' : St) (members : list string) (id : string)
    (userInfo : UserInfo.t) :
  run (updateUserInfoForChannel env channelID) w = (Val tt, s') →
  WriteFile env UsersFile = WriteOK →
  WriteFile env TeamsFile = WriteOK →
  GetUsersInConversation env channelID = inl members →
  id ∈ members →
  GetUserInfo env id = inl userInfo →
  UserInfo.IsBot userInfo = false →
  ∃ users teams u c,
    users_json (world s') = Bytes (Json users)
    ∧ teams_json (world s') = Bytes (Json teams)
    ∧ map_get users id = Some u
    ∧ User.Name u
      = (if decide (UserInfo.Profile_DisplayName userInfo = "")
         then UserInfo.Name userInfo
         else UserInfo.Profile_DisplayName userInfo)
    ∧ User.Channels u = Some c
    ∧ c !! channelID = Some id
    ∧ ∀ team t member,
        map_get (Teams.Teams teams) team = Some t →
        member ∈ Team.Members t →
        Member.MemberID member = id →
        Member.Name member = User.Name u
        ∧ ∃ c', Member.Channels member = Some c' ∧ c' !! channelID = Some id.
Proof.
  intros Hrun Husers Hteams Hlist Hin Hinfo Hbot.
  apply pass_finished in Hrun
    as (users & teams & members' & users' & teams' & _ & _ & Hm & Hloop & ->).
  rewrite Hlist in Hm. injection Hm as <-.
  destruct (refreshAll_settles env channelID members 0 users users' teams
              teams' id userInfo Hloop Hinfo Hbot (or_introl Hin))
    as [(u & c & Hu & Hname & Hc & Hch) Hmembers].
  exists users', teams', u, c. unfold world_after_pass.
  rewrite Husers, Hteams. cbn. split_and!; try done.
  intros team t member Ht Hmember Hid. rewrite Hname.
  by apply (Hmembers team t member).
Qed.

Lemma pass_records_refreshed_witness :
  ∃ users teams u c,
    users_json
      (world (run (updateUserInfoForChannel ada_env "C1")
                ada_member_world).2)
    = Bytes (Json users)
    ∧ teams_json
        (world (run (updateUserInfoForChannel ada_env "C1")
                  ada_member_world).2)
      = Bytes (Json teams)
    ∧ map_get users "U123" = Some u
    ∧ User.Name u
      = (if decide (UserInfo.Profile_DisplayName
                      (UserInfo.mk "ada.l" "Ada" false) = "")
         then UserInfo.Name (UserInfo.mk "ada.l" "Ada" false)
         else UserInfo.Profile_DisplayName (UserInfo.mk "ada.l" "Ada" false))
    ∧ User.Channels u = Some c
    ∧ c !! "C1" = Some "U123"
    ∧ ∀ team t member,
        map_get (Teams.Teams teams) team = Some t →
        member ∈ Team.Members t →
        Member.MemberID member = "U123" →
        Member.Name member = User.Name u
        ∧ ∃ c', Member.Channels member = Some c' ∧ c' !! "C1" = Some "U123".
Proof.
  apply (pass_records_refreshed ada_env "C1" ada_member_world
           (run (updateUserInfoForChannel ada_env "C1") ada_member_world).2
           ["U123"] "U123" (UserInfo.mk "ada.l" "Ada" false)).
  - vm_compute. reflexivity.
  - reflexivity.
  - reflexivity.
  - reflexivity.
  - apply list_elem_of_singleton. reflexivity.
  - reflexivity.
  - reflexivity.
Defined.

(** An id the loop does not refresh: not listed, or its profile cannot be
    fetched, or it is a bot. *)
Definition passed_over (env : Env) (members : list string) (id : string)
  : Prop :=
  id ∉ members
  ∨ (∃ err, GetUserInfo env id = inr err)
  ∨ (∃ userInfo,
       GetUserInfo env id = inl userInfo ∧ UserInfo.IsBot userInfo = true).

(** The members with id [id] stay where they are, as they are. *)
Definition members_kept (id : string) (teams teams' : Teams.t) : Prop :=
  ∀ team t (i : nat) member,
    map_get (Teams.Teams teams) team = Some t →
    Team.Members t !! i = Some member →
    Member.MemberID member = id →
    ∃ t',
      map_get (Teams.Teams teams') team = Some t'
      ∧ Team.Members t' !! i = Some member.

Lemma step_keeps_members (channelID memberID displayName id : string)
    (teams : Teams.t) :
  memberID ≠ id →
  members_kept id teams (refreshTeams channelID memberID displayName teams).
Proof.
  intros Hne team t i member Ht Hi Hid.
  exists (refreshTeam channelID memberID displayName t).
  rewrite refreshTeams_lookup, Ht. split; [done|].
  unfold refreshTeam. cbn. rewrite list_lookup_fmap, Hi. cbn.
  by rewrite refreshMember_other by congruence.
Qed.

Lemma members_kept_trans (id : string) (teams1 teams2 teams3 : Teams.t) :
  members_kept id teams1 teams2 → members_kept id teams2 teams3 →
  members_kept id teams1 teams3.
Proof.
  intros H12 H23 team t i member Ht Hi Hid.
  destruct (H12 team t i member Ht Hi Hid) as (t2 & Ht2 & Hi2).
  by apply (H23 team t2 i member).
Qed.

Lemma refreshAll_passed_over (env : Env) (channelID : string)
    (members : list string) (i : nat) (users users' : Users)
    (teams teams' : Teams.t) (id : string) :
  refreshAll env channelID members i users teams = Some (users', teams') →
  passed_over env members id →
  map_get users' id = map_get users id ∧ members_kept id teams teams'.
Proof.
  revert i users teams.
  induction members as [|memberID rest IH]; intros i users teams; cbn.
  - intros [= <- <-] _. split; [done|].
    intros team t j member Ht Hj _. by exists t.
  - intros Hloop Hover.
    assert (passed_over env rest id) as Hrest.
    { destruct Hover as [Hout|Hover]; [|by right].
      left. by apply not_elem_of_cons in Hout as [_ ?]. }
    destruct (GetUserInfo env memberID) as [userInfo|err] eqn:Hinfo;
      [destruct (UserInfo.IsBot userInfo) eqn:Hbot|]; eauto.
    destruct (refreshUser _ _ _ _ _) as [users1|] eqn:Hstep; [|done].
    assert (memberID ≠ id) as Hne.
    { intros ->.
      destruct Hover as [Hout|[[err Herr]|(info & Hi & Hb)]].
      - apply Hout. left.
      - congruence.
      - congruence. }
    destruct (IH _ _ _ Hloop Hrest) as [Hu Hkept]. split.
    + rewrite Hu. by eapply refreshUser_other.
    + eapply members_kept_trans; [|done]. by apply step_keeps_members.
Qed.

(** X18. A pass that ran to its end with both writes succeeding leaves
    alone every id it passed over (not listed for the channel, or whose
    profile could not be fetched, or a bot): the Users entry of the id is
    the one read, and every member carrying the id is where it was, with
    the name and the channels it had. *)
Theorem pass_leaves_others_alone (env : Env) (channelID : string)
    (w : World) (s' : St) (members : list string) (id : string) :
  run (updateUserInfoForChannel env channelID) w = (Val tt, s') →
  WriteFile env UsersFile = WriteOK →
  WriteFile env TeamsFile = WriteOK →
  GetUsersInConversation env channelID = inl members →
  passed_over env members id →
  ∃ users teams users' teams',
    load make_map (users_json w) = inl users
    ∧ load (Teams.mk make_map) (teams_json w) = inl teams
    ∧ users_json (world s') = Bytes (Json users')
    ∧ teams_json (world s') = Bytes (Json teams')
    ∧ map_get users' id = map_get users id
    ∧ members_kept id teams teams'.
Proof.
  intros Hrun Husers Hteams Hlist Hover.
  apply pass_finished in Hrun
    as (users & teams & members' & users' & teams' & Hu & Ht & Hm & Hloop & ->).
  rewrite Hlist in Hm. injection Hm as <-.
  destruct (refreshAll_passed_over _ _ _ _ _ _ _ _ id Hloop Hover)
    as [Hentry Hkept].
  exists users, teams, users', teams'. unfold world_after_pass.
  rewrite Husers, Hteams. by split_and!.
Qed.

Lemma pass_leaves_others_alone_witness :
  ∃ users teams users' teams',
    load make_map (users_json ada_member_world) = inl users
    ∧ load (Teams.mk make_map) (teams_json ada_member_world) = inl teams
    ∧ users_json
        (world (run (updateUserInfoForChannel ada_env "C1")
                  ada_member_world).2)
      = Bytes (Json users')
    ∧ teams_json
        (world (run (updateUserInfoForChannel ada_env "C1")
                  ada_member_world).2)
      = Bytes (Json teams')
    ∧ map_get users' "U7" = map_get users "U7"
    ∧ members_kept "U7" teams teams'.
Proof.
  apply (pass_leaves_others_alone ada_env "C1" ada_member_world
           (run (updateUserInfoForChannel ada_env "C1") ada_member_world).2
           ["U123"] "U7").
  - vm_compute. reflexivity.
  - reflexivity.
  - reflexivity.
  - reflexivity.
  - left. intros Hin%list_elem_of_singleton. discriminate.
Defined.

(** ** The refresh pass only adds *)

(** The channels recorded in [c] are recorded in [c']. *)
Definition marks_kept (c c' : GoMap string) : Prop :=
  ∀ channel, is_Some (map_get c channel) → is_Some (map_get c' channel).

Definition users_grow (users users' : Users) : Prop :=
  ∀ id u,
    map_get users id = Some u →
    ∃ u',
      map_get users' id = Some u'
      ∧ User.MemberID u' = User.MemberID u
      ∧ marks_kept (User.Channels u) (User.Channels u').

Definition teams_grow (teams teams' : Teams.t) : Prop :=
  ∀ team t (i : nat) member,
    map_get (Teams.Teams teams) team = Some t →
    Team.Members t !! i = Some member →
    ∃ t' member',
      map_get (Teams.Teams teams') team = Some t'
      ∧ length (Team.Members t') = length (Team.Members t)
      ∧ Team.Members t' !! i = Some member'
      ∧ Member.MemberID member' = Member.MemberID member
      ∧ marks_kept (Member.Channels member) (Member.Channels member').

Lemma marks_kept_refl (c : GoMap string) : marks_kept c c.
Proof. by intros channel. Qed.

Lemma marks_kept_insert (c : GoMap string) (channel v : string) :
  marks_kept c (Some (<[channel := v]> (default ∅ c))).
Proof.
  intros channel' [v' Hv']. cbn. rewrite lookup_insert.
  case_decide; [by eexists|]. destruct c as [g|]; [|done]. by exists v'.
Qed.

Lemma users_grow_refl (users : Users) : users_grow users users.
Proof. intros id u Hu. exists u. split_and!; try done. apply marks_kept_refl. Qed.

Lemma users_grow_trans (users1 users2 users3 : Users) :
  users_grow users1 users2 → users_grow users2 users3 →
  users_grow users1 users3.
Proof.
  intros H12 H23 id u Hu.
  destruct (H12 id u Hu) as (u2 & Hu2 & Hid2 & Hmarks2).
  destruct (H23 id u2 Hu2) as (u3 & Hu3 & Hid3 & Hmarks3).
  exists u3. split_and!; [done|congruence|].
  intros channel Hc. by apply Hmarks3, Hmarks2.
Qed.

Lemma teams_grow_refl (teams : Teams.t) : teams_grow teams teams.
Proof.
  intros team t i member Ht Hi. exists t, member.
  split_and!; try done. apply marks_kept_refl.
Qed.

Lemma teams_grow_trans (teams1 teams2 teams3 : Teams.t) :
  teams_grow teams1 teams2 → teams_grow teams2 teams3 →
  teams_grow teams1 teams3.
Proof.
  intros H12 H23 team t i member Ht Hi.
  destruct (H12 team t i member Ht Hi)
    as (t2 & m2 & Ht2 & Hlen2 & Hi2 & Hid2 & Hmarks2).
  destruct (H23 team t2 i m2 Ht2 Hi2)
    as (t3 & m3 & Ht3 & Hlen3 & Hi3 & Hid3 & Hmarks3).
  exists t3, m3. split_and!; [done|congruence|done|congruence|].
  intros channel Hc. by apply Hmarks3, Hmarks2.
Qed.

Lemma refreshUser_grows (channelID memberID displayName : string) (now : Z)
    (users users' : Users) :
  refreshUser channelID memberID displayName now users = Some users' →
  users_grow users users'.
Proof.
  intros Hstep id u Hu.
  destruct (decide (id = memberID)) as [->|Hne].
  - unfold refreshUser in Hstep. rewrite Hu in Hstep. cbn in Hstep.
    destruct users as [g|]; [|done].
    destruct (User.Channels u) as [c|] eqn:Hc; [|done].
    cbn in Hstep. injection Hstep as <-. eexists. cbn.
    rewrite lookup_insert_eq. split_and!; [done..|]. cbn.
    apply (marks_kept_insert (Some c)).
  - exists u. rewrite (refreshUser_other _ _ _ _ _ _ id Hstep) by done.
    split_and!; try done. apply marks_kept_refl.
Qed.

Lemma refreshTeams_grows (channelID memberID displayName : string)
    (teams : Teams.t) :
  teams_grow teams (refreshTeams channelID memberID displayName teams).
Proof.
  intros team t i member Ht Hi.
  exists (refreshTeam channelID memberID displayName t),
    (refreshMember channelID memberID displayName member).
  rewrite refreshTeams_lookup, Ht. unfold refreshTeam. cbn.
  rewrite length_fmap, list_lookup_fmap, Hi, refreshMember_id.
  split_and!; try done.
  unfold refreshMember. case_decide; [|apply marks_kept_refl].
  cbn. apply marks_kept_insert.
Qed.

Lemma refreshAll_grows (env : Env) (channelID : string)
    (members : list string) (i : nat) (users users' : Users)
    (teams teams' : Teams.t) :
  refreshAll env channelID members i users teams = Some (users', teams') →
  users_grow users users' ∧ teams_grow teams teams'.
Proof.
  revert i users teams.
  induction members as [|memberID rest IH]; intros i users teams; cbn.
  - intros [= <- <-]. split; [apply users_grow_refl|apply teams_grow_refl].
  - destruct (GetUserInfo env memberID) as [userInfo|err];
      [destruct (UserInfo.IsBot userInfo)|]; eauto.
    destruct (refreshUser _ _ _ _ _) as [users1|] eqn:Hstep; [|done].
    intros Hloop. destruct (IH _ _ _ Hloop) as [Hu Ht]. split.
    + eapply users_grow_trans; [|done]. by eapply refreshUser_grows.
    + eapply teams_grow_trans; [|done]. apply refreshTeams_grows.
Qed.

(** X19. A pass that ran to its end with both writes succeeding takes
    nothing away: every Users entry read is still there under its id, with
    every channel it had recorded; every member of every team is at its
    place with its id and every channel it had recorded, and no team
    changed length.  Channels are only ever added by the refresh. *)
Theorem pass_only_adds (env : Env) (channelID : string) (w : World)
    (s' : St) :
  run (updateUserInfoForChannel env channelID) w = (Val tt, s') →
  WriteFile env UsersFile = WriteOK →
  WriteFile env TeamsFile = WriteOK →
  ∃ users teams users' teams',
    load make_map (users_json w) = inl users
    ∧ load (Teams.mk make_map) (teams_json w) = inl teams
    ∧ users_json (world s') = Bytes (Json users')
    ∧ teams_json (world s') = Bytes (Json teams')
    ∧ channels_json (world s') = channels_json w
    ∧ users_grow users users'
    ∧ teams_grow teams teams'.
Proof.
  intros Hrun Husers Hteams.
  apply pass_finished in Hrun
    as (users & teams & members & users' & teams' & Hu & Ht & _ & Hloop & ->).
  destruct (refreshAll_grows _ _ _ _ _ _ _ _ Hloop) as [Hgu Hgt].
  exists users, teams, users', teams'. unfold world_after_pass.
  rewrite Husers, Hteams. by split_and!.
Qed.

Lemma pass_only_adds_witness :
  ∃ users teams users' teams',
    load make_map (users_json ada_known_world) = inl users
    ∧ load (Teams.mk make_map) (teams_json ada_known_world) = inl teams
    ∧ users_json
        (world (run (updateUserInfoForChannel ada_env "C9")
                  ada_known_world).2)
      = Bytes (Json users')
    ∧ teams_json
        (world (run (updateUserInfoForChannel ada_env "C9")
                  ada_known_world).2)
      = Bytes (Json teams')
    ∧ channels_json
        (world (run (updateUserInfoForChannel ada_env "C9")
                  ada_known_world).2)
      = channels_json ada_known_world
    ∧ users_grow users users'
    ∧ teams_grow teams teams'.
Proof.
  apply (pass_only_adds ada_env "C9" ada_known_world
           (run (updateUserInfoForChannel ada_env "C9") ada_known_world).2).
  - vm_compute. reflexivity.
  - reflexivity.
  - reflexivity.
Defined.

(** ** Null maps *)

Lemma refreshAll_panics (env : Env) (channelID : string)
    (members : list string) (i : nat) (users : Users) (teams : Teams.t)
    (id : string) (userInfo : UserInfo.t) (u : User.t) :
  id ∈ members →
  GetUserInfo env id = inl userInfo →
  UserInfo.IsBot userInfo = false →
  map_get users id = Some u →
  User.Channels u = None →
  refreshAll env channelID members i users teams = None.
Proof.
  intros Hin Hinfo Hbot. revert i users teams Hin.
  induction members as [|memberID rest IH]; intros i users teams Hin Hu Hnull.
  { by apply elem_of_nil in Hin. }
  cbn. destruct (decide (memberID = id)) as [->|Hne].
  - rewrite Hinfo, Hbot. unfold refreshUser. rewrite Hu. cbn.
    by rewrite Hnull.
  - apply elem_of_cons in Hin as [->|Hin]; [done|].
    destruct (GetUserInfo env memberID) as [info|err];
      [destruct (UserInfo.IsBot info)|]; eauto.
    destruct (refreshUser _ _ _ _ _) as [users1|] eqn:Hstep; [|done].
    apply IH; [done| |done].
    by rewrite (refreshUser_other _ _ _ _ _ _ id Hstep).
Qed.

(** X20. A Users entry whose channels mapping is null stops the pass: when
    the id of such an entry is listed for the channel, its profile is
    fetched and it is not a bot, the pass panics and nothing is written,
    whatever else the channel holds.  (A member whose channels mapping is
    null gets one; see X17.) *)
Theorem pass_panics_on_null_channels (env : Env) (channelID : string)
    (w : World) (users : Users) (teams : Teams.t) (members : list string)
    (id : string) (userInfo : UserInfo.t) (u : User.t) :
  load make_map (users_json w) = inl users →
  load (Teams.mk make_map) (teams_json w) = inl teams →
  GetUsersInConversation env channelID = inl members →
  id ∈ members →
  GetUserInfo env id = inl userInfo →
  UserInfo.IsBot userInfo = false →
  map_get users id = Some u →
  User.Channels u = None →
  (run (updateUserInfoForChannel env channelID) w).1 = Crash
  ∧ world (run (updateUserInfoForChannel env channelID) w).2 = w.
Proof.
  intros Husers Hteams Hlist Hin Hinfo Hbot Hu Hnull.
  destruct (pass_run env channelID w) as [-> ->]. unfold pass_outcome.
  rewrite Husers, Hteams, Hlist.
  by rewrite (refreshAll_panics env channelID members 0 users teams id
                userInfo u).
Qed.

Definition null_channels_world : World :=
  mkWorld (Bytes (Json eng_teams))
    (Bytes (Json (Some {[ "U123" := User.mk "U123" "Ada" 7 None ]})))
    (Bytes (Json (Some {[ "C1" := Channel.mk "C1" "general" ]}))).

Lemma pass_panics_on_null_channels_witness :
  (run (updateUserInfoForChannel ada_env "C1") null_channels_world).1 = Crash
  ∧ world (run (updateUserInfoForChannel ada_env "C1") null_channels_world).2
    = null_channels_world.
Proof.
  apply (pass_panics_on_null_channels ada_env "C1" null_channels_world
           (Some {[ "U123" := User.mk "U123" "Ada" 7 None ]}) eng_teams
           ["U123"] "U123" (UserInfo.mk "ada.l" "Ada" false)
           (User.mk "U123" "Ada" 7 None)).
  - reflexivity.
  - reflexivity.
  - reflexivity.
  - apply list_elem_of_singleton. reflexivity.
  - reflexivity.
  - reflexivity.
  - reflexivity.
  - reflexivity.
Defined.

(** Every map the program is about to store into is allocated: the maps of
    the three collections and the channels of every Users entry. *)
Definition users_allocated (users : Users) : Prop :=
  users ≠ None
  ∧ ∀ id u, map_get users id = Some u → User.Channels u ≠ None.

Definition Allocated (w : World) : Prop :=
  (∀ teams, teams_json w = Bytes (Json teams) → Teams.Teams teams ≠ None)
  ∧ (∀ users, users_json w = Bytes (Json users) → users_allocated users)
  ∧ (∀ channels, channels_json w = Bytes (Json channels) → channels ≠ None).

Lemma allocated_written {T} (P : T → Prop) (r : WriteResult) (v : T)
    (old : File T) :
  P v →
  (∀ x, old = Bytes (Json x) → P x) →
  ∀ x, written r v old = Bytes (Json x) → P x.
Proof.
  intros Hv Hold x. destruct r as [|err [|]]; cbn; [|done|apply Hold].
  by intros [= <-].
Qed.

Lemma loaded_teams_allocated (w : World) (teams : Teams.t) :
  Allocated w → load (Teams.mk make_map) (teams_json w) = inl teams →
  Teams.Teams teams ≠ None.
Proof.
  intros (Ht & _ & _) Hload.
  destruct (teams_json w) as [|msg|[msg|v]]; cbn in Hload; simplify_eq;
    [done|]. by apply Ht.
Qed.

Lemma loaded_users_allocated (w : World) (users : Users) :
  Allocated w → load make_map (users_json w) = inl users →
  users_allocated users.
Proof.
  intros (_ & Hu & _) Hload.
  destruct (users_json w) as [|msg|[msg|v]]; cbn in Hload; simplify_eq.
  - split; [done|]. intros id u. cbn. by rewrite lookup_empty.
  - by apply Hu.
Qed.

Lemma loaded_channels_allocated (w : World) (channels : Channels) :
  Allocated w → load make_map (channels_json w) = inl channels →
  channels ≠ None.
Proof.
  intros (_ & _ & Hc) Hload.
  destruct (channels_json w) as [|msg|[msg|v]]; cbn in Hload; simplify_eq;
    [done|]. by apply Hc.
Qed.

Lemma refreshUser_allocated (channelID memberID displayName : string)
    (now : Z) (users : Users) :
  users_allocated users →
  ∃ users',
    refreshUser channelID memberID displayName now users = Some users'
    ∧ users_allocated users'.
Proof.
  intros [Hmap Hentries]. destruct users as [g|]; [|done].
  unfold refreshUser. cbn.
  assert (∀ u', User.Channels u' ≠ None →
            users_allocated (Some (<[memberID := u']> g))) as Hins.
  { intros u' Hu'. split; [done|]. intros id u. cbn. rewrite lookup_insert.
    case_decide; [by intros [= <-]|]. apply Hentries. }
  destruct (g !! memberID) as [u|] eqn:Hu; cbn.
  - destruct (User.Channels u) as [c|] eqn:Hc; cbn.
    + eexists. split; [done|]. by apply Hins.
    + by destruct (Hentries memberID u Hu).
  - eexists. split; [done|]. by apply Hins.
Qed.

Lemma refreshAll_allocated (env : Env) (channelID : string)
    (members : list string) (i : nat) (users : Users) (teams : Teams.t) :
  users_allocated users →
  ∃ users' teams',
    refreshAll env channelID members i users teams = Some (users', teams')
    ∧ users_allocated users'
    ∧ (Teams.Teams teams ≠ None → Teams.Teams teams' ≠ None).
Proof.
  revert i users teams.
  induction members as [|memberID rest IH]; intros i users teams Halloc; cbn.
  - by exists users, teams.
  - destruct (GetUserInfo env memberID) as [userInfo|err];
      [destruct (UserInfo.IsBot userInfo)|]; eauto.
    destruct (refreshUser_allocated channelID memberID
                (displayNameOf userInfo) (Now env i) users Halloc)
      as (users1 & -> & Halloc1).
    destruct (IH (S i) users1
                (refreshTeams channelID memberID (displayNameOf userInfo)
                   teams) Halloc1)
      as (users' & teams' & -> & Halloc' & Hteams').
    exists users', teams'. split_and!; try done.
    intros Hteams. apply Hteams'. by destruct teams as [[g|]].
Qed.

Lemma allocated_teams_written (w : World) (r : WriteResult)
    (g : gmap string Team.t) :
  Allocated w →
  Allocated (mkWorld (written r (Teams.mk (Some g)) (teams_json w))
               (users_json w) (channels_json w)).
Proof.
  intros (Ht & Hu & Hc). split_and!; [|done..]. cbn.
  by apply (allocated_written (λ teams, Teams.Teams teams ≠ None)).
Qed.

Lemma allocated_users_written (w : World) (r : WriteResult) (users : Users) :
  Allocated w → users_allocated users →
  Allocated (mkWorld (teams_json w) (written r users (users_json w))
               (channels_json w)).
Proof.
  intros (Ht & Hu & Hc) Hnew. split_and!; [done| |done]. cbn.
  by apply (allocated_written users_allocated).
Qed.

Lemma allocated_channels_written (w : World) (r : WriteResult)
    (h : gmap string Channel.t) :
  Allocated w →
  Allocated (mkWorld (teams_json w) (users_json w)
               (written r (Some h) (channels_json w))).
Proof.
  intros (Ht & Hu & Hc). split_and!; [done..|]. cbn.
  by apply (allocated_written (λ channels : Channels, channels ≠ None)).
Qed.

Lemma createTeam_safe (env : Env) (args : list string) (w : World) :
  Allocated w →
  (run (handleCreateTeam env args) w).1 ≠ Crash
  ∧ Allocated (world (run (handleCreateTeam env args) w).2).
Proof.
  intros Hw. unfold handleCreateTeam, teams_set.
  destruct args as [|team rest]; run_io; [done|].
  destruct (load _ (teams_json w)) as [[[g|]]|err] eqn:Hload; run_io;
    try done.
  2:{ by destruct (loaded_teams_allocated w _ Hw Hload). }
  destruct (g !! team); run_io; [done|].
  pose proof (allocated_teams_written w (WriteFile env TeamsFile)
                (<[team := Team.mk []]> g) Hw).
  by destruct (WriteFile env TeamsFile).
Qed.

Lemma removeTeam_safe (env : Env) (args : list string) (w : World) :
  Allocated w →
  (run (handleRemoveTeam env args) w).1 ≠ Crash
  ∧ Allocated (world (run (handleRemoveTeam env args) w).2).
Proof.
  intros Hw. unfold handleRemoveTeam.
  destruct args as [|team rest]; run_io; [done|].
  destruct (load _ (teams_json w)) as [[[g|]]|err] eqn:Hload; run_io;
    try done.
  destruct (g !! team); run_io; [|done].
  pose proof (allocated_teams_written w (WriteFile env TeamsFile)
                (delete team g) Hw).
  by destruct (WriteFile env TeamsFile).
Qed.

Lemma remove_safe (env : Env) (args : list string) (w : World) :
  Allocated w →
  (run (handleRemove env args) w).1 ≠ Crash
  ∧ Allocated (world (run (handleRemove env args) w).2).
Proof.
  intros Hw. unfold handleRemove, teams_set.
  destruct args as [|team [|memberID rest]]; run_io; [done..|].
  destruct (load _ (teams_json w)) as [[[g|]]|err] eqn:Hload; run_io;
    try done.
  destruct (g !! team) as [t|]; run_io; [|done].
  destruct (find_member memberID (Team.Members t)) as [[i member]|]; run_io;
    [|done].
  pose proof (allocated_teams_written w (WriteFile env TeamsFile)
                (<[team := Team.mk (take i (Team.Members t)
                                    ++ drop (S i) (Team.Members t))]> g) Hw).
  by destruct (WriteFile env TeamsFile).
Qed.

Lemma add_safe (env : Env) (args : list string) (w : World) :
  Allocated w →
  (run (handleAdd env args) w).1 ≠ Crash
  ∧ Allocated (world (run (handleAdd env args) w).2).
Proof.
  intros Hw. unfold handleAdd, teams_set.
  destruct args as [|team [|memberID rest]]; run_io; [done..|].
  destruct (load _ (teams_json w)) as [[[g|]]|err] eqn:Hload; run_io;
    try done.
  destruct (g !! team) as [t|]; run_io; [|done].
  destruct (find_member memberID (Team.Members t)); run_io; [done|].
  destruct (GetUserInfo env memberID) as [userInfo|err]; run_io; [|done].
  set (g' := <[team := _]> g).
  pose proof (allocated_teams_written w (WriteFile env TeamsFile) g' Hw)
    as Hw1.
  destruct (WriteFile env TeamsFile) as [|err tr] eqn:Hwrite; run_io;
    [|done].
  destruct (load make_map (users_json w)) as [users|err] eqn:Husers; run_io;
    [|done].
  destruct (loaded_users_allocated w users Hw Husers) as [Hmap Hentries].
  destruct users as [u|]; [|done]. run_io. split; [done|].
  apply (allocated_users_written _ (WriteFile env UsersFile)
           (Some (<[memberID := User.mk memberID (displayNameOf userInfo)
                                  (Now env 0) make_map]> u)) Hw1).
  split; [done|]. intros id entry. cbn. rewrite lookup_insert.
  case_decide; [by intros [= <-]|]. apply Hentries.
Qed.

Lemma addChannel_safe (env : Env) (args : list string)
    (channelID channelName : string) (w : World) :
  Allocated w →
  (run (handleAddChannel env args channelID channelName) w).1 ≠ Crash
  ∧ Allocated
      (world (run (handleAddChannel env args channelID channelName) w).2).
Proof.
  intros Hw. unfold handleAddChannel. case_decide; [done|]. run_io.
  destruct (load make_map (channels_json w)) as [channels|err] eqn:Hload;
    run_io; [|done].
  pose proof (loaded_channels_allocated w channels Hw Hload).
  destruct channels as [h|]; [|done]. cbn.
  destruct (h !! channelID); run_io; [done|].
  destruct (JoinConversation env channelID); run_io; [done|].
  pose proof (allocated_channels_written w (WriteFile env ChannelsFile)
                (<[channelID := Channel.mk channelID channelName]> h) Hw).
  by destruct (WriteFile env ChannelsFile).
Qed.

Lemma removeChannel_safe (env : Env) (args : list string) (w : World) :
  Allocated w →
  (run (handleRemoveChannel env args) w).1 ≠ Crash
  ∧ Allocated (world (run (handleRemoveChannel env args) w).2).
Proof.
  intros Hw. unfold handleRemoveChannel.
  destruct args as [|channelName rest]; run_io; [done|].
  destruct (load make_map (channels_json w)) as [channels|err] eqn:Hload;
    run_io; [|done].
  pose proof (loaded_channels_allocated w channels Hw Hload).
  destruct channels as [h|]; [|done].
  case_decide; run_io; [done|].
  pose proof (allocated_channels_written w (WriteFile env ChannelsFile)
                (delete (resolveChannel env (Some h) channelName) h) Hw).
  by destruct (WriteFile env ChannelsFile).
Qed.

Lemma print_no_crash (env : Env) (args : list string) (w : World) :
  (run (handlePrint env args) w).1 ≠ Crash.
Proof.
  unfold handlePrint, printTeams, printChannels, printMembers. frame_tac.
Qed.

Lemma invite_no_crash (args : list string) (w : World) :
  (run (handleInvite args) w).1 ≠ Crash.
Proof. unfold handleInvite. frame_tac. Qed.

Lemma ping_no_crash (env : Env) (args : list string) (w : World) :
  (run (handlePing env args) w).1 ≠ Crash.
Proof. unfold handlePing. frame_tac. Qed.

Lemma pass_safe (env : Env) (channelID : string) (w : World) :
  Allocated w →
  (run (updateUserInfoForChannel env channelID) w).1 ≠ Crash
  ∧ Allocated (world (run (updateUserInfoForChannel env channelID) w).2).
Proof.
  intros Hw. destruct (pass_run env channelID w) as [-> ->].
  unfold pass_outcome.
  destruct (load make_map (users_json w)) as [users|err] eqn:Husers; [|done].
  destruct (load _ (teams_json w)) as [teams|err] eqn:Hteams; [|done].
  destruct (GetUsersInConversation env channelID) as [members|err]; [|done].
  destruct (refreshAll_allocated env channelID members 0 users teams)
    as (users' & teams' & -> & Husers' & Hteams').
  { by eapply loaded_users_allocated. }
  split; [done|]. cbn. unfold world_after_pass.
  destruct Hw as (Ht & Hu & Hc). split_and!; cbn; [| |done].
  - apply (allocated_written (λ teams, Teams.Teams teams ≠ None)); [|done].
    apply Hteams'. by eapply loaded_teams_allocated.
  - by apply (allocated_written users_allocated).
Qed.

(** X21. On a store where every map is allocated (no null collection, no
    Users entry with null channels), no command and no refresh pass
    panics, and the store it leaves is again such a store, whatever Slack
    and the file system answer. *)
Theorem allocated_store_never_panics (env : Env) (w : World) :
  Allocated w →
  (∀ args channelID channelName,
     (run (handleSlackCommand env args channelID channelName) w).1 ≠ Crash
     ∧ Allocated
         (world (run (handleSlackCommand env args channelID channelName)
                   w).2))
  ∧ (∀ channelID,
       (run (updateUserInfoForChannel env channelID) w).1 ≠ Crash
       ∧ Allocated
           (world (run (updateUserInfoForChannel env channelID) w).2)).
Proof.
  intros Hw. split; [|intros; by apply pass_safe].
  intros args channelID channelName. unfold handleSlackCommand.
  destruct args as [|action rest]; [done|].
  repeat case_decide; try done.
  - by apply createTeam_safe.
  - by apply removeTeam_safe.
  - by apply add_safe.
  - by apply remove_safe.
  - split; [apply print_no_crash|]. by rewrite print_state.
  - split; [apply invite_no_crash|]. by rewrite invite_state.
  - split; [apply ping_no_crash|]. by rewrite ping_keeps_world.
  - by apply addChannel_safe.
  - by apply removeChannel_safe.
Qed.

Lemma eng_world_allocated : Allocated eng_world.
Proof.
  split_and!.
  - by intros teams [= <-].
  - intros users [= <-]. split; [done|]. intros id u. cbn.
    by rewrite lookup_empty.
  - by intros channels [= <-].
Qed.

Lemma allocated_store_never_panics_witness :
  (∀ args channelID channelName,
     (run (handleSlackCommand ada_env args channelID channelName)
        eng_world).1 ≠ Crash
     ∧ Allocated
         (world (run (handleSlackCommand ada_env args channelID channelName)
                   eng_world).2))
  ∧ (∀ channelID,
       (run (updateUserInfoForChannel ada_env channelID) eng_world).1 ≠ Crash
       ∧ Allocated
           (world (run (updateUserInfoForChannel ada_env channelID)
                     eng_world).2)).
Proof.
  apply (allocated_store_never_panics ada_env eng_world).
  exact eng_world_allocated.
Defined.

(** X22. Null collections make commands panic, each at its first store
    into the map.  With a teams file holding a null teams map, create-team
    panics before anything is written.  With a channels file holding null,
    add-channel from a channel panics after it has joined it, with nothing
    stored.  With a Users file holding null, an add that got as far as
    writing the team panics with the member stored and no answer given. *)
Theorem null_collections_panic (env : Env) (w : World) :
  (∀ team rest,
     teams_json w = Bytes (Json (Teams.mk None)) →
     run (handleCreateTeam env (team :: rest)) w = (Crash, mkSt w []))
  ∧ (∀ args channelID channelName,
       channels_json w = Bytes (Json None) →
       channelID ≠ "" → channelName ≠ "" →
       JoinConversation env channelID = None →
       run (handleAddChannel env args channelID channelName) w
       = (Crash, mkSt w [CallJoinConversation channelID]))
  ∧ (∀ g team memberID rest t userInfo,
       teams_json w = Bytes (Json (Teams.mk (Some g))) →
       g !! team = Some t →
       memberID ∉ team_ids t →
       GetUserInfo env memberID = inl userInfo →
       WriteFile env TeamsFile = WriteOK →
       users_json w = Bytes (Json None) →
       run (handleAdd env (team :: memberID :: rest)) w
       = (Crash,
          mkSt (with_teams w
                  (<[team := Team.mk (Team.Members t
                       ++ [Member.mk memberID (displayNameOf userInfo)
                             (Some ∅)])]> g))
            [CallGetUserInfo memberID])).
Proof.
  split_and!.
  - intros team rest Hfile. unfold handleCreateTeam, teams_set. run_io.
    rewrite Hfile. run_io. by destruct w.
  - intros args channelID channelName Hfile Hid Hname Hjoin.
    unfold handleAddChannel. case_decide as Hempty; [by destruct Hempty|].
    run_io. rewrite Hfile. run_io. rewrite Hjoin. run_io. by destruct w.
  - intros g team memberID rest t userInfo Hfile Hteam Hfresh Hinfo Hwrite
      Husers.
    apply find_member_None in Hfresh.
    unfold handleAdd, teams_set. run_io. rewrite Hfile. run_io.
    rewrite Hteam. run_io. rewrite Hfresh. run_io. rewrite Hinfo. run_io.
    rewrite Hwrite. run_io. rewrite Husers. run_io.
    unfold with_teams. by rewrite Husers.
Qed.

Example add_panics_with_member_stored :
  run (handleAdd ada_env ["eng"; "U123"])
    (mkWorld (Bytes (Json eng_teams)) (Bytes (Json None)) NoFile)
  = (Crash,
     mkSt (mkWorld
             (Bytes (Json (Teams.mk (Some
                {[ "eng" := Team.mk [Member.mk "U7" "Bob" (Some ∅);
                                     Member.mk "U123" "Ada" (Some ∅)] ]}))))
             (Bytes (Json None)) NoFile)
       [CallGetUserInfo "U123"]).
Proof. vm_compute. reflexivity. Qed.

(** ** Start-up *)

Definition missing (filename : FileName) (w : World) : bool :=
  match filename with
  | TeamsFile => file_missing (teams_json w)
  | UsersFile => file_missing (users_json w)
  | ChannelsFile => file_missing (channels_json w)
  end.

(** The file of [filename] parses to the empty allocated collection. *)
Definition holds_empty (filename : FileName) (w : World) : Prop :=
  match filename with
  | TeamsFile => teams_json w = Bytes (Json (Teams.mk (Some ∅)))
  | UsersFile => users_json w = Bytes (Json (Some ∅))
  | ChannelsFile => channels_json w = Bytes (Json (Some ∅))
  end.

(** The read of the collection of [filename] returns an error. *)
Definition read_fails (filename : FileName) (w : World) : Prop :=
  match filename with
  | TeamsFile => ∃ err, load (Teams.mk make_map) (teams_json w) = inr err
  | UsersFile => ∃ err, load (make_map : Users) (users_json w) = inr err
  | ChannelsFile =>
      ∃ err, load (make_map : Channels) (channels_json w) = inr err
  end.

(** The files other than that of [filename] are the same in both worlds. *)
Definition others_same (filename : FileName) (w w' : World) : Prop :=
  match filename with
  | TeamsFile =>
      users_json w' = users_json w ∧ channels_json w' = channels_json w
  | UsersFile =>
      teams_json w' = teams_json w ∧ channels_json w' = channels_json w
  | ChannelsFile =>
      teams_json w' = teams_json w ∧ users_json w' = users_json w
  end.

(** X23. [ensureFileExists] leaves a file that is there alone, readable or
    not.  For a missing file, a failed creation ends the process with
    nothing changed; after a creation, a successful initial write leaves
    the empty allocated collection, and a failed one leaves a file that is
    there but does not parse, so that the collection, which read as empty
    while the file was missing, can no longer be read.  The other two
    files are never touched. *)
Theorem ensureFileExists_cases (env : Env) (create : option error)
    (filename : FileName) (w : World) :
  (missing filename w = false →
   run (ensureFileExists env create filename) w = (Val tt, mkSt w []))
  ∧ (missing filename w = true →
     ∀ err, create = Some err →
            run (ensureFileExists env create filename) w
            = (Exit err, mkSt w []))
  ∧ (missing filename w = true →
     create = None →
     ∃ w',
       run (ensureFileExists env create filename) w = (Val tt, mkSt w' [])
       ∧ others_same filename w w'
       ∧ (WriteFile env filename = WriteOK → holds_empty filename w')
       ∧ (∀ err truncated,
            WriteFile env filename = WriteFailed err truncated →
            read_fails filename w')).
Proof.
  unfold ensureFileExists. split_and!.
  - intros Hthere. destruct filename; cbn in Hthere; run_io;
      rewrite Hthere; by destruct w.
  - intros Hmissing err ->.
    destruct filename; cbn in Hmissing; run_io; rewrite Hmissing;
      by destruct w.
  - intros Hmissing ->.
    destruct filename; cbn in Hmissing; run_io; rewrite Hmissing; run_io;
      eexists; (split; [reflexivity|]); cbn; (split; [done|]); split.
    all: try (by intros ->).
    all: intros err truncated ->; destruct truncated; cbn; by eexists.
Qed.

Lemma ensureFileExists_cases_witness :
  ∃ w',
    run (ensureFileExists closed_env None UsersFile) empty_world
    = (Val tt, mkSt w' [])
    ∧ others_same UsersFile empty_world w'
    ∧ (WriteFile closed_env UsersFile = WriteOK → holds_empty UsersFile w')
    ∧ (∀ err truncated,
         WriteFile closed_env UsersFile = WriteFailed err truncated →
         read_fails UsersFile w').
Proof.
  apply (ensureFileExists_cases closed_env None UsersFile empty_world);
    reflexivity.
Defined.

(** What start-up leaves of a file when creations and writes succeed. *)
Definition ensured {T} (empty : T) (file : File T) : File T :=
  if file_missing file then Bytes (Json empty) else file.

(** X24. The start-up sequence of [main], when every creation and every
    initial write succeeds: it runs to its end without a call, every file
    that was missing now holds the empty allocated collection, every file
    that was there is as it was, and no file is missing any more.  If
    the store was allocated apart from the missing files, it is allocated
    afterwards. *)
Theorem startup_creates_missing_files (env : Env)
    (create : FileName → option error) (w : World) :
  (∀ filename, create filename = None) →
  (∀ filename, WriteFile env filename = WriteOK) →
  ∃ w',
    run (ensureFiles env create) w = (Val tt, mkSt w' [])
    ∧ teams_json w' = ensured (Teams.mk (Some ∅)) (teams_json w)
    ∧ users_json w' = ensured (Some ∅) (users_json w)
    ∧ channels_json w' = ensured (Some ∅) (channels_json w)
    ∧ (∀ filename, missing filename w' = false)
    ∧ (Allocated w → Allocated w').
Proof.
  intros Hcreate Hwrite. unfold ensureFiles, ensureFileExists. run_io.
  rewrite ?Hcreate, ?Hwrite. unfold ensured.
  destruct w as [tf uf cf]. cbn.
  destruct (file_missing tf) eqn:Ht, (file_missing uf) eqn:Hu,
    (file_missing cf) eqn:Hc; run_io; rewrite ?Hcreate, ?Hwrite; run_io;
    rewrite ?Hu, ?Hc; run_io; rewrite ?Hcreate, ?Hwrite; run_io;
    rewrite ?Hc; run_io; rewrite ?Hcreate, ?Hwrite; run_io.
  all: eexists; split; [reflexivity|]; cbn.
  all: split_and!; try done.
  all: try (intros []; cbn; done).
  all: intros (Hat & Hau & Hac); split_and!; cbn in *; try done.
  all: try (by intros ? [= <-]).
  all: intros ? [= <-]; split; [done|]; intros id u; cbn;
    by rewrite lookup_empty.
Qed.

Lemma startup_creates_missing_files_witness :
  ∃ w',
    run (ensureFiles ada_env (λ _, None)) tracked_world = (Val tt, mkSt w' [])
    ∧ teams_json w' = ensured (Teams.mk (Some ∅)) (teams_json tracked_world)
    ∧ users_json w' = ensured (Some ∅) (users_json tracked_world)
    ∧ channels_json w' = ensured (Some ∅) (channels_json tracked_world)
    ∧ (∀ filename, missing filename w' = false)
    ∧ (Allocated tracked_world → Allocated w').
Proof.
  apply (startup_creates_missing_files ada_env (λ _, None) tracked_world);
    reflexivity.
Defined.

(** ** The background loop *)

(** The passes of one turn, as a function of the files. *)
Fixpoint passes (passEnv : string → Env) (channelIDs : list string)
    (w : World) : Res error unit * World :=
  match channelIDs with
  | [] => (Val tt, w)
  | channelID :: rest =>
      match pass_outcome (passEnv channelID) channelID w with
      | (Crash, w') => (Crash, w')
      | (_, w') => passes passEnv rest w'
      end
  end.

Lemma updateChannels_from (passEnv : string → Env) (channelIDs : list string)
    (s : St) :
  ∃ tr,
    updateChannels passEnv channelIDs s
    = ((passes passEnv channelIDs (world s)).1,
       mkSt (passes passEnv channelIDs (world s)).2 (calls s ++ tr)).
Proof.
  revert s. induction channelIDs as [|channelID rest IH]; intros s; cbn.
  - exists []. rewrite app_nil_r. by destruct s.
  - unfold returned. run_m.
    destruct (pass_from (passEnv channelID) channelID s) as [tr ->].
    destruct (pass_outcome (passEnv channelID) channelID (world s))
      as [[[]|err|] w']; cbn.
    + destruct (IH (mkSt w' (calls s ++ tr))) as [tr' ->]. cbn.
      exists (tr ++ tr'). by rewrite app_assoc.
    + destruct (IH (mkSt w' (calls s ++ tr))) as [tr' ->]. cbn.
      exists (tr ++ tr'). by rewrite app_assoc.
    + by exists tr.
Qed.

Lemma updateChannels_run (passEnv : string → Env) (channelIDs : list string)
    (w : World) :
  (run (updateChannels passEnv channelIDs) w).1
    = (passes passEnv channelIDs w).1
  ∧ world (run (updateChannels passEnv channelIDs) w).2
    = (passes passEnv channelIDs w).2.
Proof.
  destruct (updateChannels_from passEnv channelIDs (mkSt w [])) as [tr Hrun].
  unfold run. by rewrite Hrun.
Qed.

Lemma passes_app (passEnv : string → Env) (l1 l2 : list string) (w : World) :
  passes passEnv (l1 ++ l2) w
  = match passes passEnv l1 w with
    | (Crash, w') => (Crash, w')
    | (_, w') => passes passEnv l2 w'
    end.
Proof.
  revert w. induction l1 as [|channelID rest IH]; intros w; cbn; [done|].
  destruct (pass_outcome (passEnv channelID) channelID w) as [[[]|err|] w'];
    cbn; by rewrite ?IH.
Qed.

Lemma pass_outcome_unlisted (env : Env) (channelID : string) (w : World)
    (err : error) :
  GetUsersInConversation env channelID = inr err →
  ∃ err', pass_outcome env channelID w = (Exit err', w).
Proof.
  intros Hlist. unfold pass_outcome. rewrite Hlist.
  repeat case_match; by eexists.
Qed.

(** X25. A channel whose members Slack does not list is skipped, and only
    that: a turn over the channels ends as, and leaves the files of, the
    turn over the same channels without it.  The channels before and
    after it get their pass. *)
Theorem unlisted_channel_is_skipped (passEnv : string → Env)
    (before after : list string) (channelID : string) (err : error)
    (w : World) :
  GetUsersInConversation (passEnv channelID) channelID = inr err →
  (run (updateChannels passEnv (before ++ channelID :: after)) w).1
    = (run (updateChannels passEnv (before ++ after)) w).1
  ∧ world (run (updateChannels passEnv (before ++ channelID :: after)) w).2
    = world (run (updateChannels passEnv (before ++ after)) w).2.
Proof.
  intros Hlist.
  destruct (updateChannels_run passEnv (before ++ channelID :: after) w)
    as [-> ->].
  destruct (updateChannels_run passEnv (before ++ after) w) as [-> ->].
  rewrite !passes_app.
  destruct (passes passEnv before w) as [[[]|err'|] w']; [|  |done].
  - cbn. by destruct (pass_outcome_unlisted _ _ w' _ Hlist) as [? ->].
  - cbn. by destruct (pass_outcome_unlisted _ _ w' _ Hlist) as [? ->].
Qed.

(** C1 lists U2, C2 cannot be listed, any other channel lists U1. *)
Definition three_channels_env : Env :=
  mkEnv (GetUserInfo grace_env)
    (λ channelID,
       if decide (channelID = "C2") then inr (ErrOther "channel_not_found")
       else if decide (channelID = "C1") then inl ["U2"] else inl ["U1"])
    (λ _, None) (λ _ _, None) (λ _, WriteOK) map_to_list map_to_list
    (Now grace_env).

Lemma unlisted_channel_is_skipped_witness :
  (run (updateChannels (λ _, three_channels_env) (["C1"] ++ "C2" :: ["C3"]))
     stale_world).1
    = (run (updateChannels (λ _, three_channels_env) (["C1"] ++ ["C3"]))
         stale_world).1
  ∧ world
      (run (updateChannels (λ _, three_channels_env)
              (["C1"] ++ "C2" :: ["C3"])) stale_world).2
    = world
        (run (updateChannels (λ _, three_channels_env) (["C1"] ++ ["C3"]))
           stale_world).2.
Proof.
  apply (unlisted_channel_is_skipped (λ _, three_channels_env) ["C1"] ["C3"]
           "C2" (ErrOther "channel_not_found") stale_world).
  reflexivity.
Defined.

Lemma passes_keep (passEnv : string → Env) (channelIDs : list string)
    (w : World) :
  channels_json (passes passEnv channelIDs w).2 = channels_json w
  ∧ (UniqueMembers w → UniqueMembers (passes passEnv channelIDs w).2)
  ∧ (Allocated w →
     (passes passEnv channelIDs w).1 = Val tt
     ∧ Allocated (passes passEnv channelIDs w).2).
Proof.
  revert w. induction channelIDs as [|channelID rest IH]; intros w; cbn.
  { by split_and!. }
  destruct (pass_run (passEnv channelID) channelID w) as [H1 H2].
  pose proof (pass_unique (passEnv channelID) channelID w) as Hunique.
  pose proof (pass_safe (passEnv channelID) channelID w) as Hsafe.
  rewrite H1, H2 in Hsafe. rewrite H2 in Hunique.
  assert (channels_json (pass_outcome (passEnv channelID) channelID w).2
          = channels_json w) as Hchannels.
  { unfold pass_outcome. repeat case_match; done. }
  destruct (pass_outcome (passEnv channelID) channelID w) as [[[]|err|] w'];
    cbn in *.
  - destruct (IH w') as (Hc & Hu & Ha). split_and!; [congruence|auto|].
    intros Hw. apply Ha. by apply Hsafe.
  - destruct (IH w') as (Hc & Hu & Ha). split_and!; [congruence|auto|].
    intros Hw. apply Ha. by apply Hsafe.
  - split_and!; [done|auto|]. intros Hw. by destruct (Hsafe Hw).
Qed.

(** X26. One turn of the background loop never writes the channels file
    and keeps the member ids of every team unique.  When the channels
    cannot be read it does nothing at all.  On a store where every map is
    allocated it runs to its end, whatever Slack and the file system
    answer during each pass, and leaves such a store. *)
Theorem round_keeps_store (env : Env) (passEnv : string → Env) (w : World) :
  channels_json (world (run (updateUserInfo_round env passEnv) w).2)
    = channels_json w
  ∧ (UniqueMembers w →
     UniqueMembers (world (run (updateUserInfo_round env passEnv) w).2))
  ∧ (Allocated w →
     (run (updateUserInfo_round env passEnv) w).1 = Val tt
     ∧ Allocated (world (run (updateUserInfo_round env passEnv) w).2))
  ∧ (∀ err,
       load (make_map : Channels) (channels_json w) = inr err →
       run (updateUserInfo_round env passEnv) w = (Val tt, mkSt w [])).
Proof.
  unfold updateUserInfo_round. run_io.
  destruct (load make_map (channels_json w)) as [channels|err] eqn:Hload;
    run_io.
  - set (ids := (range_over (range_channels env) channels).*1).
    destruct (updateChannels_from passEnv ids (mkSt w [])) as [tr ->]. cbn.
    destruct (passes_keep passEnv ids w) as (Hc & Hu & Ha).
    by split_and!.
  - by split_and!.
Qed.

(** ** Failures on the way *)

(** X27. Members without an id are not mentioned, and a team that has only
    such members is treated like an empty one: ping on a channel that
    resolves answers "No members" and posts nothing. *)
Theorem ping_ignores_empty_ids (env : Env) (w : World) (teams : Teams.t)
    (channels : Channels) (team channelName : string) (rest : list string)
    (t : Team.t) :
  load (Teams.mk make_map) (teams_json w) = inl teams →
  map_get (Teams.Teams teams) team = Some t →
  load make_map (channels_json w) = inl channels →
  resolveChannel env channels channelName ≠ "" →
  Forall (λ m, Member.MemberID m = "") (Team.Members t) →
  run (handlePing env (team :: channelName :: rest)) w
  = (Exit (Error ("No members of team '" +:+ team +:+ "' found.")),
     mkSt w []).
Proof.
  intros Hteams Hteam Hchannels Hresolved Hempty.
  apply mentionsOf_nil in Hempty.
  unfold handlePing. run_io. rewrite Hteams. run_io. rewrite Hteam. run_io.
  rewrite Hchannels. run_io. rewrite decide_False by done.
  by rewrite Hempty.
Qed.

Definition ghost_world : World :=
  mkWorld
    (Bytes (Json (Teams.mk (Some
       {[ "eng" := Team.mk [Member.mk "" "ghost" None] ]}))))
    (Bytes (Json (Some ∅)))
    (Bytes (Json (Some {[ "C1" := Channel.mk "C1" "general" ]}))).

Lemma ping_ignores_empty_ids_witness :
  run (handlePing ada_env ["eng"; "general"]) ghost_world
  = (Exit (Error ("No members of team '" +:+ "eng" +:+ "' found.")),
     mkSt ghost_world []).
Proof.
  apply (ping_ignores_empty_ids ada_env ghost_world
           (Teams.mk (Some {[ "eng" := Team.mk [Member.mk "" "ghost" None] ]}))
           (Some {[ "C1" := Channel.mk "C1" "general" ]})
           "eng" "general" [] (Team.mk [Member.mk "" "ghost" None])).
  - reflexivity.
  - reflexivity.
  - reflexivity.
  - vm_compute. discriminate.
  - by constructor.
Defined.

(** X28. add stores nothing it could not complete.  When Slack does not
    return the profile of the member, the answer carries the error text of
    the lookup and no file is written.  When the write of the teams file
    fails, the answer is the write error and the Users file is not
    touched: the Users entry is only written after the team is. *)
Theorem add_failures (env : Env) (w : World) (g : gmap string Team.t)
    (team memberID : string) (rest : list string) (t : Team.t) :
  teams_json w = Bytes (Json (Teams.mk (Some g))) →
  g !! team = Some t →
  memberID ∉ team_ids t →
  (∀ err,
     GetUserInfo env memberID = inr err →
     run (handleAdd env (team :: memberID :: rest)) w
     = (Exit (Error ("Error getting user info: " +:+ Error_text err)),
        mkSt w [CallGetUserInfo memberID]))
  ∧ (∀ userInfo err truncated,
       GetUserInfo env memberID = inl userInfo →
       WriteFile env TeamsFile = WriteFailed err truncated →
       ∃ w1,
         run (handleAdd env (team :: memberID :: rest)) w
         = (Exit (Error "Error writing to teams."),
            mkSt w1 [CallGetUserInfo memberID])
         ∧ users_json w1 = users_json w
         ∧ channels_json w1 = channels_json w
         ∧ (teams_json w1 = teams_json w
            ∨ ∃ msg, teams_json w1 = Bytes (Malformed msg))).
Proof.
  intros Hfile Hteam Hfresh. apply find_member_None in Hfresh. split.
  - intros err Hinfo. unfold handleAdd. run_io. rewrite Hfile. run_io.
    rewrite Hteam. run_io. rewrite Hfresh. run_io. rewrite Hinfo. run_io.
    by destruct w.
  - intros userInfo err truncated Hinfo Hwrite.
    unfold handleAdd, teams_set. run_io. rewrite Hfile. run_io.
    rewrite Hteam. run_io. rewrite Hfresh. run_io. rewrite Hinfo. run_io.
    rewrite Hwrite. run_io. eexists. split; [reflexivity|]. cbn.
    split_and!; try done. destruct truncated; cbn; eauto.
Qed.

Lemma add_failures_witness :
  (∀ err,
     GetUserInfo ada_env "U404" = inr err →
     run (handleAdd ada_env ["eng"; "U404"]) eng_world
     = (Exit (Error ("Error getting user info: " +:+ Error_text err)),
        mkSt eng_world [CallGetUserInfo "U404"]))
  ∧ (∀ userInfo err truncated,
       GetUserInfo ada_env "U404" = inl userInfo →
       WriteFile ada_env TeamsFile = WriteFailed err truncated →
       ∃ w1,
         run (handleAdd ada_env ["eng"; "U404"]) eng_world
         = (Exit (Error "Error writing to teams."),
            mkSt w1 [CallGetUserInfo "U404"])
         ∧ users_json w1 = users_json eng_world
         ∧ channels_json w1 = channels_json eng_world
         ∧ (teams_json w1 = teams_json eng_world
            ∨ ∃ msg, teams_json w1 = Bytes (Malformed msg))).
Proof.
  apply (add_failures ada_env eng_world {[ "eng" := eng_team ]} "eng" "U404"
           [] eng_team).
  - reflexivity.
  - reflexivity.
  - apply find_member_None. reflexivity.
Defined.

(** What a failed write leaves of a file: the old bytes or a truncation. *)
Definition left_by_failed_write {T} (old new : File T) : Prop :=
  new = old ∨ ∃ msg, new = Bytes (Malformed msg).

(** X29. create-team, remove-team and remove report a failed write of the
    teams file with "Error writing to teams."; the teams file then holds
    its old bytes or is truncated, never the new collection, and the
    other files are untouched. *)
Theorem team_write_failures (env : Env) (w : World) (g : gmap string Team.t)
    (err : error) (truncated : bool) :
  load (Teams.mk make_map) (teams_json w) = inl (Teams.mk (Some g)) →
  WriteFile env TeamsFile = WriteFailed err truncated →
  let reported (r : Res Response unit * St) :=
    r.1 = Exit (Error "Error writing to teams.")
    ∧ calls r.2 = []
    ∧ left_by_failed_write (teams_json w) (teams_json (world r.2))
    ∧ users_json (world r.2) = users_json w
    ∧ channels_json (world r.2) = channels_json w in
  (∀ team rest,
     g !! team = None → reported (run (handleCreateTeam env (team :: rest)) w))
  ∧ (∀ team rest,
       is_Some (g !! team) →
       reported (run (handleRemoveTeam env (team :: rest)) w))
  ∧ (∀ team memberID rest t,
       g !! team = Some t →
       memberID ∈ team_ids t →
       reported (run (handleRemove env (team :: memberID :: rest)) w)).
Proof.
  intros Hload Hwrite reported. subst reported. cbn beta. split_and!.
  - intros team rest Hnew. unfold handleCreateTeam, teams_set. run_io.
    rewrite Hload. run_io. rewrite Hnew. run_io. rewrite Hwrite. run_io.
    split_and!; try done.
    destruct truncated; cbn; [right; by eexists|by left].
  - intros team rest [t Ht]. unfold handleRemoveTeam. run_io.
    rewrite Hload. run_io. rewrite Ht. run_io. rewrite Hwrite. run_io.
    split_and!; try done.
    destruct truncated; cbn; [right; by eexists|by left].
  - intros team memberID rest t Ht Hin. unfold handleRemove, teams_set.
    run_io. rewrite Hload. run_io. rewrite Ht. run_io.
    destruct (find_member memberID (Team.Members t)) as [[i member]|]
      eqn:Hfind.
    2:{ by apply find_member_None in Hfind. }
    run_io. rewrite Hwrite. run_io.
    split_and!; try done.
    destruct truncated; cbn; [right; by eexists|by left].
Qed.

Lemma team_write_failures_witness :
  let reported (r : Res Response unit * St) :=
    r.1 = Exit (Error "Error writing to teams.")
    ∧ calls r.2 = []
    ∧ left_by_failed_write (teams_json eng_world) (teams_json (world r.2))
    ∧ users_json (world r.2) = users_json eng_world
    ∧ channels_json (world r.2) = channels_json eng_world in
  (∀ team rest,
     ({[ "eng" := eng_team ]} : gmap string Team.t) !! team = None →
     reported (run (handleCreateTeam closed_env (team :: rest)) eng_world))
  ∧ (∀ team rest,
       is_Some (({[ "eng" := eng_team ]} : gmap string Team.t) !! team) →
       reported (run (handleRemoveTeam closed_env (team :: rest)) eng_world))
  ∧ (∀ team memberID rest t,
       ({[ "eng" := eng_team ]} : gmap string Team.t) !! team = Some t →
       memberID ∈ team_ids t →
       reported
         (run (handleRemove closed_env (team :: memberID :: rest)) eng_world)).
Proof.
  apply (team_write_failures closed_env eng_world {[ "eng" := eng_team ]}
           (ErrOther "read-only file system") false); reflexivity.
Defined.

Lemma refreshAll_same_answers (env env' : Env) (channelID : string)
    (members : list string) (i : nat) (users : Users) (teams : Teams.t) :
  (∀ id, GetUserInfo env' id = GetUserInfo env id) →
  (∀ n, Now env' n = Now env n) →
  refreshAll env' channelID members i users teams
  = refreshAll env channelID members i users teams.
Proof.
  intros Hinfo Hnow. revert i users teams.
  induction members as [|memberID rest IH]; intros i users teams; cbn;
    [done|].
  rewrite Hinfo, Hnow.
  destruct (GetUserInfo env memberID) as [userInfo|err];
    [destruct (UserInfo.IsBot userInfo)|]; try done.
  by destruct (refreshUser _ _ _ _ _).
Qed.

(** X30. The two writes that end a pass are independent, and neither
    stops the pass.  A pass that ran to its end computed one Users
    collection and one Teams collection; each file holds what its own
    write left of the collection.  With the same answers from Slack at the
    same times, a pass whose writes fare differently also runs to its end,
    writes these same two collections, and again each file holds what its
    own write left: a failed Users write keeps nothing from the teams
    file, and the other way round. *)
Theorem pass_saves_are_independent (env : Env) (channelID : string)
    (w : World) (s' : St) :
  run (updateUserInfoForChannel env channelID) w = (Val tt, s') →
  ∃ users' teams',
    world s'
    = mkWorld (written (WriteFile env TeamsFile) teams' (teams_json w))
        (written (WriteFile env UsersFile) users' (users_json w))
        (channels_json w)
    ∧ ∀ env2,
        GetUsersInConversation env2 channelID
          = GetUsersInConversation env channelID →
        (∀ id, GetUserInfo env2 id = GetUserInfo env id) →
        (∀ n, Now env2 n = Now env n) →
        ∃ s2,
          run (updateUserInfoForChannel env2 channelID) w = (Val tt, s2)
          ∧ world s2
            = mkWorld (written (WriteFile env2 TeamsFile) teams' (teams_json w))
                (written (WriteFile env2 UsersFile) users' (users_json w))
                (channels_json w).
Proof.
  intros Hrun.
  apply pass_finished in Hrun
    as (users & teams & members & users' & teams' & Hu & Ht & Hm & Hloop & ->).
  exists users', teams'. split; [done|].
  intros env2 Hlist Hinfo Hnow.
  destruct (updateUserInfoForChannel_run env2 channelID w) as [tr Hrun2].
  rewrite Hu, Ht, Hlist, Hm in Hrun2.
  rewrite (refreshAll_same_answers env env2) in Hrun2 by done.
  rewrite Hloop in Hrun2. eexists. split; [exact Hrun2|done].
Qed.

Lemma pass_saves_are_independent_witness :
  ∃ users' teams',
    world (run (updateUserInfoForChannel ada_env "C1") ada_member_world).2
    = mkWorld
        (written (WriteFile ada_env TeamsFile) teams'
           (teams_json ada_member_world))
        (written (WriteFile ada_env UsersFile) users'
           (users_json ada_member_world))
        (channels_json ada_member_world)
    ∧ ∀ env2,
        GetUsersInConversation env2 "C1"
          = GetUsersInConversation ada_env "C1" →
        (∀ id, GetUserInfo env2 id = GetUserInfo ada_env id) →
        (∀ n, Now env2 n = Now ada_env n) →
        ∃ s2,
          run (updateUserInfoForChannel env2 "C1") ada_member_world
          = (Val tt, s2)
          ∧ world s2
            = mkWorld
                (written (WriteFile env2 TeamsFile) teams'
                   (teams_json ada_member_world))
                (written (WriteFile env2 UsersFile) users'
                   (users_json ada_member_world))
                (channels_json ada_member_world).
Proof.
  apply (pass_saves_are_independent ada_env "C1" ada_member_world
           (run (updateUserInfoForChannel ada_env "C1") ada_member_world).2).
  vm_compute. reflexivity.
Defined.

Example users_write_fails_teams_written :
  let w' :=
    world (run (updateUserInfoForChannel users_readonly_env "C1")
             ada_member_world).2 in
  users_json w' = NoFile
  ∧ teams_json w'
    = Bytes (Json (Teams.mk (Some
        {[ "eng" := Team.mk [Member.mk "U7" "Bob" (Some ∅);
                             Member.mk "U123" "Ada"
                               (Some {[ "C1" := "U123" ]})] ]}))).
Proof. vm_compute. done. Qed.
